(** * Agreement bot core of anax: a shallow embedding and its properties

    The development follows three source files of the repository:
    - [cutil/cutil.go]: [GenerateAgreementId];
    - the citizen scientist consumer protocol handler of package
      [agreementbot] ([CSProtocolHandler]): the termination codes, the ledger
      client registry [bcState] and [PostReply];
    - the pattern manager of package [agreementbot] ([PatternEntry],
      [PatternManager]).

    Go values are embedded as follows.  A [uint] is a [Z] (conversions write
    their wrap-around out), a [[]byte] is a [list byte], a Go [string] is a
    [string], a Go [map[string]T] held in the state is a [gmap string T], and
    a Go [error] is [option error] ([None] is [nil]).  A function that
    mutates its receiver takes the state and returns it. *)

From Stdlib Require Import ZArith NArith String Ascii List Lia.
From Stdlib.Strings Require Import Byte.
From stdpp Require Import gmap strings list fin_maps.

Local Open Scope string_scope.
Local Open Scope Z_scope.

(* ===================================================================== *)
(** * Part I: definitions                                                  *)
(* ===================================================================== *)

(** ** Errors

    Go builds its error texts with [fmt.Sprintf] and the [%v] rendering of
    structs; the embedding keeps which call site produced the error and the
    error it wraps. *)
Inductive error : Type :=
| ExternalError (msg : string)
    (* an error handed back by a collaborator outside of these files *)
| NilDereference
    (* Go's runtime panic on a pointer that refers to no variable *)
| ErrOrgNotFound (org : string)
    (* "org %v not found in pattern manager" *)
| ErrMarshalPattern (cause : error)
    (* "unable to marshal pattern %v to a string, error %v" *)
| ErrConvertToPolicies (cause : error)
    (* "error converting pattern to policies, error %v" *)
| ErrCreatePolicyFile (cause : error)
    (* "error creating policy file, error %v" *)
| ErrCreatePatternEntry (cause : error)
    (* "unable to create pattern entry for %v, error %v" *)
| ErrCreatePolicyFiles (cause : error)
    (* "unable to create policy files for %v, error %v" *)
| ErrHashPattern (org : string) (cause : error)
    (* "unable to hash pattern %v for %v, error %v" *)
| ErrDeletePolicyFiles (org : string) (cause : error).
    (* "unable to delete policy files for %v, error %v" *)

(** The outcome of a Go function returning [(T, error)]. *)
Inductive result (A : Type) : Type :=
| Ok (a : A)
| Err (e : error).
Arguments Ok {A} a.
Arguments Err {A} e.

(** [bytes.Equal]. *)
Fixpoint bytes_Equal (a b : list byte) : bool :=
  match a, b with
  | [], [] => true
  | x :: a', y :: b' => Byte.eqb x y && bytes_Equal a' b'
  | _, _ => false
  end.

(* --------------------------------------------------------------------- *)
(** ** cutil: agreement ids                                                *)
(* --------------------------------------------------------------------- *)

Module cutil.

(** [encoding/hex]: [const hextable = "0123456789abcdef"]. *)
Definition hextable : string := "0123456789abcdef".

(** [hextable[i]]; the index is a nibble, so the lookup is always in range
    (the fallback stands for Go's index panic and is never reached). *)
Definition hextable_at (i : N) : ascii :=
  match String.get (N.to_nat i) hextable with
  | Some c => c
  | None => "?"%char
  end.

(** [hex.EncodeToString]: for each byte [v] of [src] it writes
    [hextable[v>>4]] and [hextable[v&0x0f]]. *)
Fixpoint hex_EncodeToString (src : list byte) : string :=
  match src with
  | [] => EmptyString
  | v :: rest =>
      String (hextable_at (N.shiftr (Byte.to_N v) 4))
        (String (hextable_at (N.land (Byte.to_N v) 15))
           (hex_EncodeToString rest))
  end.

(** What one call of [crypto/rand.Read] does: it overwrites the first
    [rand_n] bytes of the buffer it is given with [rand_byte 0],
    [rand_byte 1], ... and returns [(rand_n, rand_err)]. *)
Record RandRead : Type := {
  rand_byte : nat -> byte;
  rand_n : nat;
  rand_err : option error
}.

(** [make([]byte, n, n)]: [n] zero bytes. *)
Definition make_bytes (n : nat) : list byte := repeat x00 n.

(** [rand.Read(b)]: the buffer after the call (a slice is filled in place,
    its length does not change) and the error. *)
Definition rand_Read (r : RandRead) (b : list byte) : list byte * option error :=
  (imap (fun i old => if (i <? rand_n r)%nat then rand_byte r i else old) b,
   rand_err r).

(** [GenerateAgreementId]. *)
Definition GenerateAgreementId (r : RandRead) : string * option error :=
  let bytes := make_bytes 32 in
  let agreementIdString := "" in
  let '(bytes, err) := rand_Read r bytes in
  let agreementIdString :=
    match err with
    | None => hex_EncodeToString bytes
    | Some _ => agreementIdString
    end in
  (agreementIdString, err).

(** The characters of a lowercase hexadecimal numeral. *)
Definition is_lower_hex (c : ascii) : bool :=
  let n := N_of_ascii c in
  ((48 <=? n) && (n <=? 57) || (97 <=? n) && (n <=? 102))%N.

Fixpoint string_forallb (p : ascii -> bool) (s : string) : bool :=
  match s with
  | EmptyString => true
  | String c rest => p c && string_forallb p rest
  end.

(** Reading a text as hexadecimal, the way a numeral is read and not the
    way [hex.EncodeToString] writes it: the value of a digit ([0] to [9]
    are 0 to 9, [a] to [f] are 10 to 15), and the bytes that a text of
    two-digit numerals denotes. *)
Definition hex_digit_value (c : ascii) : option N :=
  let n := N_of_ascii c in
  if ((48 <=? n) && (n <=? 57))%N then Some (n - 48)%N
  else if ((97 <=? n) && (n <=? 102))%N then Some (n - 87)%N
  else None.

Fixpoint hex_bytes (s : string) : option (list N) :=
  match s with
  | EmptyString => Some []
  | String hi (String lo rest) =>
      match hex_digit_value hi, hex_digit_value lo, hex_bytes rest with
      | Some h, Some l, Some bs => Some ((16 * h + l)%N :: bs)
      | _, _, _ => None
      end
  | String _ EmptyString => None
  end.

(** *** The other functions of cutil *)

(** A Go function that either returns or panics. *)
Inductive outcome (A : Type) : Type :=
| Returns (a : A)
| Panics.
Arguments Returns {A} a.
Arguments Panics {A}.

(** The value of an [int] (64 bits) after an operation that may have
    overflowed. *)
Definition int_wrap (z : Z) : Z := (z + 2 ^ 63) mod 2 ^ 64 - 2 ^ 63.

(** The loop of [FirstN]; [fuel] bounds the number of rounds.  [ss[ix]]
    panics when [ix] is out of range. *)
Fixpoint FirstN_loop (fuel : nat) (n ix : Z) (ss out : list string) :
    outcome (list string) :=
  match fuel with
  | O => Returns out
  | S fuel =>
      if ix <? int_wrap (n - 1) then
        if Z.of_nat (length ss) =? ix then Returns out
        else if ix <? 0 then Panics
        else
          match ss !! Z.to_nat ix with
          | Some x => FirstN_loop fuel n (int_wrap (ix + 1)) ss (out ++ [x])
          | None => Panics
          end
      else Returns out
  end.

(** [FirstN(n, ss)]: the loop leaves when [ix] reaches [len(ss)], so
    [len(ss) + 1] rounds are enough. *)
Definition FirstN (n : Z) (ss : list string) : outcome (list string) :=
  FirstN_loop (S (length ss)) n 0 ss [].

(** [base64.URLEncoding]: the alphabet and the padding character. *)
Definition encodeURL : string :=
  "ABCDEFGHIJKLMNOPQRSTUVWXYZabcdefghijklmnopqrstuvwxyz0123456789-_".

Definition encodeURL_at (i : N) : ascii :=
  match String.get (N.to_nat i) encodeURL with
  | Some c => c
  | None => "?"%char
  end.

Definition sextet (val : N) (shift : N) : ascii :=
  encodeURL_at (N.land (N.shiftr val shift) 63).

(** [base64.URLEncoding.EncodeToString]: three bytes give four characters;
    a remainder of one or two bytes gives two or three characters and
    padding. *)
Fixpoint base64_URLEncoding_EncodeToString (src : list byte) : string :=
  match src with
  | [] => EmptyString
  | [a] =>
      let val := N.shiftl (Byte.to_N a) 16 in
      String (sextet val 18) (String (sextet val 12) "==")
  | [a; b] =>
      let val := N.lor (N.shiftl (Byte.to_N a) 16) (N.shiftl (Byte.to_N b) 8) in
      String (sextet val 18) (String (sextet val 12) (String (sextet val 6) "="))
  | a :: b :: c :: rest =>
      let val := N.lor (N.lor (N.shiftl (Byte.to_N a) 16)
                          (N.shiftl (Byte.to_N b) 8)) (Byte.to_N c) in
      String (sextet val 18) (String (sextet val 12) (String (sextet val 6)
        (String (sextet val 0) (base64_URLEncoding_EncodeToString rest))))
  end.

(** [SecureRandomString]. *)
Definition SecureRandomString (r : RandRead) : string * option error :=
  let bytes := make_bytes 64 in
  let '(bytes, err) := rand_Read r bytes in
  match err with
  | Some err => ("", Some err)
  | None => (base64_URLEncoding_EncodeToString bytes, None)
  end.

(** The characters of [base64.URLEncoding]: letters, digits, [-], [_] and
    the padding [=]. *)
Definition is_base64url (c : ascii) : bool :=
  let n := N_of_ascii c in
  ((65 <=? n) && (n <=? 90) || (97 <=? n) && (n <=? 122) ||
   (48 <=? n) && (n <=? 57) || (n =? 45) || (n =? 95) || (n =? 61))%N.

(** Reading a text as base64 with the URL-safe alphabet (RFC 4648, section
    5), independently of the encoder above: the value of a character ([A]
    to [Z] are 0 to 25, [a] to [z] 26 to 51, [0] to [9] 52 to 61, [-] is 62
    and [_] is 63), and the bytes that a padded text denotes: four
    characters are a number of 24 bits, that is three bytes; a last group
    of three characters and [=] is two bytes, one of two characters and
    [==] is one byte. *)
Definition base64url_value (c : ascii) : option N :=
  let n := N_of_ascii c in
  if ((65 <=? n) && (n <=? 90))%N then Some (n - 65)%N
  else if ((97 <=? n) && (n <=? 122))%N then Some (n - 71)%N
  else if ((48 <=? n) && (n <=? 57))%N then Some (n + 4)%N
  else if (n =? 45)%N then Some 62%N
  else if (n =? 95)%N then Some 63%N
  else None.

Fixpoint base64url_bytes (s : string) : option (list N) :=
  match s with
  | EmptyString => Some []
  | String c0 (String c1 (String c2 (String c3 rest))) =>
      match base64url_value c0, base64url_value c1 with
      | Some v0, Some v1 =>
          match base64url_value c2, base64url_value c3 with
          | Some v2, Some v3 =>
              let n := (262144 * v0 + 4096 * v1 + 64 * v2 + v3)%N in
              match base64url_bytes rest with
              | Some bs =>
                  Some ((n / 65536)%N :: ((n / 256) mod 256)%N ::
                        (n mod 256)%N :: bs)
              | None => None
              end
          | Some v2, None =>
              if Ascii.eqb c3 "=" && (String.length rest =? 0)%nat
              then let n := (4096 * v0 + 64 * v1 + v2)%N in
                   Some [(n / 1024)%N; ((n / 4) mod 256)%N]
              else None
          | None, _ =>
              if Ascii.eqb c2 "=" && Ascii.eqb c3 "=" &&
                 (String.length rest =? 0)%nat
              then Some [((64 * v0 + v1) / 16)%N]
              else None
          end
      | _, _ => None
      end
  | _ => None
  end.

(** [CheckConnectivity(host)].  [lookup i] is what the [i]-th call of
    [net.LookupHost] returns ([None]: the host was found).  The result is
    the returned error, the number of lookups made and the number of
    one-second sleeps. *)
Fixpoint CheckConnectivity_loop (rounds : nat) (i : nat)
    (lookup : nat -> option error) (err : option error) (sleeps : nat) :
    option error * nat * nat :=
  match rounds with
  | O => (err, i, sleeps)
  | S rounds =>
      match lookup i with
      | None => (None, S i, sleeps)
      | Some e =>
          CheckConnectivity_loop rounds (S i) lookup (Some e) (S sleeps)
      end
  end.

Definition CheckConnectivity (lookup : nat -> option error) :
    option error * nat * nat :=
  CheckConnectivity_loop 3 0 lookup None 0.

(** [Min], [Minuint64] and [Maxuint64]. *)
Definition Min (first second : Z) : Z :=
  if first <? second then first else second.

Definition Minuint64 (first second : Z) : Z :=
  if first <? second then first else second.

Definition Maxuint64 (first second : Z) : Z :=
  if first >? second then first else second.

(** A value of type [interface{}] as the JSON decoder produces it.
    [json.Number] is a string type.  Floating point numbers are kept
    abstract: [Float64] below says what the code asks of them. *)
Class Float64 : Type := {
  float64 : Type;
  (* [float64(int64(f)) == f] *)
  is_whole : float64 -> bool;
  (* [strconv.FormatInt(int64(f), 10)] *)
  FormatInt_of : float64 -> string;
  (* [strconv.FormatFloat(f, 'f', 6, 64)] *)
  FormatFloat_f6 : float64 -> string
}.

#[warnings="-register-all"]
Inductive value `{Float64} : Type :=
| VBool (b : bool)
| VString (s : string)
| VFloat (f : float64)
| VNumber (n : string)
| VList (l : list value)
| VOther.

(** The errors of [NativeToEnvVariableMap] and [VerifyWorkloadVarTypes],
    by the place that makes them. *)
Inductive var_error : Type :=
| UnknownVariableType (varName : string)
    (* "unknown variable type %T for variable %v" *)
| WrongType (expectedType : string)
    (* "type %T, expecting %v" *)
| FloatForInt
    (* "type float, expecting int" *)
| NotAllStrings
    (* "type %T, expecting []string" *)
| UnexpectedType.
    (* "type %T, is an unexpected type." *)

(** [strconv.FormatBool]. *)
Definition FormatBool (b : bool) : string := if b then "true" else "false".

(** The loop of [NativeToEnvVariableMap] over a list: the string elements,
    each followed by a blank. *)
Fixpoint join_strings `{Float64} (l : list value) (los : string) : string :=
  match l with
  | [] => los
  | VString s :: rest => join_strings rest (los ++ s ++ " ")
  | _ :: rest => join_strings rest los
  end.

(** [NativeToEnvVariableMap(envMap, varName, varValue)]: the returned error
    and the map afterwards.  [los[:len(los)-1]] panics on the empty
    string. *)
Definition NativeToEnvVariableMap `{Float64} (envMap : gmap string string)
    (varName : string) (varValue : value) :
    outcome (option var_error * gmap string string) :=
  match varValue with
  | VBool b => Returns (None, <[varName := FormatBool b]> envMap)
  | VString s => Returns (None, <[varName := s]> envMap)
  | VFloat f =>
      if is_whole f then Returns (None, <[varName := FormatInt_of f]> envMap)
      else Returns (None, <[varName := FormatFloat_f6 f]> envMap)
  | VNumber n => Returns (None, <[varName := n]> envMap)
  | VList l =>
      let los := join_strings l "" in
      if (String.length los =? 0)%nat then Panics
      else
        let los := substring 0 (String.length los - 1) los in
        Returns (None, <[varName := los]> envMap)
  | VOther => Returns (Some (UnknownVariableType varName), envMap)
  end.

(** [strings.Contains(s, substr)]. *)
Definition strings_Contains (s substr : string) : bool :=
  match String.index 0 substr s with
  | Some _ => true
  | None => false
  end.

(** The loop of [VerifyWorkloadVarTypes] over a list. *)
Fixpoint all_strings `{Float64} (l : list value) : bool :=
  match l with
  | [] => true
  | VString _ :: rest => all_strings rest
  | _ :: rest => false
  end.

(** [VerifyWorkloadVarTypes(varValue, expectedType)]. *)
Definition VerifyWorkloadVarTypes `{Float64} (varValue : value)
    (expectedType : string) : option var_error :=
  match varValue with
  | VBool _ =>
      if negb (String.eqb expectedType "bool") &&
         negb (String.eqb expectedType "boolean")
      then Some (WrongType expectedType) else None
  | VString _ =>
      if negb (String.eqb expectedType "string")
      then Some (WrongType expectedType) else None
  | VNumber strNum =>
      if negb (String.eqb expectedType "int") &&
         negb (String.eqb expectedType "float")
      then Some (WrongType expectedType)
      else if strings_Contains strNum "." && String.eqb expectedType "int"
      then Some FloatForInt
      else None
  | VList l =>
      if negb (String.eqb expectedType "list of strings")
      then Some (WrongType expectedType)
      else if all_strings l then None else Some NotAllStrings
  | VFloat _ | VOther => Some UnexpectedType
  end.

(** [SetPlatformEnvvars]: the map afterwards. *)
Definition SetPlatformEnvvars (envAdds : gmap string string)
    (prefix agreementId deviceId org workloadPW exchangeURL : string) :
    gmap string string :=
  let envAdds :=
    if negb (String.eqb agreementId "")
    then <[prefix ++ "AGREEMENTID" := agreementId]> envAdds else envAdds in
  let envAdds := <[prefix ++ "DEVICE_ID" := deviceId]> envAdds in
  let envAdds := <[prefix ++ "ORGANIZATION" := org]> envAdds in
  let envAdds :=
    if negb (String.eqb workloadPW "")
    then <[prefix ++ "HASH" := workloadPW]> envAdds else envAdds in
  <[prefix ++ "EXCHANGE_URL" := exchangeURL]> envAdds.

(** [SetSystemEnvvars]; [GOARCH] is [runtime.GOARCH]. *)
Definition SetSystemEnvvars (GOARCH : string) (envAdds : gmap string string)
    (prefix lat lon cpus ram arch : string) : gmap string string :=
  let envAdds := <[prefix ++ "LAT" := lat]> envAdds in
  let envAdds := <[prefix ++ "LON" := lon]> envAdds in
  let envAdds := <[prefix ++ "CPUS" := cpus]> envAdds in
  let envAdds := <[prefix ++ "RAM" := ram]> envAdds in
  if String.eqb arch "" then <[prefix ++ "ARCH" := GOARCH]> envAdds
  else <[prefix ++ "ARCH" := arch]> envAdds.

(** [strings.Cut(s, sep)] for a separator that is not empty: the text
    before and after the first [sep] in [s]. *)
Fixpoint strings_Cut (sep s : string) : option (string * string) :=
  if String.prefix sep s
  then Some (EmptyString, substring (String.length sep) (String.length s) s)
  else
    match s with
    | EmptyString => None
    | String c rest =>
        match strings_Cut sep rest with
        | Some (before, after) => Some (String c before, after)
        | None => None
        end
    end.

(** [strings.Split(s, sep)[1]] when [s] contains [sep]: the text between
    the first [sep] and the next one (or the end). *)
Definition second_field (sep s : string) : outcome string :=
  match strings_Cut sep s with
  | None => Panics   (* the slice has one element: index out of range *)
  | Some (_, after) =>
      match strings_Cut sep after with
      | Some (field, _) => Returns field
      | None => Returns after
      end
  end.

(** [strings.Replace(s, "/", "-", -1)]. *)
Fixpoint slashes_to_dashes (s : string) : string :=
  match s with
  | EmptyString => EmptyString
  | String c rest =>
      String (if Ascii.eqb c "/" then "-"%char else c) (slashes_to_dashes rest)
  end.

(** [MakeMSInstanceKey(specRef, v, id)]. *)
Definition MakeMSInstanceKey (specRef v id : string) : outcome string :=
  let s :=
    if strings_Contains specRef "://" then second_field "://" specRef
    else Returns specRef in
  match s with
  | Panics => Panics
  | Returns s =>
      let new_s := slashes_to_dashes s in
      Returns (new_s ++ "_" ++ v ++ "_" ++ id)
  end.

(** [CopyMap(m1, m2)]: [m2] afterwards.  [entries] lists [m1] in the order
    the loop visits it. *)
Definition CopyMap {V} (entries : list (string * V)) (m2 : gmap string V) :
    gmap string V :=
  fold_left (fun m kv => <[kv.1 := kv.2]> m) entries m2.

(** [TruncateDisplayString(s, n)]; [s[:n]] panics for a negative [n]. *)
Definition TruncateDisplayString (s : string) (n : Z) : outcome string :=
  if Z.of_nat (String.length s) <=? n then Returns s
  else if n <? 0 then Panics
  else Returns (substring 0 (Z.to_nat n) s ++ "...").

(** The string elements of a list, in order. *)
Fixpoint strings_of `{Float64} (l : list value) : list string :=
  match l with
  | [] => []
  | VString s :: rest => s :: strings_of rest
  | _ :: rest => strings_of rest
  end.

(** The keys [SetPlatformEnvvars] and [SetSystemEnvvars] write. *)
Definition platform_keys (prefix : string) : list string :=
  [prefix ++ "AGREEMENTID"; prefix ++ "DEVICE_ID"; prefix ++ "ORGANIZATION";
   prefix ++ "HASH"; prefix ++ "EXCHANGE_URL"].

Definition system_keys (prefix : string) : list string :=
  [prefix ++ "LAT"; prefix ++ "LON"; prefix ++ "CPUS"; prefix ++ "RAM";
   prefix ++ "ARCH"].

(** No [/] in a string, no [:] in a string. *)
Definition no_slash (s : string) : bool :=
  string_forallb (fun c => negb (Ascii.eqb c "/")) s.

Definition no_colon (s : string) : bool :=
  string_forallb (fun c => negb (Ascii.eqb c ":")) s.

End cutil.

(* --------------------------------------------------------------------- *)
(** ** The citizen scientist consumer protocol handler                     *)
(* --------------------------------------------------------------------- *)

Module cs.

(** *** Termination codes *)

(** Modelled from the spec: the constants [AB_CANCEL_...] of package
    [citizenscientist] are not among the source files; their values are the
    rows of the specification's reason-code table. *)
Definition AB_CANCEL_POLICY_CHANGED : Z := 200.
Definition AB_CANCEL_NOT_FINALIZED_TIMEOUT : Z := 201.
Definition AB_CANCEL_NO_DATA_RECEIVED : Z := 202.
Definition AB_CANCEL_NO_REPLY : Z := 203.
Definition AB_USER_REQUESTED : Z := 204.
Definition AB_CANCEL_NEGATIVE_REPLY : Z := 205.
Definition AB_CANCEL_DISCOVERED : Z := 206.
Definition AB_CANCEL_FORCED_UPGRADE : Z := 207.
Definition AB_CANCEL_BC_WRITE_FAILED : Z := 208.
Definition AB_CANCEL_NODE_HEARTBEAT : Z := 209.
Definition AB_CANCEL_AG_MISSING : Z := 210.

(** The string constants [TERM_REASON_...] of package [agreementbot] are
    declared in a file that is not among the sources, so their values are
    parameters.  They are the case labels of one [switch]; Go's compiler
    refuses a switch with two equal constant labels, which is what
    [term_reasons_distinct] below records. *)
Class TermReasons : Type := {
  TERM_REASON_POLICY_CHANGED : string;
  TERM_REASON_NOT_FINALIZED_TIMEOUT : string;
  TERM_REASON_NO_DATA_RECEIVED : string;
  TERM_REASON_NO_REPLY : string;
  TERM_REASON_USER_REQUESTED : string;
  TERM_REASON_NEGATIVE_REPLY : string;
  TERM_REASON_CANCEL_DISCOVERED : string;
  TERM_REASON_CANCEL_FORCED_UPGRADE : string;
  TERM_REASON_CANCEL_BC_WRITE_FAILED : string;
  TERM_REASON_NODE_HEARTBEAT : string;
  TERM_REASON_AG_MISSING : string
}.

(** The closed set of symbolic reasons, each with its row of the table. *)
Definition reason_table `{TermReasons} : list (string * Z) :=
  [ (TERM_REASON_POLICY_CHANGED, 200);
    (TERM_REASON_NOT_FINALIZED_TIMEOUT, 201);
    (TERM_REASON_NO_DATA_RECEIVED, 202);
    (TERM_REASON_NO_REPLY, 203);
    (TERM_REASON_USER_REQUESTED, 204);
    (TERM_REASON_NEGATIVE_REPLY, 205);
    (TERM_REASON_CANCEL_DISCOVERED, 206);
    (TERM_REASON_CANCEL_FORCED_UPGRADE, 207);
    (TERM_REASON_CANCEL_BC_WRITE_FAILED, 208);
    (TERM_REASON_NODE_HEARTBEAT, 209);
    (TERM_REASON_AG_MISSING, 210) ].

Definition term_reasons `{TermReasons} : list string := map fst reason_table.

Definition term_reasons_distinct `{TermReasons} : Prop := NoDup term_reasons.

(** [CSProtocolHandler.GetTerminationCode]: a [switch] tries its cases from
    top to bottom. *)
Definition GetTerminationCode `{TermReasons} (reason : string) : Z :=
  if String.eqb reason TERM_REASON_POLICY_CHANGED then AB_CANCEL_POLICY_CHANGED
  else if String.eqb reason TERM_REASON_NOT_FINALIZED_TIMEOUT then AB_CANCEL_NOT_FINALIZED_TIMEOUT
  else if String.eqb reason TERM_REASON_NO_DATA_RECEIVED then AB_CANCEL_NO_DATA_RECEIVED
  else if String.eqb reason TERM_REASON_NO_REPLY then AB_CANCEL_NO_REPLY
  else if String.eqb reason TERM_REASON_USER_REQUESTED then AB_USER_REQUESTED
  else if String.eqb reason TERM_REASON_NEGATIVE_REPLY then AB_CANCEL_NEGATIVE_REPLY
  else if String.eqb reason TERM_REASON_CANCEL_DISCOVERED then AB_CANCEL_DISCOVERED
  else if String.eqb reason TERM_REASON_CANCEL_FORCED_UPGRADE then AB_CANCEL_FORCED_UPGRADE
  else if String.eqb reason TERM_REASON_CANCEL_BC_WRITE_FAILED then AB_CANCEL_BC_WRITE_FAILED
  else if String.eqb reason TERM_REASON_NODE_HEARTBEAT then AB_CANCEL_NODE_HEARTBEAT
  else if String.eqb reason TERM_REASON_AG_MISSING then AB_CANCEL_AG_MISSING
  else 999.

(** Modelled from the spec: [citizenscientist.DecodeReasonCode] is not among
    the source files.  The specification asks that a numeric code "round-trip
    to its symbolic form (or "unknown")": a code of the table decodes to the
    symbolic reason of its row, any other code to ["unknown"]. *)
Definition DecodeReasonCode `{TermReasons} (code : Z) : string :=
  if code =? AB_CANCEL_POLICY_CHANGED then TERM_REASON_POLICY_CHANGED
  else if code =? AB_CANCEL_NOT_FINALIZED_TIMEOUT then TERM_REASON_NOT_FINALIZED_TIMEOUT
  else if code =? AB_CANCEL_NO_DATA_RECEIVED then TERM_REASON_NO_DATA_RECEIVED
  else if code =? AB_CANCEL_NO_REPLY then TERM_REASON_NO_REPLY
  else if code =? AB_USER_REQUESTED then TERM_REASON_USER_REQUESTED
  else if code =? AB_CANCEL_NEGATIVE_REPLY then TERM_REASON_NEGATIVE_REPLY
  else if code =? AB_CANCEL_DISCOVERED then TERM_REASON_CANCEL_DISCOVERED
  else if code =? AB_CANCEL_FORCED_UPGRADE then TERM_REASON_CANCEL_FORCED_UPGRADE
  else if code =? AB_CANCEL_BC_WRITE_FAILED then TERM_REASON_CANCEL_BC_WRITE_FAILED
  else if code =? AB_CANCEL_NODE_HEARTBEAT then TERM_REASON_NODE_HEARTBEAT
  else if code =? AB_CANCEL_AG_MISSING then TERM_REASON_AG_MISSING
  else "unknown".

(** [uint64(code)] for a [uint]. *)
Definition uint64_of_uint (code : Z) : Z := code mod 2 ^ 64.

(** [CSProtocolHandler.GetTerminationReason]. *)
Definition GetTerminationReason `{TermReasons} (code : Z) : string :=
  DecodeReasonCode (uint64_of_uint code).

(** *** The ledger client registry *)

(** A [*citizenscientist.ProtocolHandler]: the identity of a handler
    object. *)
Definition ProtocolHandlerRef : Type := nat.

Record BlockchainState : Type := {
  ready : bool;
  writable : bool;
  service : string;
  servicePort : string;
  colonusDir : string;
  agreementPH : ProtocolHandlerRef
}.

(** The fields of [Agreement] (declared outside of these files) that the
    handler reads. *)
Record Agreement : Type := {
  CurrentAgreementId : string;
  AgreementProtocolVersion : Z;
  BlockchainType : string;
  BlockchainName : string;
  BlockchainOrg : string
}.

(** The two kinds of deferred work that [PostReply] creates. *)
Inductive WorkType : Type := ASYNC_UPDATE | ASYNC_WRITE.

Inductive AgreementWork : Type :=
| AsyncUpdateAgreement (workType : WorkType) (AgreementId Protocol : string)
| AsyncWriteAgreement (workType : WorkType) (AgreementId Protocol : string).

Inductive EventId : Type := NEW_BC_CLIENT.

(** Modelled from the spec: [events.NewNewBCContainerMessage] is not among
    the source files; the message is
    [NewBCContainer{type, name, org, exchange_url, bot_id, token}]. *)
Record NewBCContainerMessage : Type := {
  msg_event : EventId;
  msg_type : string;
  msg_name : string;
  msg_org : string;
  msg_exchange_url : string;
  msg_bot_id : string;
  msg_token : string
}.

Definition NewNewBCContainerMessage (id : EventId)
    (typeName name org exchangeURL exchangeId exchangeToken : string) :
    NewBCContainerMessage :=
  {| msg_event := id; msg_type := typeName; msg_name := name; msg_org := org;
     msg_exchange_url := exchangeURL; msg_bot_id := exchangeId;
     msg_token := exchangeToken |}.

(** The handler: the fields of [CSProtocolHandler] and of the embedded
    [BaseConsumerProtocolHandler] that the functions below touch.
    [bcState] is keyed by org, then type, then name.  [messages] is what has
    been sent on the channel [c.messages], oldest first. *)
Record CSProtocolHandler : Type := {
  name : string;
  agbotId : string;
  token : string;
  ExchangeURL : string;
  genericAgreementPH : ProtocolHandlerRef;
  bcState : gmap string (gmap string (gmap string BlockchainState));
  deferredCommands : list AgreementWork;
  messages : list NewBCContainerMessage
}.

Definition with_bcState (c : CSProtocolHandler)
    (b : gmap string (gmap string (gmap string BlockchainState))) :
    CSProtocolHandler :=
  {| name := name c; agbotId := agbotId c; token := token c;
     ExchangeURL := ExchangeURL c; genericAgreementPH := genericAgreementPH c;
     bcState := b; deferredCommands := deferredCommands c;
     messages := messages c |}.

(** Modelled from the spec: [BaseConsumerProtocolHandler.DeferCommand] is not
    among the source files; the deferred queue keeps insertion order. *)
Definition DeferCommand (cmd : AgreementWork) (c : CSProtocolHandler) :
    CSProtocolHandler :=
  {| name := name c; agbotId := agbotId c; token := token c;
     ExchangeURL := ExchangeURL c; genericAgreementPH := genericAgreementPH c;
     bcState := bcState c; deferredCommands := deferredCommands c ++ [cmd];
     messages := messages c |}.

(** [c.messages <- m]. *)
Definition send_message (m : NewBCContainerMessage) (c : CSProtocolHandler) :
    CSProtocolHandler :=
  {| name := name c; agbotId := agbotId c; token := token c;
     ExchangeURL := ExchangeURL c; genericAgreementPH := genericAgreementPH c;
     bcState := bcState c; deferredCommands := deferredCommands c;
     messages := messages c ++ [m] |}.

(** [getBCNameMap]: the map of the named clients of [(org, typeName)]; a
    missing level is created, empty, on the way. *)
Definition getBCNameMap (org typeName : string) (c : CSProtocolHandler) :
    gmap string BlockchainState * CSProtocolHandler :=
  let '(orgMap, c) :=
    match bcState c !! org with
    | Some orgMap => (orgMap, c)
    | None => (∅, with_bcState c (<[org := ∅]> (bcState c)))
    end in
  match orgMap !! typeName with
  | Some nameMap => (nameMap, c)
  | None => (∅, with_bcState c (<[org := <[typeName := ∅]> orgMap]> (bcState c)))
  end.

(** [AgreementProtocolHandler]; [None] is the [nil] interface value. *)
Definition AgreementProtocolHandler (typeName name org : string)
    (c : CSProtocolHandler) : option ProtocolHandlerRef * CSProtocolHandler :=
  if String.eqb typeName "" && String.eqb name "" && String.eqb org ""
  then (Some (genericAgreementPH c), c)
  else
    let '(nameMap, c) := getBCNameMap org typeName c in
    match nameMap !! name with
    | Some namedBC =>
        if ready namedBC then (Some (agreementPH namedBC), c) else (None, c)
    | None => (None, c)
    end.

(** [IsBlockchainWritable]. *)
Definition IsBlockchainWritable (typeName name org : string)
    (c : CSProtocolHandler) : bool * CSProtocolHandler :=
  let '(nameMap, c) := getBCNameMap org typeName c in
  match nameMap !! name with
  | Some namedBC =>
      if ready namedBC && writable namedBC then (true, c) else (false, c)
  | None => (false, c)
  end.

(** [IsBlockchainReady]. *)
Definition IsBlockchainReady (typeName name org : string)
    (c : CSProtocolHandler) : bool * CSProtocolHandler :=
  let '(nameMap, c) := getBCNameMap org typeName c in
  match nameMap !! name with
  | Some namedBC => if ready namedBC then (true, c) else (false, c)
  | None => (false, c)
  end.

(** [GetKnownBlockchain]. *)
Definition GetKnownBlockchain (ag : Agreement) : string * string * string :=
  (BlockchainType ag, BlockchainName ag, BlockchainOrg ag).

(** [CanCancelNow]; [None] is the [nil] agreement. *)
Definition CanCancelNow (ag : option Agreement) (c : CSProtocolHandler) :
    bool * CSProtocolHandler :=
  match ag with
  | None => (true, c)
  | Some ag =>
      let '(bcType, bcName, bcOrg) := GetKnownBlockchain ag in
      let '(nameMap, c) := getBCNameMap bcOrg bcType c in
      match nameMap !! bcName with
      | None => (false, c)
      | Some namedBC => if negb (ready namedBC) then (false, c) else (true, c)
      end
  end.

(** [getColonusDir]. *)
Definition getColonusDir (ag : option Agreement) (c : CSProtocolHandler) :
    string * CSProtocolHandler :=
  match ag with
  | None => ("", c)
  | Some ag =>
      let '(bcType, bcName, bcOrg) := GetKnownBlockchain ag in
      let '(nameMap, c) := getBCNameMap bcOrg bcType c in
      match nameMap !! bcName with
      | None => ("", c)
      | Some namedBC =>
          if negb (ready namedBC) then ("", c) else (colonusDir namedBC, c)
      end
  end.

(** The registry entry of a triple, when there is one. *)
Definition registry_entry (typeName name org : string) (c : CSProtocolHandler) :
    option BlockchainState :=
  match bcState c !! org with
  | None => None
  | Some orgMap =>
      match orgMap !! typeName with
      | None => None
      | Some nameMap => nameMap !! name
      end
  end.

(** A triple has no usable client: the registry has no entry for it, or the
    entry is not ready. *)
Definition missing_or_not_ready (typeName name org : string)
    (c : CSProtocolHandler) : Prop :=
  registry_entry typeName name org c = None \/
  exists namedBC, registry_entry typeName name org c = Some namedBC /\
                  ready namedBC = false.

(** *** PostReply *)

(** The collaborators of [PostReply] that live outside of these files: the
    agreement database and the protocol handlers' [RecordAgreement]. *)
Class Collaborators : Type := {
  Proposal : Type;
  ProposalReply : Type;
  ConsumerPolicy : Type;
  (* [FindSingleAgreementByAgreementId(c.db, agreementId, c.Name(), ...)]:
     [Ok None] is "no such agreement" *)
  FindSingleAgreementByAgreementId : string -> string -> result (option Agreement);
  (* [aph.RecordAgreement(proposal, reply, "", "", consumerPolicy, org)] *)
  RecordAgreement :
    ProtocolHandlerRef -> Proposal -> ProposalReply -> string -> string ->
    ConsumerPolicy -> string -> option error
}.

(** What [PostReply] does to the outside: calls of [RecordAgreement] and
    lines logged with [glog.Errorf]. *)
Inductive Effect `{Collaborators} : Type :=
| Recorded (aph : ProtocolHandlerRef) (proposal : Proposal)
    (reply : ProposalReply) (consumerPolicy : ConsumerPolicy) (org : string)
| LoggedError (text : string).

(** [PostReply]: the returned error, the handler afterwards and the effects
    in the order they happened. *)
Definition PostReply `{Collaborators} (agreementId : string)
    (proposal : Proposal) (reply : ProposalReply)
    (consumerPolicy : ConsumerPolicy) (org workerId : string)
    (c : CSProtocolHandler) : option error * CSProtocolHandler * list Effect :=
  match FindSingleAgreementByAgreementId agreementId (name c) with
  | Err err => (None, c, [LoggedError "error querying agreement"])
  | Ok None => (None, c, [LoggedError "cannot find agreement from db."])
  | Ok (Some agreement) =>
      if AgreementProtocolVersion agreement <? 2 then
        let '(aph, c) :=
          AgreementProtocolHandler (BlockchainType agreement)
            (BlockchainName agreement) (BlockchainOrg agreement) c in
        match aph with
        | None => (None, c, [LoggedError "agreement protocol handler not ready"])
        | Some aph =>
            match RecordAgreement aph proposal reply "" "" consumerPolicy org with
            | Some err => (Some err, c, [Recorded aph proposal reply consumerPolicy org])
            | None => (None, c, [Recorded aph proposal reply consumerPolicy org])
            end
        end
      else if AgreementProtocolVersion agreement =? 2 then
        let '(w, c) :=
          IsBlockchainWritable (BlockchainType agreement)
            (BlockchainName agreement) (BlockchainOrg agreement) c in
        if w then
          let c := DeferCommand
                     (AsyncUpdateAgreement ASYNC_UPDATE
                        (CurrentAgreementId agreement) (name c)) c in
          let c := DeferCommand
                     (AsyncWriteAgreement ASYNC_WRITE
                        (CurrentAgreementId agreement) (name c)) c in
          (None, c, [])
        else
          (None,
           send_message
             (NewNewBCContainerMessage NEW_BC_CLIENT (BlockchainType agreement)
                (BlockchainName agreement) (BlockchainOrg agreement)
                (ExchangeURL c) (agbotId c) (token c)) c,
           [])
      else (None, c, [])
  end.


(** *** Ledger client events *)

(** [NewCSProtocolHandler]: [None] is the [nil] handler.  [PROTOCOL_NAME]
    is [citizenscientist.PROTOCOL_NAME]; the exchange id, token and URL come
    from the configuration, [generic] is the handler that
    [citizenscientist.NewProtocolHandler] makes. *)
Definition NewCSProtocolHandler (PROTOCOL_NAME : string)
    (name exchangeId exchangeToken exchangeURL : string)
    (generic : ProtocolHandlerRef) : option CSProtocolHandler :=
  if String.eqb name PROTOCOL_NAME
  then Some {| name := name; agbotId := exchangeId; token := exchangeToken;
               ExchangeURL := exchangeURL; genericAgreementPH := generic;
               bcState := ∅; deferredCommands := []; messages := [] |}
  else None.

(** A write through the map that [getBCNameMap] handed out.  A Go map is a
    reference: [nameMap[k] = v] and [delete(nameMap, k)] change the map that
    [c.bcState[org][typeName]] holds. *)
Definition set_nameMap (org typeName : string)
    (nameMap : gmap string BlockchainState) (c : CSProtocolHandler) :
    CSProtocolHandler :=
  with_bcState c
    (<[org := <[typeName := nameMap]> (default ∅ (bcState c !! org))]>
       (bcState c)).

(** What the handler reads off an [events.BlockchainClientStoppingMessage]:
    [BlockchainOrg()], [BlockchainType()], [BlockchainInstance()]. *)
Record BlockchainClientStoppingMessage : Type := {
  stopping_org : string;
  stopping_type : string;
  stopping_instance : string
}.

(** What the handler reads off an [events.AccountFundedMessage]:
    [BlockchainOrg()], [BlockchainType()], [BlockchainInstance()],
    [ServiceName()], [ServicePort()], [ColonusDir()]. *)
Record AccountFundedMessage : Type := {
  funded_org : string;
  funded_type : string;
  funded_instance : string;
  ServiceName : string;
  ServicePort : string;
  ColonusDir : string
}.

(** [SetBlockchainClientAvailable]: the body is empty. *)
Definition SetBlockchainClientAvailable (c : CSProtocolHandler) :
    CSProtocolHandler := c.

(** [SetBlockchainClientNotAvailable]. *)
Definition SetBlockchainClientNotAvailable
    (ev : BlockchainClientStoppingMessage) (c : CSProtocolHandler) :
    CSProtocolHandler :=
  let '(nameMap, c) := getBCNameMap (stopping_org ev) (stopping_type ev) c in
  set_nameMap (stopping_org ev) (stopping_type ev)
    (delete (stopping_instance ev) nameMap) c.

(** Lines that the event handlers log with [glog.Errorf]. *)
Inductive HandlerLog : Type :=
| InitBlockchainFailed (err : error)
| FindAgreementsFailed (err : error).

(** [updateProducers].  [found] is what [FindAgreements] returns for the
    filters [notYetUpFilter] and [UnarchivedAFilter]. *)
Definition updateProducers (found : result (list Agreement))
    (c : CSProtocolHandler) : CSProtocolHandler * list HandlerLog :=
  match found with
  | Err err => (c, [FindAgreementsFailed err])
  | Ok agreements =>
      (fold_left
         (fun c ag =>
            let c := DeferCommand
                       (AsyncUpdateAgreement ASYNC_UPDATE
                          (CurrentAgreementId ag) (name c)) c in
            DeferCommand
              (AsyncWriteAgreement ASYNC_WRITE
                 (CurrentAgreementId ag) (name c)) c)
         agreements c,
       [])
  end.

(** [SetBlockchainWritable].  [newPH] is the handler that
    [citizenscientist.NewProtocolHandler] makes, [initErr] what its
    [InitBlockchain(ev)] returns, [found] as in [updateProducers]. *)
Definition SetBlockchainWritable (ev : AccountFundedMessage)
    (newPH : ProtocolHandlerRef) (initErr : option error)
    (found : result (list Agreement)) (c : CSProtocolHandler) :
    CSProtocolHandler * list HandlerLog :=
  let '(nameMap, c) := getBCNameMap (funded_org ev) (funded_type ev) c in
  let nameMap :=
    match nameMap !! funded_instance ev with
    | None =>
        <[funded_instance ev :=
            {| ready := true; writable := true; service := ServiceName ev;
               servicePort := ServicePort ev; colonusDir := ColonusDir ev;
               agreementPH := newPH |}]> nameMap
    | Some _ =>
        (* all six fields of the entry are assigned, one by one *)
        <[funded_instance ev :=
            {| ready := true; writable := true; service := ServiceName ev;
               servicePort := ServicePort ev; colonusDir := ColonusDir ev;
               agreementPH := newPH |}]> nameMap
    end in
  let c := set_nameMap (funded_org ev) (funded_type ev) nameMap c in
  let log1 :=
    match initErr with
    | Some err => [InitBlockchainFailed err]
    | None => []
    end in
  let '(c, log2) := updateProducers found c in
  (c, (log1 ++ log2)%list).

(** The commands that [AcceptCommand] tells apart; a
    [BlockchainEventCommand] carries [Msg.Name()] and [Msg.Org()]. *)
Inductive Command : Type :=
| NewProtocolMessageCommand
| AgreementTimeoutCommand
| BlockchainEventCommand (msgName msgOrg : string)
| PolicyChangedCommand
| PolicyDeletedCommand
| WorkloadUpgradeCommand
| MakeAgreementCommand
| OtherCommand.

(** [AcceptCommand]; [Ethereum_bc] is [policy.Ethereum_bc]. *)
Definition AcceptCommand (Ethereum_bc : string) (cmd : Command)
    (c : CSProtocolHandler) : bool * CSProtocolHandler :=
  match cmd with
  | NewProtocolMessageCommand => (true, c)
  | AgreementTimeoutCommand => (true, c)
  | BlockchainEventCommand msgName msgOrg =>
      let '(r, c) := IsBlockchainReady Ethereum_bc msgName msgOrg c in
      if r then (true, c) else (false, c)
  | PolicyChangedCommand => (true, c)
  | PolicyDeletedCommand => (true, c)
  | WorkloadUpgradeCommand => (true, c)
  | MakeAgreementCommand => (true, c)
  | OtherCommand => (false, c)
  end.

(** Every client in the registry is ready and writable. *)
Definition all_writable (c : CSProtocolHandler) : Prop :=
  forall typeName name org namedBC,
    registry_entry typeName name org c = Some namedBC ->
    ready namedBC = true /\ writable namedBC = true.

(** The entry that [SetBlockchainWritable] leaves for an event. *)
Definition funded_entry (ev : AccountFundedMessage)
    (newPH : ProtocolHandlerRef) : BlockchainState :=
  {| ready := true; writable := true; service := ServiceName ev;
     servicePort := ServicePort ev; colonusDir := ColonusDir ev;
     agreementPH := newPH |}.

(** The two commands deferred for an agreement. *)
Definition deferred_for (protocol : string) (ag : Agreement) :
    list AgreementWork :=
  [AsyncUpdateAgreement ASYNC_UPDATE (CurrentAgreementId ag) protocol;
   AsyncWriteAgreement ASYNC_WRITE (CurrentAgreementId ag) protocol].

End cs.

(* --------------------------------------------------------------------- *)
(** ** The pattern manager                                                 *)
(* --------------------------------------------------------------------- *)

(** The part of package [exchange] that the pattern manager reads. *)
Module exchange.

(** [exchange.ServedPattern]: the two fields that are read. *)
Record ServedPattern : Type := {
  Org : string;
  Pattern : string
}.

End exchange.

Module pm.

(** The collaborators of the pattern manager that live outside of these
    files.  [World] is everything they act on: the policy directory and the
    clock. *)
Class PolicyEnv : Type := {
  ExPattern : Type;                      (* exchange.Pattern *)
  Policy : Type;                         (* policy.Policy *)
  World : Type;
  json_Marshal : ExPattern -> result (list byte);
  sha3_Sum256 : list byte -> list byte;
  exchange_GetId : string -> string;
  exchange_ConvertToPolicies : string -> ExPattern -> result (list Policy);
  Header_Name : Policy -> string;        (* pol.Header.Name *)
  policy_CreatePolicyFile :
    string -> string -> string -> Policy -> World -> result string * World;
  policy_DeletePolicyFile : string -> World -> option error * World;
  policy_DeletePolicyFilesForOrg :
    string -> string -> bool -> World -> option error * World;
  policy_DeletePolicyFilesForPattern :
    string -> string -> string -> World -> option error * World;
  time_Now_Unix : World -> Z * World
}.

(** The address of a variable of type [exchange.Pattern]. *)
Definition loc : Type := nat.

(** [PatternEntry].  [Pattern] is a pointer. *)
Record PatternEntry : Type := {
  Pattern : loc;
  Updated : Z;
  Hash : list byte;
  PolicyFileNames : list string
}.

(** A [*PatternEntry] that is not [nil] is identified with the slot
    [(org, pattern)] of [PatternManager.OrgPatterns] that holds it:
    [SetCurrentPatterns] moves every pointer to the same slot of the new map
    and nothing else copies one, so no entry is ever reachable from two
    slots. *)
Definition EntryRef : Type := string * string.

Section Definitions.
Context `{PolicyEnv}.

(** Calls into package [policy] and error lines of [glog.Errorf], in the
    order they happen. *)
Inductive Event : Type :=
| CreatePolicyFile (policyPath org name : string) (pol : Policy)
| DeletePolicyFile (fileName : string)
| DeletePolicyFilesForOrg (policyPath org : string) (patternBased : bool)
| DeletePolicyFilesForPattern (policyPath org pattern : string)
| LogError (text : string) (err : error).

(** The state: the field [OrgPatterns] of the [PatternManager] (a [nil]
    entry is [None]), the variables of type [exchange.Pattern] that entries
    point to, the world of the collaborators, and the events so far. *)
Record State : Type := {
  OrgPatterns : gmap string (gmap string (option PatternEntry));
  heap : list ExPattern;
  world : World;
  trace : list Event
}.

(** A Go function with receiver [pm] that returns an [error] (or a value and
    an [error]): the state changes it made stay when it fails. *)
Definition M (A : Type) : Type := State -> result A * State.

Definition ret {A} (a : A) : M A := fun s => (Ok a, s).
Definition fail {A} (e : error) : M A := fun s => (Err e, s).
Definition bind {A B} (m : M A) (k : A -> M B) : M B :=
  fun s =>
    match m s with
    | (Ok a, s') => k a s'
    | (Err e, s') => (Err e, s')
    end.
(** [if err != nil { return wrap(err) }]. *)
Definition wrap {A} (f : error -> error) (m : M A) : M A :=
  fun s =>
    match m s with
    | (Ok a, s') => (Ok a, s')
    | (Err e, s') => (Err (f e), s')
    end.

Definition get : M State := fun s => (Ok s, s).
Definition set_OrgPatterns
    (m : gmap string (gmap string (option PatternEntry))) : M unit :=
  fun s => (Ok tt, {| OrgPatterns := m; heap := heap s; world := world s;
                      trace := trace s |}).
Definition set_heap (h : list ExPattern) : M unit :=
  fun s => (Ok tt, {| OrgPatterns := OrgPatterns s; heap := h; world := world s;
                      trace := trace s |}).
Definition emit (ev : Event) : M unit :=
  fun s => (Ok tt, {| OrgPatterns := OrgPatterns s; heap := heap s;
                      world := world s; trace := trace s ++ [ev] |}).
(** A call of a collaborator that acts on the world. *)
Definition call {A} (f : World -> A * World) : M A :=
  fun s =>
    let '(a, w) := f (world s) in
    (Ok a, {| OrgPatterns := OrgPatterns s; heap := heap s; world := w;
              trace := trace s |}).

End Definitions.

Notation "x <~ m ;; k" := (bind m (fun x => k))
  (at level 100, m at next level, right associativity).
Notation "m ;;; k" := (bind m (fun _ => k))
  (at level 100, right associativity).

Section Operations.
Context `{PolicyEnv}.

(** A [for ... range] over a slice, left when the body returns an error. *)
Fixpoint for_each {A} (l : list A) (body : A -> M unit) : M unit :=
  match l with
  | [] => ret tt
  | x :: rest => body x ;;; for_each rest body
  end.

(** A [for k := range m] over a map of the state.  Go fixes no order:
    [visit] is the order in which this loop comes by the keys, and a key
    that is not (or no longer) in the map when its turn comes is not
    produced. *)
Fixpoint range_keys (visit : list string) (present : State -> string -> bool)
    (body : string -> M unit) : M unit :=
  match visit with
  | [] => ret tt
  | k :: rest =>
      (s <~ get ;;
       if present s k then body k else ret tt) ;;;
      range_keys rest present body
  end.

(** [uint64(t)] for an [int64]. *)
Definition uint64_of_int64 (t : Z) : Z := t mod 2 ^ 64.

(** [json.Marshal] followed by [sha3.Sum256]. *)
Definition hash_of (v : ExPattern) : result (list byte) :=
  match json_Marshal v with
  | Err err => Err (ErrMarshalPattern err)
  | Ok ps => Ok (sha3_Sum256 ps)
  end.

(** [hashPattern(p)]: it reads the variable [p] points to. *)
Definition hashPattern (p : loc) : M (list byte) :=
  s <~ get ;;
  match heap s !! p with
  | None => fail NilDereference
  | Some v =>
      match hash_of v with
      | Err e => fail e
      | Ok hash => ret hash
      end
  end.

(** [NewPatternEntry(p)]. *)
Definition NewPatternEntry (p : loc) : M PatternEntry :=
  now <~ call time_Now_Unix ;;
  hash <~ hashPattern p ;;
  ret {| Pattern := p; Updated := uint64_of_int64 now; Hash := hash;
         PolicyFileNames := [] |}.

(** [pm.OrgPatterns[org][pattern]]: a missing key reads as [nil]. *)
Definition entry_at (m : gmap string (gmap string (option PatternEntry)))
    (org pattern : string) : option PatternEntry :=
  match m !! org with
  | None => None
  | Some orgMap =>
      match orgMap !! pattern with
      | None => None
      | Some pe => pe
      end
  end.

(** [pm.OrgPatterns[org][pattern] = pe]. *)
Definition assign_entry (org pattern : string) (pe : option PatternEntry) :
    M unit :=
  s <~ get ;;
  match OrgPatterns s !! org with
  | None => fail NilDereference   (* assignment to an entry of a nil map *)
  | Some orgMap =>
      set_OrgPatterns (<[org := <[pattern := pe]> orgMap]> (OrgPatterns s))
  end.

(** Reading and writing through a [*PatternEntry]. *)
Definition load_entry (pe : EntryRef) : M PatternEntry :=
  s <~ get ;;
  match entry_at (OrgPatterns s) pe.1 pe.2 with
  | None => fail NilDereference
  | Some e => ret e
  end.

Definition store_entry (pe : EntryRef) (e : PatternEntry) : M unit :=
  assign_entry pe.1 pe.2 (Some e).

(** [pe.AddPolicyFileName(fileName)]. *)
Definition AddPolicyFileName (pe : EntryRef) (fileName : string) : M unit :=
  e <~ load_entry pe ;;
  store_entry pe
    {| Pattern := Pattern e; Updated := Updated e; Hash := Hash e;
       PolicyFileNames := PolicyFileNames e ++ [fileName] |}.

(** [pe.DeleteAllPolicyFiles(policyPath, org)]. *)
Definition DeleteAllPolicyFiles (pe : EntryRef) (policyPath org : string) :
    M unit :=
  e <~ load_entry pe ;;
  for_each (PolicyFileNames e) (fun fileName =>
    emit (DeletePolicyFile fileName) ;;;
    err <~ call (policy_DeletePolicyFile fileName) ;;
    match err with
    | Some err => fail err
    | None => ret tt
    end).

(** [pe.UpdateEntry(pattern, newHash)]. *)
Definition UpdateEntry (pe : EntryRef) (pattern : loc) (newHash : list byte) :
    M unit :=
  now <~ call time_Now_Unix ;;
  store_entry pe
    {| Pattern := pattern; Updated := uint64_of_int64 now; Hash := newHash;
       PolicyFileNames := [] |}.

(** [pm.hasOrg(org)] and [pm.hasPattern(org, pattern)]. *)
Definition hasOrg (s : State) (org : string) : bool :=
  match OrgPatterns s !! org with
  | Some _ => true
  | None => false
  end.

Definition hasPattern (s : State) (org pattern : string) : bool :=
  if hasOrg s org then
    match OrgPatterns s !! org with
    | Some orgMap =>
        match orgMap !! pattern with
        | Some _ => true
        | None => false
        end
    | None => false
    end
  else false.

(** [pm.deleteOrg(policyPath, org)]. *)
Definition deleteOrg (policyPath org : string) : M unit :=
  emit (DeletePolicyFilesForOrg policyPath org true) ;;;
  err <~ call (policy_DeletePolicyFilesForOrg policyPath org true) ;;
  match err with
  | Some err => emit (LogError "Error deleting policy files for org" err)
  | None => ret tt
  end ;;;
  s <~ get ;;
  (if hasOrg s org then set_OrgPatterns (delete org (OrgPatterns s))
   else ret tt) ;;;
  ret tt.

(** [pm.deletePattern(policyPath, org, pattern)]. *)
Definition deletePattern (policyPath org pattern : string) : M unit :=
  emit (DeletePolicyFilesForPattern policyPath org pattern) ;;;
  err <~ call (policy_DeletePolicyFilesForPattern policyPath org pattern) ;;
  match err with
  | Some err => emit (LogError "Error deleting policy files for pattern" err)
  | None => ret tt
  end ;;;
  s <~ get ;;
  (if hasOrg s org then
     match OrgPatterns s !! org with
     | Some orgMap =>
         match orgMap !! pattern with
         | Some _ =>
             set_OrgPatterns (<[org := delete pattern orgMap]> (OrgPatterns s))
         | None => ret tt
         end
     | None => ret tt
     end
   else ret tt) ;;;
  ret tt.

(** The body of the loop of [createPolicyFiles]. *)
Definition create_one (pe : EntryRef) (policyPath org : string) (pol : Policy) :
    M unit :=
  emit (CreatePolicyFile policyPath org (Header_Name pol) pol) ;;;
  r <~ call (policy_CreatePolicyFile policyPath org (Header_Name pol) pol) ;;
  match r with
  | Err err => fail (ErrCreatePolicyFile err)
  | Ok fileName => AddPolicyFileName pe fileName
  end.

(** [createPolicyFiles(pe, patternId, pattern, policyPath, org)]. *)
Definition createPolicyFiles (pe : EntryRef) (patternId : string)
    (pattern : loc) (policyPath org : string) : M unit :=
  s <~ get ;;
  match heap s !! pattern with
  | None => fail NilDereference
  | Some v =>
      match exchange_ConvertToPolicies patternId v with
      | Err err => fail (ErrConvertToPolicies err)
      | Ok policies => for_each policies (create_one pe policyPath org)
      end
  end.

(** The first loop of [SetCurrentPatterns]: one served pattern is entered
    into [newMap]. *)
Definition serve (s : State)
    (newMap : gmap string (gmap string (option PatternEntry)))
    (served : exchange.ServedPattern) :
    gmap string (gmap string (option PatternEntry)) :=
  let newMap :=
    match newMap !! exchange.Org served with
    | Some _ => newMap
    | None => <[exchange.Org served := ∅]> newMap
    end in
  let pe :=
    if hasPattern s (exchange.Org served) (exchange.Pattern served)
    then entry_at (OrgPatterns s) (exchange.Org served) (exchange.Pattern served)
    else None in
  match newMap !! exchange.Org served with
  | Some orgMap =>
      <[exchange.Org served := <[exchange.Pattern served := pe]> orgMap]> newMap
  | None => newMap
  end.

(** [pm.SetCurrentPatterns(servedPatterns, policyPath)].  [servedPatterns]
    lists the entries of the Go map in the order the first loop visits them;
    [visit_orgs] and [visit_patterns org] are the orders of the loops over
    [pm.OrgPatterns] and over [orgMap]. *)
Definition SetCurrentPatterns
    (servedPatterns : list (string * exchange.ServedPattern))
    (policyPath : string)
    (visit_orgs : list string) (visit_patterns : string -> list string) :
    M unit :=
  s0 <~ get ;;
  if (size (OrgPatterns s0) =? 0)%nat && (length servedPatterns =? 0)%nat
  then ret tt
  else
    let newMap := fold_left (fun m kv => serve s0 m kv.2) servedPatterns ∅ in
    range_keys visit_orgs hasOrg (fun org =>
      match newMap !! org with
      | None => deleteOrg policyPath org
      | Some newOrgMap =>
          range_keys (visit_patterns org) (fun s => hasPattern s org)
            (fun pattern =>
               match newOrgMap !! pattern with
               | None => deletePattern policyPath org pattern
               | Some _ => ret tt
               end)
      end) ;;;
    set_OrgPatterns newMap.

(** The inner loop of [UpdatePatternPolicies] that sets [found]. *)
Definition found (definedPatterns : list (string * ExPattern))
    (pattern : string) : bool :=
  existsb (fun kv => String.eqb (exchange_GetId kv.1) pattern) definedPatterns.

(** The loop variable [pattern] of the second loop of
    [UpdatePatternPolicies],
    [for patternId, pattern := range definedPatterns], is one variable for
    the whole loop, and [&pattern] is the same address in every iteration:
    that is the Go language up to version 1.21, in which this code is
    written (a variable per iteration exists only for a module that declares
    [go 1.22] or later).  Every call of [UpdatePatternPolicies] has a loop
    variable of its own, at the first free address [l].  [assign_var l v] is
    the assignment that starts an iteration; the first one brings the
    variable into being. *)
Definition assign_var (l : loc) (v : ExPattern) : M unit :=
  s <~ get ;;
  if (l <? length (heap s))%nat then set_heap (<[l := v]> (heap s))
  else set_heap (heap s ++ [v]).

(** The branch of the second loop of [UpdatePatternPolicies] for a pattern
    whose entry is [nil]: the entry is made and put into the map, then its
    policy files are created.  [l] is [&pattern]. *)
Definition materialize (org policyPath : string) (l : loc) (patternId : string) :
    M unit :=
  newPE <~ wrap ErrCreatePatternEntry (NewPatternEntry l) ;;
  assign_entry org (exchange_GetId patternId) (Some newPE) ;;;
  wrap ErrCreatePolicyFiles
    (createPolicyFiles (org, exchange_GetId patternId) patternId l
       policyPath org).

(** The branch for a pattern whose entry [pe] is there; [e] is [*pe] as the
    branch finds it. *)
Definition refresh (org policyPath : string) (l : loc) (patternId : string)
    (e : PatternEntry) : M unit :=
  let pe := (org, exchange_GetId patternId) in
  newHash <~ wrap (ErrHashPattern org) (hashPattern l) ;;
  if bytes_Equal (Hash e) newHash then ret tt
  else
    wrap (ErrDeletePolicyFiles org) (DeleteAllPolicyFiles pe policyPath org) ;;;
    UpdateEntry pe l newHash ;;;
    wrap ErrCreatePolicyFiles (createPolicyFiles pe patternId l policyPath org).

(** The body of the second loop of [UpdatePatternPolicies]; [l] is
    [&pattern]. *)
Definition update_pattern (org policyPath : string) (l : loc)
    (kv : string * ExPattern) : M unit :=
  let patternId := kv.1 in
  assign_var l kv.2 ;;;
  s <~ get ;;
  if hasPattern s org (exchange_GetId patternId) then
    match entry_at (OrgPatterns s) org (exchange_GetId patternId) with
    | None => materialize org policyPath l patternId
    | Some e => refresh org policyPath l patternId e
    end
  else ret tt.

(** The first loop of [UpdatePatternPolicies]: a pattern of the org that no
    defined pattern names is deleted.  [visit] is the order in which the
    loop comes by the keys of [pm.OrgPatterns[org]]. *)
Definition delete_undefined (org : string)
    (definedPatterns : list (string * ExPattern)) (policyPath : string)
    (visit : list string) : M unit :=
  range_keys visit (fun s => hasPattern s org) (fun pattern =>
    if negb (found definedPatterns pattern)
    then deletePattern policyPath org pattern
    else ret tt).

(** [pm.UpdatePatternPolicies(org, definedPatterns, policyPath)].
    [definedPatterns] lists the entries of the Go map in the order the second
    loop visits them ([nil] and the empty map are the empty list); [visit]
    is the order of the first loop. *)
Definition UpdatePatternPolicies (org : string)
    (definedPatterns : list (string * ExPattern)) (policyPath : string)
    (visit : list string) : M unit :=
  s0 <~ get ;;
  if negb (hasOrg s0 org) then fail (ErrOrgNotFound org)
  else if (length definedPatterns =? 0)%nat then deleteOrg policyPath org
  else
    delete_undefined org definedPatterns policyPath visit ;;;
    s1 <~ get ;;
    for_each definedPatterns (update_pattern org policyPath (length (heap s1))).

End Operations.

(** ** Vocabulary for the properties of the pattern manager *)

Section Vocabulary.
Context `{PolicyEnv}.

(** A property of the state that a computation keeps, whether it returns an
    error or not. *)
Definition preserves {A} (P : State -> Prop) (m : M A) : Prop :=
  forall s, P s -> P (m s).2.

(** A computation that returns no error. *)
Definition never_fails (m : M unit) : Prop :=
  forall s, (m s).1 = Ok tt.

(** What the log gets when a deletion reports [err]. *)
Definition logged (text : string) (err : option error) : list Event :=
  match err with
  | Some e => [LogError text e]
  | None => []
  end.

(** The map after [deletePattern]. *)
Definition without_pattern
    (m : gmap string (gmap string (option PatternEntry)))
    (org pattern : string) : gmap string (gmap string (option PatternEntry)) :=
  match m !! org with
  | Some orgMap => <[org := delete pattern orgMap]> m
  | None => m
  end.

(** The map after [pm.OrgPatterns[org][pattern] = pe]. *)
Definition set_slot (m : gmap string (gmap string (option PatternEntry)))
    (org pattern : string) (pe : option PatternEntry) :
    gmap string (gmap string (option PatternEntry)) :=
  match m !! org with
  | Some orgMap => <[org := <[pattern := pe]> orgMap]> m
  | None => m
  end.

(** [pattern] is a key of [m[org]]. *)
Definition has_key (m : gmap string (gmap string (option PatternEntry)))
    (org pattern : string) : bool :=
  match m !! org with
  | Some orgMap =>
      match orgMap !! pattern with
      | Some _ => true
      | None => false
      end
  | None => false
  end.

(** The memory after the assignment [assign_var l v]. *)
Definition store_var (l : loc) (v : ExPattern) (h : list ExPattern) :
    list ExPattern :=
  if (l <? length h)%nat then <[l := v]> h else (h ++ [v])%list.

(** A property of the state that looks at [OrgPatterns] and at the memory
    only. *)
Definition memory_only (P : State -> Prop) : Prop :=
  forall s w tr,
    P s -> P {| OrgPatterns := OrgPatterns s; heap := heap s; world := w;
                trace := tr |}.

(** Every pattern that [org] serves is among the defined ones. *)
Definition all_found (org : string) (definedPatterns : list (string * ExPattern))
    (s : State) : Prop :=
  forall pattern,
    hasPattern s org pattern = true -> found definedPatterns pattern = true.

(** An entry with other file names. *)
Definition with_files (e : PatternEntry) (names : list string) : PatternEntry :=
  {| Pattern := Pattern e; Updated := Updated e; Hash := Hash e;
     PolicyFileNames := names |}.

(** For every defined pattern that [org] serves, the entry is there and its
    stored hash is the hash of the defined pattern. *)
Definition hashes_current (org : string)
    (definedPatterns : list (string * ExPattern)) (s : State) : Prop :=
  forall patternId pattern,
    In (patternId, pattern) definedPatterns ->
    hasPattern s org (exchange_GetId patternId) = true ->
    exists e,
      entry_at (OrgPatterns s) org (exchange_GetId patternId) = Some e /\
      hash_of pattern = Ok (Hash e).

(** The entry's hash is the hash of the pattern its [Pattern] field points
    to. *)
Definition hash_matches_pattern (s : State) (e : PatternEntry) : Prop :=
  exists v, heap s !! Pattern e = Some v /\ hash_of v = Ok (Hash e).

End Vocabulary.


(** ** Vocabulary for the served set and for the events of a pass *)

Section ServedVocabulary.
Context `{PolicyEnv}.

(** [(org, pattern)] is one of the served patterns. *)
Definition is_served (servedPatterns : list (string * exchange.ServedPattern))
    (org pattern : string) : Prop :=
  exists key served,
    In (key, served) servedPatterns /\
    exchange.Org served = org /\ exchange.Pattern served = pattern.

(** An event that [SetCurrentPatterns] may add: the deletion of the files of
    an org none of whose patterns is served, the deletion of the files of a
    pattern that is not served, or a logged error. *)
Definition unserved_deletion
    (servedPatterns : list (string * exchange.ServedPattern))
    (policyPath : string) (ev : Event) : Prop :=
  match ev with
  | DeletePolicyFilesForOrg path org patternBased =>
      path = policyPath /\ patternBased = true /\
      forall pattern, ~ is_served servedPatterns org pattern
  | DeletePolicyFilesForPattern path org pattern =>
      path = policyPath /\ ~ is_served servedPatterns org pattern
  | LogError _ _ => True
  | CreatePolicyFile _ _ _ _ => False
  | DeletePolicyFile _ => False
  end.

(** The events of the creation of the policy files of [policies]. *)
Definition creations (policyPath org : string) (policies : list Policy) :
    list Event :=
  map (fun pol => CreatePolicyFile policyPath org (Header_Name pol) pol) policies.

(** The pattern names that the ids of the defined patterns give are
    pairwise different. *)
Definition distinct_names (definedPatterns : list (string * ExPattern)) : Prop :=
  NoDup (map (fun kv => exchange_GetId kv.1) definedPatterns).

(** What the policy directory does when files are deleted or created one
    after the other, told without the loops of the pattern manager.
    [all_deleted w files w']: deleting [files] in turn, starting in the world
    [w], succeeds for every file and leaves the world [w'].
    [all_created policyPath org w policies names w']: creating the files of
    [policies] in turn succeeds for every policy, the files get the names
    [names], in this order. *)
Inductive all_deleted : World -> list string -> World -> Prop :=
| all_deleted_nil w : all_deleted w [] w
| all_deleted_cons w fileName w1 files w' :
    policy_DeletePolicyFile fileName w = (None, w1) ->
    all_deleted w1 files w' ->
    all_deleted w (fileName :: files) w'.

Inductive all_created (policyPath org : string) :
    World -> list Policy -> list string -> World -> Prop :=
| all_created_nil w : all_created policyPath org w [] [] w
| all_created_cons w pol fileName w1 policies names w' :
    policy_CreatePolicyFile policyPath org (Header_Name pol) pol w =
      (Ok fileName, w1) ->
    all_created policyPath org w1 policies names w' ->
    all_created policyPath org w (pol :: policies) (fileName :: names) w'.

(** The deletion of [files] fails at the file [fileName] with [err], after
    the files [done] before it have been deleted; [w'] is the world after
    the failed deletion. *)
Definition deletion_fails (w : World) (files done : list string)
    (fileName : string) (err : error) (w' : World) : Prop :=
  exists rest w1,
    files = (done ++ fileName :: rest)%list /\
    all_deleted w done w1 /\
    policy_DeletePolicyFile fileName w1 = (Some err, w').

(** The creation of the policy files of the pattern [v] with the id
    [patternId] fails with [err]: either the pattern cannot be converted to
    policies, or the policies [tried] are gone through in order, the files
    of all but the last are created with the names [names], and the
    creation of the file of the last one fails.  [w'] is the world
    afterwards. *)
Inductive creation_fails (policyPath org patternId : string) (v : ExPattern)
    (w : World) : list Policy -> list string -> error -> World -> Prop :=
| conversion_fails err :
    exchange_ConvertToPolicies patternId v = Err err ->
    creation_fails policyPath org patternId v w [] [] (ErrConvertToPolicies err) w
| file_creation_fails policies done pol rest names w1 err w' :
    exchange_ConvertToPolicies patternId v = Ok policies ->
    policies = (done ++ pol :: rest)%list ->
    all_created policyPath org w done names w1 ->
    policy_CreatePolicyFile policyPath org (Header_Name pol) pol w1 =
      (Err err, w') ->
    creation_fails policyPath org patternId v w (done ++ [pol])%list names
      (ErrCreatePolicyFile err) w'.

(** A pass of [UpdatePatternPolicies] for a known org gets to the round of
    a defined pattern in the state [s2]: its first loop is done, and the
    rounds of the patterns [pre] that the second loop visited before have
    returned no error. *)
Definition before_round (org : string)
    (definedPatterns : list (string * ExPattern)) (policyPath : string)
    (visit : list string) (s : State) (pre : list (string * ExPattern))
    (s2 : State) : Prop :=
  hasOrg s org = true /\
  for_each pre (update_pattern org policyPath (length (heap s)))
    (delete_undefined org definedPatterns policyPath visit s).2 = (Ok tt, s2).

End ServedVocabulary.

End pm.

(* --------------------------------------------------------------------- *)
(** ** The exchange commands of the CLI: microservice definitions          *)
(* --------------------------------------------------------------------- *)

Module cliexchange.
Import cutil.

(** The field of [containermessage.Service] that the code reads. *)
Record Service : Type := { Image : string }.

(** [DeploymentConfig.Services], as the list of its entries in the order a
    [range] over the map visits them; a [nil] service is [None]. *)
Definition Services : Type := list (string * option Service).

(** [DeploymentConfig.HasAnyServices]. *)
Definition HasAnyServices (dc : Services) : bool :=
  if (length dc =? 0)%nat then false else true.

(** The loop of [CLIString]. *)
Fixpoint service_names (dc : Services) (servs : string) : string :=
  match dc with
  | [] => servs
  | (serviceName, _) :: rest => service_names rest (servs ++ serviceName ++ ", ")
  end.

(** [DeploymentConfig.CLIString]; [servs[:len(servs)-2]] panics when
    [servs] has fewer than two bytes. *)
Definition CLIString (dc : Services) : outcome string :=
  let servs := service_names dc "" in
  if (String.length servs <? 2)%nat then Panics
  else
    let servs := substring 0 (String.length servs - 2) servs in
    Returns ("service(s) " ++ servs).

(** The errors of [CanStartStop] and [RequiredVariablesAreSet]. *)
Inductive config_error : Type :=
| NoServiceName
    (* "no service name" *)
| NoDockerImage (serviceName : string)
    (* "no docker image for service %s" *)
| NotSet (name : string).
    (* "user input %v has no default value and is not set" *)

(** The loop of [CanStartStop]; [service.Image] of a [nil] service
    panics. *)
Fixpoint CanStartStop_loop (dc : Services) : outcome (option config_error) :=
  match dc with
  | [] => Returns None
  | (serviceName, service) :: rest =>
      if (String.length serviceName =? 0)%nat then Returns (Some NoServiceName)
      else
        match service with
        | None => Panics
        | Some service =>
            if (String.length (Image service) =? 0)%nat
            then Returns (Some (NoDockerImage serviceName))
            else CanStartStop_loop rest
        end
  end.

(** [DeploymentConfig.CanStartStop]; [None] is the [nil] error. *)
Definition CanStartStop (dc : Services) : outcome (option config_error) :=
  if (length dc =? 0)%nat then Returns None else CanStartStop_loop dc.

(** The fields of [exchange.UserInput] that the code reads. *)
Record UserInput : Type := {
  Name : string;
  InputType : string;     (* the field [Type] *)
  DefaultValue : string
}.

(** [MicroserviceFile.RequiredVariablesAreSet], given [mf.UserInputs]. *)
Fixpoint RequiredVariablesAreSet {V} (UserInputs : list UserInput)
    (setVars : gmap string V) : option config_error :=
  match UserInputs with
  | [] => None
  | ui :: rest =>
      if String.eqb (DefaultValue ui) "" && negb (String.eqb (Name ui) "") then
        match setVars !! Name ui with
        | None => Some (NotSet (Name ui))
        | Some _ => RequiredVariablesAreSet rest setVars
        end
      else RequiredVariablesAreSet rest setVars
  end.

(** [MicroserviceFile.DefinesVariable], given [mf.UserInputs]. *)
Fixpoint DefinesVariable (UserInputs : list UserInput) (name : string) : string :=
  match UserInputs with
  | [] => ""
  | ui :: rest =>
      if String.eqb (Name ui) name && negb (String.eqb (InputType ui) "")
      then InputType ui
      else DefinesVariable rest name
  end.

(** An entry of the services that [CanStartStop] lets pass. *)
Definition startable (entry : string * option Service) : Prop :=
  entry.1 <> "" /\ exists service, entry.2 = Some service /\ Image service <> "".

(** A user input that has to be set: no default value, and a name. *)
Definition required (ui : UserInput) : Prop :=
  DefaultValue ui = "" /\ Name ui <> "".

End cliexchange.

(* --------------------------------------------------------------------- *)
(** ** Concrete collaborators, for running the definitions                 *)
(* --------------------------------------------------------------------- *)

Module examples.

(** The reasons spelled as the symbolic names of the specification's
    table. *)
#[local] Instance table_reasons : cs.TermReasons := {|
  cs.TERM_REASON_POLICY_CHANGED := "AB_CANCEL_POLICY_CHANGED";
  cs.TERM_REASON_NOT_FINALIZED_TIMEOUT := "AB_CANCEL_NOT_FINALIZED_TIMEOUT";
  cs.TERM_REASON_NO_DATA_RECEIVED := "AB_CANCEL_NO_DATA_RECEIVED";
  cs.TERM_REASON_NO_REPLY := "AB_CANCEL_NO_REPLY";
  cs.TERM_REASON_USER_REQUESTED := "AB_USER_REQUESTED";
  cs.TERM_REASON_NEGATIVE_REPLY := "AB_CANCEL_NEGATIVE_REPLY";
  cs.TERM_REASON_CANCEL_DISCOVERED := "AB_CANCEL_DISCOVERED";
  cs.TERM_REASON_CANCEL_FORCED_UPGRADE := "AB_CANCEL_FORCED_UPGRADE";
  cs.TERM_REASON_CANCEL_BC_WRITE_FAILED := "AB_CANCEL_BC_WRITE_FAILED";
  cs.TERM_REASON_NODE_HEARTBEAT := "AB_CANCEL_NODE_HEARTBEAT";
  cs.TERM_REASON_AG_MISSING := "AB_CANCEL_AG_MISSING"
|}.

(** A random source that fills the whole buffer with [0xab]. *)
Definition all_ab : cutil.RandRead :=
  {| cutil.rand_byte := fun _ => xab; cutil.rand_n := 32%nat;
     cutil.rand_err := None |}.

(** An agreement of the given protocol version on the ledger
    [(eth, bc1, acme)]. *)
Definition agreement_A (version : Z) : cs.Agreement :=
  {| cs.CurrentAgreementId := "A"; cs.AgreementProtocolVersion := version;
     cs.BlockchainType := "eth"; cs.BlockchainName := "bc1";
     cs.BlockchainOrg := "acme" |}.

(** A database that holds [agreement_A version] and ledger clients whose
    [RecordAgreement] succeeds. *)
Definition db_with_A (version : Z) : cs.Collaborators :=
  {| cs.Proposal := unit; cs.ProposalReply := unit; cs.ConsumerPolicy := unit;
     cs.FindSingleAgreementByAgreementId :=
       fun agreementId _ =>
         if String.eqb agreementId "A" then Ok (Some (agreement_A version))
         else Ok None;
     cs.RecordAgreement := fun _ _ _ _ _ _ _ => None |}.

(** A handler with an empty registry, and one whose registry holds the
    client [(acme, eth, bc1)]. *)
Definition fresh_handler : cs.CSProtocolHandler :=
  {| cs.name := "Citizen Scientist"; cs.agbotId := "agbot1"; cs.token := "tok";
     cs.ExchangeURL := "https://exchange/v1/"; cs.genericAgreementPH := 0%nat;
     cs.bcState := ∅; cs.deferredCommands := []; cs.messages := [] |}.

Definition client_bc1 (is_ready is_writable : bool) : cs.BlockchainState :=
  {| cs.ready := is_ready; cs.writable := is_writable; cs.service := "bc1svc";
     cs.servicePort := "8545"; cs.colonusDir := "/var/bc1";
     cs.agreementPH := 1%nat |}.

Definition handler_with_bc1 (is_ready is_writable : bool) :
    cs.CSProtocolHandler :=
  cs.with_bcState fresh_handler
    {[ "acme" := {[ "eth" := {[ "bc1" := client_bc1 is_ready is_writable ]} ]} ]}.

(** The text after the first ['/'] of a pattern id ("org/pattern"). *)
Fixpoint after_slash (s : string) : string :=
  match s with
  | EmptyString => EmptyString
  | String c rest => if Ascii.eqb c "/" then rest else after_slash rest
  end.

(** Collaborators of the pattern manager for which everything can be
    computed: a pattern and a policy are strings, a pattern converts to one
    policy of its own name, the marshalled form of a pattern is its bytes
    and the digest function is the identity (a stand-in: the embedding never
    looks into a digest); the world is a clock.  [create_fails] and
    [delete_fails] make every creation, respectively every deletion, of a
    policy file fail. *)
Definition string_env (create_fails delete_fails : bool) : pm.PolicyEnv :=
  {| pm.ExPattern := string;
     pm.Policy := string;
     pm.World := nat;
     pm.json_Marshal := fun v => Ok (list_byte_of_string v);
     pm.sha3_Sum256 := fun b => b;
     pm.exchange_GetId := after_slash;
     pm.exchange_ConvertToPolicies := fun _ v => Ok [v];
     pm.Header_Name := fun pol => pol;
     pm.policy_CreatePolicyFile := fun policyPath org name _ w =>
       (if create_fails then Err (ExternalError "disk full")
        else Ok (policyPath ++ org ++ "_" ++ name), w);
     pm.policy_DeletePolicyFile := fun _ w =>
       (if delete_fails then Some (ExternalError "permission denied") else None, w);
     pm.policy_DeletePolicyFilesForOrg := fun _ _ _ w =>
       (if delete_fails then Some (ExternalError "permission denied") else None, w);
     pm.policy_DeletePolicyFilesForPattern := fun _ _ _ w =>
       (if delete_fails then Some (ExternalError "permission denied") else None, w);
     pm.time_Now_Unix := fun w => (Z.of_nat w, S w) |}.

(** The pattern manager that serves [served] in org ["o"] with no entry
    materialized yet, as [SetCurrentPatterns] leaves it. *)
Definition serving `{pm.PolicyEnv} (w : pm.World) (served : list string) :
    pm.State :=
  {| pm.OrgPatterns := {[ "o" := list_to_map (map (fun p => (p, None)) served) ]};
     pm.heap := []; pm.world := w; pm.trace := [] |}.

(** An entry made from the pattern ["OLD"], with one policy file, and the
    pattern manager that holds it for the pattern ["a"] of org ["o"]. *)
Definition old_entry : pm.PatternEntry :=
  {| pm.Pattern := 0%nat; pm.Updated := 7;
     pm.Hash := list_byte_of_string "OLD";
     pm.PolicyFileNames := ["/policy/o_OLD"] |}.

Definition serving_old (create_fails delete_fails : bool) :
    pm.State (H := string_env create_fails delete_fails) :=
  @pm.Build_State (string_env create_fails delete_fails)
    {[ "o" := {[ "a" := Some old_entry ]} ]} ["OLD"] 8%nat [].


(** Two floating point numbers: [false] is [0.0], [true] is [0.5]. *)
#[local] Instance two_floats : cutil.Float64 := {|
  cutil.float64 := bool;
  cutil.is_whole := negb;
  cutil.FormatInt_of := fun _ => "0";
  cutil.FormatFloat_f6 := fun f => if f then "0.500000" else "0.000000"
|}.

(** The event that makes the client [(acme, eth, bc1)] writable, and the
    event that stops it. *)
Definition funded_bc1 : cs.AccountFundedMessage :=
  {| cs.funded_org := "acme"; cs.funded_type := "eth";
     cs.funded_instance := "bc1"; cs.ServiceName := "bc1svc";
     cs.ServicePort := "8545"; cs.ColonusDir := "/var/bc1" |}.

Definition stopping_bc1 : cs.BlockchainClientStoppingMessage :=
  {| cs.stopping_org := "acme"; cs.stopping_type := "eth";
     cs.stopping_instance := "bc1" |}.

(** A random source that writes 64 bytes [0x5a]. *)
Definition full_5a : cutil.RandRead :=
  {| cutil.rand_byte := fun _ => x5a; cutil.rand_n := 64%nat;
     cutil.rand_err := None |}.

End examples.

(* ===================================================================== *)
(** * Part II: properties                                                  *)
(* ===================================================================== *)

Lemma bytes_Equal_true (a b : list byte) : bytes_Equal a b = true <-> a = b.
Proof.
  revert b; induction a as [|x a IH]; intros [|y b]; simpl; try easy.
  rewrite andb_true_iff, IH. split.
  - intros [Hxy ->]. apply Byte.byte_dec_bl in Hxy. now subst.
  - intros [= -> ->]. split; [now apply Byte.byte_dec_lb | reflexivity].
Qed.

Lemma bytes_Equal_false (a b : list byte) : bytes_Equal a b = false <-> a <> b.
Proof.
  rewrite <- bytes_Equal_true. destruct (bytes_Equal a b); split; congruence.
Qed.

(* --------------------------------------------------------------------- *)
(** ** cutil                                                               *)
(* --------------------------------------------------------------------- *)

Section CutilFacts.
Import cutil.

Lemma hextable_at_high_lower_hex (v : byte) :
  is_lower_hex (hextable_at (N.shiftr (Byte.to_N v) 4)) = true.
Proof. destruct v; vm_compute; reflexivity. Qed.

Lemma hextable_at_low_lower_hex (v : byte) :
  is_lower_hex (hextable_at (N.land (Byte.to_N v) 15)) = true.
Proof. destruct v; vm_compute; reflexivity. Qed.

Lemma hex_EncodeToString_length (src : list byte) :
  String.length (hex_EncodeToString src) = (2 * length src)%nat.
Proof. induction src as [|v src IH]; simpl; [reflexivity | rewrite IH; lia]. Qed.

Lemma hex_EncodeToString_lower_hex (src : list byte) :
  string_forallb is_lower_hex (hex_EncodeToString src) = true.
Proof.
  induction src as [|v src IH]; simpl; [reflexivity|].
  now rewrite hextable_at_high_lower_hex, hextable_at_low_lower_hex, IH.
Qed.

Lemma rand_Read_length (r : RandRead) (b : list byte) :
  length (rand_Read r b).1 = length b.
Proof. unfold rand_Read; simpl. apply length_imap. Qed.

Lemma rand_Read_full (r : RandRead) (b : list byte) :
  (length b <= rand_n r)%nat ->
  (rand_Read r b).1 = map (rand_byte r) (seq 0 (length b)).
Proof.
  intros Hn. unfold rand_Read; simpl.
  apply list_eq; intros i.
  rewrite list_lookup_imap, list_lookup_fmap.
  destruct (b !! i) as [old|] eqn:Hb; simpl.
  - pose proof (lookup_lt_Some _ _ _ Hb) as Hi.
    rewrite (lookup_seq_lt 0 (length b) i Hi); simpl.
    destruct (Nat.ltb_spec i (rand_n r)); [reflexivity | lia].
  - apply lookup_ge_None in Hb. rewrite lookup_seq_ge by lia. reflexivity.
Qed.

Lemma hex_digits_of_byte (v : byte) :
  hex_digit_value (hextable_at (N.shiftr (Byte.to_N v) 4)) =
    Some (Byte.to_N v / 16)%N /\
  hex_digit_value (hextable_at (N.land (Byte.to_N v) 15)) =
    Some (Byte.to_N v mod 16)%N.
Proof. destruct v; vm_compute; split; reflexivity. Qed.

(** Read as two-digit hexadecimal numerals, the text that
    [hex.EncodeToString] writes gives back the bytes it was made from. *)
Lemma hex_bytes_EncodeToString (src : list byte) :
  hex_bytes (hex_EncodeToString src) = Some (map Byte.to_N src).
Proof.
  induction src as [|v src IH]; [reflexivity|].
  cbn [hex_EncodeToString hex_bytes map].
  destruct (hex_digits_of_byte v) as [-> ->]. rewrite IH.
  do 2 f_equal. symmetry. apply N.div_mod. discriminate.
Qed.

(** C8: when the random source reports no error, [GenerateAgreementId]
    returns no error and the hex encoding of the 32-byte buffer that
    [rand.Read] filled: 64 characters, every one of them a lowercase
    hexadecimal digit, and such that the two-digit numerals of the text,
    read in order, are the values of the bytes of the buffer; when the
    source wrote all 32 bytes (as [crypto/rand] does on success), these are
    the 32 random bytes. *)
Theorem GenerateAgreementId_format (r : RandRead) :
  rand_err r = None ->
  exists bytes : list byte,
    bytes = (rand_Read r (make_bytes 32)).1 /\
    length bytes = 32%nat /\
    ((32 <= rand_n r)%nat -> bytes = map (rand_byte r) (seq 0 32)) /\
    GenerateAgreementId r = (hex_EncodeToString bytes, None) /\
    String.length (GenerateAgreementId r).1 = 64%nat /\
    string_forallb is_lower_hex (GenerateAgreementId r).1 = true /\
    hex_bytes (GenerateAgreementId r).1 = Some (map Byte.to_N bytes).
Proof.
  intros Herr.
  exists (rand_Read r (make_bytes 32)).1.
  assert (Hlen : length (rand_Read r (make_bytes 32)).1 = 32%nat).
  { rewrite rand_Read_length. reflexivity. }
  assert (Hgen : GenerateAgreementId r =
                 (hex_EncodeToString (rand_Read r (make_bytes 32)).1, None)).
  { unfold GenerateAgreementId, rand_Read. simpl. now rewrite Herr. }
  refine (conj eq_refl (conj Hlen (conj _ (conj Hgen (conj _ (conj _ _)))))).
  - intros Hn. now rewrite rand_Read_full.
  - rewrite Hgen; cbn [fst]. rewrite hex_EncodeToString_length, Hlen. reflexivity.
  - rewrite Hgen; cbn [fst]. apply hex_EncodeToString_lower_hex.
  - rewrite Hgen; cbn [fst]. apply hex_bytes_EncodeToString.
Qed.

Lemma GenerateAgreementId_format_witness :
  exists bytes : list byte,
    bytes = (rand_Read examples.all_ab (make_bytes 32)).1 /\
    length bytes = 32%nat /\
    ((32 <= rand_n examples.all_ab)%nat ->
     bytes = map (rand_byte examples.all_ab) (seq 0 32)) /\
    GenerateAgreementId examples.all_ab = (hex_EncodeToString bytes, None) /\
    String.length (GenerateAgreementId examples.all_ab).1 = 64%nat /\
    string_forallb is_lower_hex (GenerateAgreementId examples.all_ab).1 = true /\
    hex_bytes (GenerateAgreementId examples.all_ab).1 = Some (map Byte.to_N bytes).
Proof. apply (GenerateAgreementId_format examples.all_ab). reflexivity. Defined.

Example GenerateAgreementId_all_ab :
  GenerateAgreementId examples.all_ab =
  ("abababababababababababababababababababababababababababababababab", None).
Proof. vm_compute. reflexivity. Qed.

(** When the random source fails, the id is empty and the error is handed
    on. *)
Lemma GenerateAgreementId_error (r : RandRead) (e : error) :
  rand_err r = Some e -> GenerateAgreementId r = ("", Some e).
Proof. intros Herr. unfold GenerateAgreementId, rand_Read. simpl. now rewrite Herr. Qed.

Lemma GenerateAgreementId_error_witness :
  GenerateAgreementId
    {| rand_byte := fun _ => x00; rand_n := 0%nat;
       rand_err := Some (ExternalError "no entropy") |} =
  ("", Some (ExternalError "no entropy")).
Proof. apply GenerateAgreementId_error. reflexivity. Defined.

End CutilFacts.

(* --------------------------------------------------------------------- *)
(** ** Termination codes                                                   *)
(* --------------------------------------------------------------------- *)

Section TerminationCodes.
Import cs.
Context `{TermReasons}.

(** The [switch] of [GetTerminationCode] is a search of the table by
    reason, and the decoder is a search by code. *)
Lemma GetTerminationCode_find (reason : string) :
  GetTerminationCode reason =
  match find (fun row => String.eqb reason row.1) reason_table with
  | Some row => row.2
  | None => 999
  end.
Proof.
  unfold GetTerminationCode, reason_table; cbn [find fst snd].
  repeat (match goal with |- context [String.eqb ?a ?b] =>
                   destruct (String.eqb a b); [reflexivity|] end).
  reflexivity.
Qed.

Lemma DecodeReasonCode_find (code : Z) :
  DecodeReasonCode code =
  match find (fun row => row.2 =? code) reason_table with
  | Some row => row.1
  | None => "unknown"
  end.
Proof.
  unfold DecodeReasonCode, reason_table; cbn [find fst snd].
  unfold AB_CANCEL_POLICY_CHANGED, AB_CANCEL_NOT_FINALIZED_TIMEOUT,
    AB_CANCEL_NO_DATA_RECEIVED, AB_CANCEL_NO_REPLY, AB_USER_REQUESTED,
    AB_CANCEL_NEGATIVE_REPLY, AB_CANCEL_DISCOVERED, AB_CANCEL_FORCED_UPGRADE,
    AB_CANCEL_BC_WRITE_FAILED, AB_CANCEL_NODE_HEARTBEAT, AB_CANCEL_AG_MISSING.
  repeat (match goal with |- context [?a =? ?b] =>
                   rewrite (Z.eqb_sym b a) || idtac;
                   destruct (Z.eqb_spec a b); [reflexivity|] end).
  reflexivity.
Qed.

End TerminationCodes.

(** Searching a list of rows whose keys are pairwise distinct finds the row
    that holds the key. *)
Lemma find_by_key {K V} (eqb : K -> K -> bool)
    (eqb_eq : forall a b, eqb a b = true <-> a = b)
    (l : list (K * V)) (k : K) (v : V) :
  NoDup (map fst l) -> In (k, v) l ->
  find (fun row => eqb k row.1) l = Some (k, v).
Proof.
  induction l as [|[k' v'] l IH]; simpl; [easy|].
  intros Hnd [Heq|Hin].
  - injection Heq as -> ->.
    assert (eqb k k = true) as -> by now apply eqb_eq. reflexivity.
  - apply NoDup_cons in Hnd as [Hnotin Hnd].
    destruct (eqb k k') eqn:Hk.
    + apply eqb_eq in Hk; subst k'. exfalso. apply Hnotin.
      apply list_elem_of_In. apply (in_map fst) in Hin. exact Hin.
    + now apply IH.
Qed.

Lemma find_by_key_none {K V} (eqb : K -> K -> bool)
    (eqb_eq : forall a b, eqb a b = true <-> a = b)
    (l : list (K * V)) (k : K) :
  ~ In k (map fst l) -> find (fun row => eqb k row.1) l = None.
Proof.
  induction l as [|[k' v'] l IH]; simpl; [easy|].
  intros Hnotin. destruct (eqb k k') eqn:Hk.
  - apply eqb_eq in Hk. exfalso. apply Hnotin. now left.
  - apply IH. intros Hin. apply Hnotin. now right.
Qed.

Section TerminationCodeClaims.
Import cs.
Context `{TermReasons}.

Lemma reason_table_codes (reason : string) (code : Z) :
  In (reason, code) reason_table -> 200 <= code <= 210.
Proof.
  unfold reason_table; simpl.
  intros Hin. repeat (destruct Hin as [[= <- <-]|Hin]; [lia|]). easy.
Qed.

Lemma DecodeReasonCode_row (reason : string) (code : Z) :
  In (reason, code) reason_table -> DecodeReasonCode code = reason.
Proof.
  unfold reason_table; simpl.
  intros Hin.
  repeat (destruct Hin as [[= <- <-]|Hin]; [reflexivity|]). easy.
Qed.

Lemma reason_table_row_of_code (c : Z) :
  200 <= c <= 210 -> exists reason, In (reason, c) reason_table.
Proof.
  intros Hc.
  assert (c = 200 \/ c = 201 \/ c = 202 \/ c = 203 \/ c = 204 \/ c = 205 \/
          c = 206 \/ c = 207 \/ c = 208 \/ c = 209 \/ c = 210) as Hcases by lia.
  unfold reason_table.
  repeat (destruct Hcases as [->|Hcases]; [eexists; simpl; tauto|]).
  subst c. eexists; simpl; tauto.
Qed.

(** C1: for the symbolic reasons of the closed set, [GetTerminationCode]
    gives the code of the table (200..210) and [GetTerminationReason] gives
    the symbolic reason back; encoding the decoded form of every code of
    200..210 gives the code again; and a reason outside of the closed set is
    encoded as 999.  (The reason strings are pairwise distinct, as the case
    labels of a Go switch are.) *)
Theorem termination_code_round_trip :
  term_reasons_distinct ->
  (forall reason code, In (reason, code) reason_table ->
     200 <= code <= 210 /\
     GetTerminationCode reason = code /\
     GetTerminationReason code = reason) /\
  (forall c, 200 <= c <= 210 ->
     GetTerminationCode (GetTerminationReason c) = c) /\
  (forall reason, ~ In reason term_reasons -> GetTerminationCode reason = 999).
Proof.
  intros Hdistinct.
  assert (Hencode : forall reason code, In (reason, code) reason_table ->
                                        GetTerminationCode reason = code).
  { intros reason code Hin. rewrite GetTerminationCode_find.
    rewrite (find_by_key String.eqb String.eqb_eq _ reason code Hdistinct Hin).
    reflexivity. }
  assert (Hdecode : forall reason code, In (reason, code) reason_table ->
                                        GetTerminationReason code = reason).
  { intros reason code Hin. unfold GetTerminationReason, uint64_of_uint.
    pose proof (reason_table_codes _ _ Hin) as Hrange.
    rewrite Z.mod_small by lia. now apply DecodeReasonCode_row. }
  split; [|split].
  - intros reason code Hin.
    split; [now apply (reason_table_codes reason)|]. split; auto.
  - intros c Hc. destruct (reason_table_row_of_code c Hc) as [reason Hin].
    rewrite (Hdecode _ _ Hin). now apply Hencode.
  - intros reason Hnotin. rewrite GetTerminationCode_find.
    now rewrite (find_by_key_none String.eqb String.eqb_eq).
Qed.

End TerminationCodeClaims.

Lemma termination_code_round_trip_witness :
  cs.GetTerminationCode (H := examples.table_reasons)
    (cs.GetTerminationReason (H := examples.table_reasons) 205) = 205 /\
  cs.GetTerminationCode (H := examples.table_reasons) "AB_CANCEL_NO_REPLY" = 203 /\
  cs.GetTerminationReason (H := examples.table_reasons) 203 = "AB_CANCEL_NO_REPLY" /\
  cs.GetTerminationCode (H := examples.table_reasons) "out of coffee" = 999.
Proof.
  assert (Hdistinct : cs.term_reasons_distinct (H := examples.table_reasons)).
  { unfold cs.term_reasons_distinct. apply NoDup_ListNoDup.
    vm_compute. repeat (constructor; [intros Hin; simpl in Hin; intuition discriminate|]).
    constructor. }
  destruct (termination_code_round_trip (H := examples.table_reasons) Hdistinct)
    as (Htable & Hround & Hother).
  split; [apply Hround; lia|].
  destruct (Htable "AB_CANCEL_NO_REPLY" 203) as (_ & Henc & Hdec).
  { vm_compute. tauto. }
  split; [exact Henc|]. split; [exact Hdec|].
  apply Hother. vm_compute. intuition discriminate.
Defined.

(* --------------------------------------------------------------------- *)
(** ** The ledger client registry                                          *)
(* --------------------------------------------------------------------- *)

Section Registry.
Import cs.

(** [getBCNameMap] hands out the name map in which [registry_entry] looks,
    and the levels it creates on the way hold no entry. *)
Lemma getBCNameMap_lookup (org typeName name : string) (c : CSProtocolHandler) :
  (getBCNameMap org typeName c).1 !! name = registry_entry typeName name org c.
Proof.
  unfold getBCNameMap, registry_entry.
  destruct (bcState c !! org) as [orgMap|]; simpl.
  - destruct (orgMap !! typeName); reflexivity.
  - rewrite lookup_empty. reflexivity.
Qed.

Lemma getBCNameMap_fields (org typeName : string) (c : CSProtocolHandler) :
  let c' := (getBCNameMap org typeName c).2 in
  name c' = name c /\ agbotId c' = agbotId c /\ token c' = token c /\
  ExchangeURL c' = ExchangeURL c /\
  genericAgreementPH c' = genericAgreementPH c /\
  deferredCommands c' = deferredCommands c /\ messages c' = messages c.
Proof.
  unfold getBCNameMap.
  destruct (bcState c !! org) as [orgMap|]; simpl.
  - destruct (orgMap !! typeName); simpl; tauto.
  - rewrite lookup_empty; simpl; tauto.
Qed.

Lemma AgreementProtocolHandler_spec (typeName name org : string)
    (c : CSProtocolHandler) :
  (AgreementProtocolHandler typeName name org c).1 =
  if String.eqb typeName "" && String.eqb name "" && String.eqb org ""
  then Some (genericAgreementPH c)
  else match registry_entry typeName name org c with
       | Some namedBC => if ready namedBC then Some (agreementPH namedBC) else None
       | None => None
       end.
Proof.
  unfold AgreementProtocolHandler.
  destruct (String.eqb typeName "" && String.eqb name "" && String.eqb org "");
    [reflexivity|].
  rewrite <- getBCNameMap_lookup.
  destruct (getBCNameMap org typeName c) as [nameMap c']; simpl.
  destruct (nameMap !! name) as [namedBC|]; [|reflexivity].
  destruct (ready namedBC); reflexivity.
Qed.

Lemma IsBlockchainWritable_spec (typeName name org : string)
    (c : CSProtocolHandler) :
  (IsBlockchainWritable typeName name org c).1 =
  match registry_entry typeName name org c with
  | Some namedBC => ready namedBC && writable namedBC
  | None => false
  end.
Proof.
  unfold IsBlockchainWritable. rewrite <- getBCNameMap_lookup.
  destruct (getBCNameMap org typeName c) as [nameMap c']; simpl.
  destruct (nameMap !! name) as [namedBC|]; [|reflexivity].
  destruct (ready namedBC && writable namedBC); reflexivity.
Qed.

Lemma IsBlockchainReady_spec (typeName name org : string)
    (c : CSProtocolHandler) :
  (IsBlockchainReady typeName name org c).1 =
  match registry_entry typeName name org c with
  | Some namedBC => ready namedBC
  | None => false
  end.
Proof.
  unfold IsBlockchainReady. rewrite <- getBCNameMap_lookup.
  destruct (getBCNameMap org typeName c) as [nameMap c']; simpl.
  destruct (nameMap !! name) as [namedBC|]; [|reflexivity].
  destruct (ready namedBC); reflexivity.
Qed.

Lemma CanCancelNow_spec (ag : Agreement) (c : CSProtocolHandler) :
  (CanCancelNow (Some ag) c).1 =
  match registry_entry (BlockchainType ag) (BlockchainName ag)
          (BlockchainOrg ag) c with
  | Some namedBC => ready namedBC
  | None => false
  end.
Proof.
  unfold CanCancelNow, GetKnownBlockchain. rewrite <- getBCNameMap_lookup.
  destruct (getBCNameMap (BlockchainOrg ag) (BlockchainType ag) c)
    as [nameMap c']; simpl.
  destruct (nameMap !! BlockchainName ag) as [namedBC|]; [|reflexivity].
  destruct (ready namedBC); reflexivity.
Qed.

Lemma getColonusDir_spec (ag : Agreement) (c : CSProtocolHandler) :
  (getColonusDir (Some ag) c).1 =
  match registry_entry (BlockchainType ag) (BlockchainName ag)
          (BlockchainOrg ag) c with
  | Some namedBC => if ready namedBC then colonusDir namedBC else ""
  | None => ""
  end.
Proof.
  unfold getColonusDir, GetKnownBlockchain. rewrite <- getBCNameMap_lookup.
  destruct (getBCNameMap (BlockchainOrg ag) (BlockchainType ag) c)
    as [nameMap c']; simpl.
  destruct (nameMap !! BlockchainName ag) as [namedBC|]; [|reflexivity].
  destruct (ready namedBC); reflexivity.
Qed.

(** C7: the empty triple is answered with the generic handler.  For a triple
    without a registry entry, or whose entry is not ready,
    [AgreementProtocolHandler] returns [nil] (for every triple but the empty
    one, which the first sentence settles), [IsBlockchainReady] and
    [IsBlockchainWritable] return [false] and [getColonusDir] of an
    agreement on that ledger returns the empty string (as it does for the
    [nil] agreement).  [IsBlockchainWritable] returns [true] exactly when the
    entry is there, ready and writable. *)
Theorem registry_queries (c : CSProtocolHandler) :
  (AgreementProtocolHandler "" "" "" c).1 = Some (genericAgreementPH c) /\
  (forall typeName name org,
     missing_or_not_ready typeName name org c ->
     ((typeName, name, org) <> ("", "", "") ->
      (AgreementProtocolHandler typeName name org c).1 = None) /\
     (IsBlockchainReady typeName name org c).1 = false /\
     (IsBlockchainWritable typeName name org c).1 = false /\
     (forall ag, BlockchainType ag = typeName -> BlockchainName ag = name ->
                 BlockchainOrg ag = org ->
                 (getColonusDir (Some ag) c).1 = "")) /\
  (getColonusDir None c).1 = "" /\
  (forall typeName name org,
     (IsBlockchainWritable typeName name org c).1 = true <->
     exists namedBC, registry_entry typeName name org c = Some namedBC /\
                     ready namedBC = true /\ writable namedBC = true).
Proof.
  split; [reflexivity|]. split; [|split; [reflexivity|]].
  - intros typeName name org Hmissing.
    rewrite AgreementProtocolHandler_spec, IsBlockchainReady_spec,
      IsBlockchainWritable_spec.
    assert (Hentry : match registry_entry typeName name org c with
                     | Some namedBC => ready namedBC = false
                     | None => True
                     end).
    { destruct Hmissing as [->|(namedBC & -> & Hready)]; [exact I | exact Hready]. }
    repeat split.
    + intros Hne.
      destruct (String.eqb typeName "" && String.eqb name "" && String.eqb org "")
        eqn:Hempty.
      * apply andb_true_iff in Hempty as [Hempty Horg].
        apply andb_true_iff in Hempty as [Htype Hname].
        apply String.eqb_eq in Htype, Hname, Horg. subst. now contradiction Hne.
      * destruct (registry_entry typeName name org c); [now rewrite Hentry | reflexivity].
    + destruct (registry_entry typeName name org c); [exact Hentry | reflexivity].
    + destruct (registry_entry typeName name org c); [now rewrite Hentry | reflexivity].
    + intros ag <- <- <-. rewrite getColonusDir_spec.
      destruct (registry_entry _ _ _ c); [now rewrite Hentry | reflexivity].
  - intros typeName name org. rewrite IsBlockchainWritable_spec.
    destruct (registry_entry typeName name org c) as [namedBC|].
    + rewrite andb_true_iff. split.
      * intros [Hr Hw]. now exists namedBC.
      * intros (b & [= <-] & Hr & Hw). now split.
    + split; [discriminate | intros (b & Hb & _); discriminate].
Qed.

Lemma registry_queries_witness :
  (cs.AgreementProtocolHandler "eth" "bc1" "acme"
     (examples.handler_with_bc1 false true)).1 = None /\
  (cs.IsBlockchainReady "eth" "bc2" "acme"
     (examples.handler_with_bc1 true true)).1 = false /\
  (cs.IsBlockchainWritable "eth" "bc1" "acme"
     (examples.handler_with_bc1 false true)).1 = false /\
  (cs.getColonusDir (Some (examples.agreement_A 2))
     (examples.handler_with_bc1 false true)).1 = "".
Proof.
  destruct (registry_queries (examples.handler_with_bc1 false true))
    as (_ & Hmissing & _ & _).
  destruct (Hmissing "eth" "bc1" "acme") as (Hph & _ & Hw & Hdir).
  { right. exists (examples.client_bc1 false true). split; reflexivity. }
  destruct (registry_queries (examples.handler_with_bc1 true true))
    as (_ & Hmissing' & _ & _).
  destruct (Hmissing' "eth" "bc2" "acme") as (_ & Hr & _ & _).
  { left. reflexivity. }
  split; [apply Hph; discriminate|]. split; [exact Hr|]. split; [exact Hw|].
  apply Hdir; reflexivity.
Defined.

(** C9: [CanCancelNow] answers [true] for the [nil] agreement, and for an
    agreement exactly when the registry holds an entry for the agreement's
    recorded blockchain, the type [ag.BlockchainType], the name
    [ag.BlockchainName] and the org [ag.BlockchainOrg], and that entry is
    ready; these three fields are what [GetKnownBlockchain] returns. *)
Theorem CanCancelNow_iff (c : CSProtocolHandler) :
  CanCancelNow None c = (true, c) /\
  (forall ag,
     GetKnownBlockchain ag =
       (BlockchainType ag, BlockchainName ag, BlockchainOrg ag)) /\
  (forall ag,
     (CanCancelNow (Some ag) c).1 = true <->
     exists namedBC,
       registry_entry (BlockchainType ag) (BlockchainName ag)
         (BlockchainOrg ag) c = Some namedBC /\
       ready namedBC = true).
Proof.
  split; [reflexivity|]. split; [reflexivity|].
  intros ag. rewrite CanCancelNow_spec.
  destruct (registry_entry _ _ _ c) as [namedBC|].
  - split.
    + intros Hr. now exists namedBC.
    + now intros (b & [= <-] & Hr).
  - split; [discriminate | intros (b & Hb & _); discriminate].
Qed.

Example CanCancelNow_ready :
  (cs.CanCancelNow (Some (examples.agreement_A 2))
     (examples.handler_with_bc1 true false)).1 = true /\
  (cs.CanCancelNow (Some (examples.agreement_A 2))
     (examples.handler_with_bc1 false false)).1 = false /\
  (cs.CanCancelNow (Some (examples.agreement_A 2)) examples.fresh_handler).1 = false.
Proof. vm_compute. tauto. Qed.

End Registry.

(* --------------------------------------------------------------------- *)
(** ** PostReply                                                           *)
(* --------------------------------------------------------------------- *)

Section PostReplyFacts.
Import cs.
Context `{Collaborators}.

Lemma AgreementProtocolHandler_fields (typeName name org : string)
    (c : CSProtocolHandler) :
  let c' := (AgreementProtocolHandler typeName name org c).2 in
  deferredCommands c' = deferredCommands c /\ messages c' = messages c.
Proof.
  unfold AgreementProtocolHandler.
  destruct (String.eqb typeName "" && String.eqb name "" && String.eqb org "");
    [simpl; tauto|].
  pose proof (getBCNameMap_fields org typeName c) as Hf.
  destruct (getBCNameMap org typeName c) as [nameMap c']; simpl in *.
  destruct (nameMap !! name) as [namedBC|]; [destruct (ready namedBC)|]; simpl; tauto.
Qed.

Lemma IsBlockchainWritable_fields (typeName bcName org : string)
    (c : CSProtocolHandler) :
  let c' := (IsBlockchainWritable typeName bcName org c).2 in
  name c' = name c /\ agbotId c' = agbotId c /\ token c' = token c /\
  ExchangeURL c' = ExchangeURL c /\
  deferredCommands c' = deferredCommands c /\ messages c' = messages c.
Proof.
  unfold IsBlockchainWritable.
  pose proof (getBCNameMap_fields org typeName c) as Hf.
  destruct (getBCNameMap org typeName c) as [nameMap c']; simpl in *.
  destruct (nameMap !! bcName) as [namedBC|];
    [destruct (ready namedBC && writable namedBC)|]; simpl; tauto.
Qed.


End PostReplyFacts.



(** The other branch of version 2: the ledger is not writable, so a
    [NEW_BC_CLIENT] message goes out and nothing is deferred. *)
Example PostReply_v2_not_writable :
  let out := cs.PostReply (H := examples.db_with_A 2) "A" tt tt tt "acme" "w1"
               examples.fresh_handler in
  cs.deferredCommands out.1.2 = [] /\
  cs.messages out.1.2 =
    [cs.NewNewBCContainerMessage cs.NEW_BC_CLIENT "eth" "bc1" "acme"
       "https://exchange/v1/" "agbot1" "tok"].
Proof. vm_compute. split; reflexivity. Qed.

(* --------------------------------------------------------------------- *)
(** ** The pattern manager: how the pieces run                             *)
(* --------------------------------------------------------------------- *)

Section PatternManagerRuns.
Import pm.
Context `{PolicyEnv}.

Lemma preserves_ret {A} P (a : A) : preserves P (ret a).
Proof. intros s Hs. exact Hs. Qed.

Lemma preserves_fail {A} P (e : error) : preserves P (fail (A := A) e).
Proof. intros s Hs. exact Hs. Qed.

Lemma preserves_get P : preserves P get.
Proof. intros s Hs. exact Hs. Qed.

Lemma preserves_bind {A B} P (m : M A) (k : A -> M B) :
  preserves P m -> (forall a, preserves P (k a)) -> preserves P (bind m k).
Proof.
  intros Hm Hk s Hs. unfold bind. specialize (Hm s Hs).
  destruct (m s) as [[a|e] s']; simpl in *; [now apply Hk | exact Hm].
Qed.

Lemma preserves_wrap {A} P f (m : M A) : preserves P m -> preserves P (wrap f m).
Proof.
  intros Hm s Hs. unfold wrap. specialize (Hm s Hs).
  destruct (m s) as [[a|e] s']; exact Hm.
Qed.

Lemma preserves_for_each {A} P (l : list A) (body : A -> M unit) :
  (forall x, In x l -> preserves P (body x)) -> preserves P (for_each l body).
Proof.
  induction l as [|x l IH]; intros Hbody; simpl.
  - apply preserves_ret.
  - apply preserves_bind; [apply Hbody; now left|].
    intros _. apply IH. intros y Hy. apply Hbody. now right.
Qed.

Lemma preserves_range_keys P visit present body :
  (forall k, preserves P (body k)) -> preserves P (range_keys visit present body).
Proof.
  intros Hbody. induction visit as [|k visit IH]; simpl.
  - apply preserves_ret.
  - apply preserves_bind; [|intros _; exact IH].
    apply preserves_bind; [apply preserves_get|].
    intros s. destruct (present s k); [apply Hbody | apply preserves_ret].
Qed.

Lemma never_fails_bind (m k : M unit) :
  never_fails m -> never_fails k -> never_fails (bind m (fun _ => k)).
Proof.
  intros Hm Hk s. unfold bind. specialize (Hm s).
  destruct (m s) as [[[]|e] s']; simpl in *; [apply Hk | discriminate].
Qed.

Lemma never_fails_range_keys visit present body :
  (forall k, never_fails (body k)) -> never_fails (range_keys visit present body).
Proof.
  intros Hbody. induction visit as [|k visit IH]; simpl; [easy|].
  apply never_fails_bind; [|exact IH].
  intros s. unfold bind, get. destruct (present s k); [apply Hbody | reflexivity].
Qed.

(** A loop over a slice that returns an error stopped at the element whose
    body returned it. *)
Lemma for_each_error {A} (l : list A) (body : A -> M unit) s e s' :
  for_each l body s = (Err e, s') ->
  exists pre x post s1,
    l = (pre ++ x :: post)%list /\
    for_each pre body s = (Ok tt, s1) /\
    body x s1 = (Err e, s').
Proof.
  revert s. induction l as [|x l IH]; intros s; simpl.
  - discriminate.
  - unfold bind at 1. destruct (body x s) as [[[]|e1] s1] eqn:Hx.
    + intros Hl. destruct (IH _ Hl) as (pre & y & post & s2 & -> & Hpre & Hy).
      exists (x :: pre), y, post, s2. split; [reflexivity|]. split; [|exact Hy].
      simpl. unfold bind at 1. now rewrite Hx.
    + intros [= <- <-]. exists [], x, l, s. now split.
Qed.

(** [deleteOrg] as one step: the call is made, its error (if any) is logged,
    the org leaves the map, and [nil] is returned. *)
Lemma deleteOrg_run (policyPath org : string) (s : State) :
  deleteOrg policyPath org s =
  (Ok tt,
   {| OrgPatterns := delete org (OrgPatterns s);
      heap := heap s;
      world := (policy_DeletePolicyFilesForOrg policyPath org true (world s)).2;
      trace := (trace s ++ [DeletePolicyFilesForOrg policyPath org true]) ++
               logged "Error deleting policy files for org"
                 (policy_DeletePolicyFilesForOrg policyPath org true (world s)).1 |}).
Proof.
  unfold deleteOrg, bind, emit, call, get, hasOrg, set_OrgPatterns, ret; simpl.
  destruct (policy_DeletePolicyFilesForOrg policyPath org true (world s))
    as [[err|] w]; simpl.
  - destruct (OrgPatterns s !! org) eqn:Horg; simpl; [reflexivity|].
    now rewrite delete_id.
  - rewrite app_nil_r.
    destruct (OrgPatterns s !! org) eqn:Horg; simpl; [reflexivity|].
    now rewrite delete_id.
Qed.

Lemma deletePattern_run (policyPath org pattern : string) (s : State) :
  deletePattern policyPath org pattern s =
  (Ok tt,
   {| OrgPatterns := without_pattern (OrgPatterns s) org pattern;
      heap := heap s;
      world := (policy_DeletePolicyFilesForPattern policyPath org pattern (world s)).2;
      trace := (trace s ++ [DeletePolicyFilesForPattern policyPath org pattern]) ++
               logged "Error deleting policy files for pattern"
                 (policy_DeletePolicyFilesForPattern policyPath org pattern (world s)).1 |}).
Proof.
  unfold deletePattern, bind, emit, call, get, hasOrg, set_OrgPatterns, ret,
    without_pattern; simpl.
  destruct (policy_DeletePolicyFilesForPattern policyPath org pattern (world s))
    as [[err|] w]; simpl; rewrite ?app_nil_r;
    (destruct (OrgPatterns s !! org) as [orgMap|] eqn:Horg; simpl; [|reflexivity]);
    (destruct (orgMap !! pattern) eqn:Hp; simpl; [reflexivity|]);
    rewrite delete_id by exact Hp; now rewrite insert_id.
Qed.

Lemma deleteOrg_never_fails policyPath org : never_fails (deleteOrg policyPath org).
Proof. intros s. now rewrite deleteOrg_run. Qed.

Lemma deletePattern_never_fails policyPath org pattern :
  never_fails (deletePattern policyPath org pattern).
Proof. intros s. now rewrite deletePattern_run. Qed.

(** [SetCurrentPatterns] returns no error, whatever the deletions report. *)
Lemma SetCurrentPatterns_never_fails servedPatterns policyPath visit_orgs
    visit_patterns :
  never_fails (SetCurrentPatterns servedPatterns policyPath visit_orgs
                 visit_patterns).
Proof.
  intros s. unfold SetCurrentPatterns. unfold bind at 1, get at 1.
  cbn beta iota.
  destruct ((size (OrgPatterns s) =? 0)%nat && (length servedPatterns =? 0)%nat);
    [reflexivity|].
  refine (never_fails_bind _ _ _ _ s); [|easy].
  apply never_fails_range_keys. intros org.
  destruct (_ !! org) as [newOrgMap|]; [|apply deleteOrg_never_fails].
  apply never_fails_range_keys. intros pattern.
  destruct (newOrgMap !! pattern); [easy | apply deletePattern_never_fails].
Qed.

End PatternManagerRuns.

Section PatternManagerMemory.
Import pm.
Context `{PolicyEnv}.

Lemma preserves_emit P ev : memory_only P -> preserves P (emit ev).
Proof. intros HP s Hs. apply (HP s (world s) _ Hs). Qed.

Lemma preserves_call {A} P (f : World -> A * World) :
  memory_only P -> preserves P (call f).
Proof.
  intros HP s Hs. unfold call. destruct (f (world s)) as [a w] eqn:Hf.
  apply (HP s w (trace s) Hs).
Qed.

Lemma bind_get {A} (k : State -> M A) (s : State) : bind get k s = k s s.
Proof. reflexivity. Qed.

(** *** Keys of the map *)

Lemma hasPattern_has_key (s : State) (org pattern : string) :
  hasPattern s org pattern = has_key (OrgPatterns s) org pattern.
Proof.
  unfold hasPattern, hasOrg, has_key. now destruct (OrgPatterns s !! org).
Qed.

Lemma has_key_set_slot m org pattern pe org' pattern' :
  has_key m org pattern = true ->
  has_key (set_slot m org pattern pe) org' pattern' = has_key m org' pattern'.
Proof.
  unfold has_key, set_slot. intros Hkey.
  destruct (m !! org) as [orgMap|] eqn:Horg; [|discriminate].
  destruct (orgMap !! pattern) eqn:Hp; [|discriminate].
  destruct (decide (org = org')) as [<-|Hne].
  - rewrite lookup_insert_eq, Horg.
    destruct (decide (pattern = pattern')) as [<-|Hnp].
    + now rewrite lookup_insert_eq, Hp.
    + now rewrite lookup_insert_ne.
  - now rewrite lookup_insert_ne.
Qed.

Lemma has_key_without_pattern m org pattern pattern' :
  has_key (without_pattern m org pattern) org pattern' =
  if decide (pattern = pattern') then false else has_key m org pattern'.
Proof.
  unfold has_key, without_pattern.
  destruct (m !! org) as [orgMap|] eqn:Horg.
  - rewrite lookup_insert_eq. destruct (decide (pattern = pattern')) as [<-|Hne].
    + now rewrite lookup_delete_eq.
    + now rewrite lookup_delete_ne.
  - rewrite Horg. now destruct (decide _).
Qed.

Lemma entry_at_set_slot m org pattern pe :
  has_key m org pattern = true ->
  entry_at (set_slot m org pattern pe) org pattern = pe.
Proof.
  unfold has_key, set_slot, entry_at. intros Hkey.
  destruct (m !! org) as [orgMap|] eqn:Horg; [|discriminate].
  now rewrite lookup_insert_eq, lookup_insert_eq.
Qed.

Lemma entry_at_set_slot_ne m org pattern pe org' pattern' :
  (org, pattern) <> (org', pattern') ->
  entry_at (set_slot m org pattern pe) org' pattern' = entry_at m org' pattern'.
Proof.
  unfold set_slot, entry_at. intros Hne.
  destruct (m !! org) as [orgMap|] eqn:Horg; [|reflexivity].
  destruct (decide (org = org')) as [<-|Hno].
  - rewrite lookup_insert_eq, Horg.
    destruct (decide (pattern = pattern')) as [<-|Hnp]; [congruence|].
    now rewrite lookup_insert_ne.
  - now rewrite lookup_insert_ne.
Qed.

Lemma set_slot_set_slot m org pattern pe pe' :
  set_slot (set_slot m org pattern pe) org pattern pe' = set_slot m org pattern pe'.
Proof.
  unfold set_slot. destruct (m !! org) as [orgMap|] eqn:Horg.
  - now rewrite lookup_insert_eq, insert_insert_eq, insert_insert_eq.
  - now rewrite Horg.
Qed.

Lemma entry_at_has_key m org pattern e :
  entry_at m org pattern = Some e -> has_key m org pattern = true.
Proof.
  unfold entry_at, has_key. destruct (m !! org) as [orgMap|]; [|discriminate].
  now destruct (orgMap !! pattern).
Qed.

(** *** The assignments, as single steps *)

Lemma assign_var_run (l : loc) (v : ExPattern) (s : State) :
  assign_var l v s =
  (Ok tt, {| OrgPatterns := OrgPatterns s; heap := store_var l v (heap s);
             world := world s; trace := trace s |}).
Proof.
  unfold assign_var, bind, get, set_heap, store_var.
  now destruct (l <? length (heap s))%nat.
Qed.

Lemma store_var_lookup (l : loc) (v : ExPattern) (h : list ExPattern) :
  (l <= length h)%nat -> store_var l v h !! l = Some v.
Proof.
  intros Hl. unfold store_var. destruct (Nat.ltb_spec l (length h)).
  - now apply list_lookup_insert_eq.
  - assert (l = length h) as -> by lia. now rewrite lookup_app_r, Nat.sub_diag.
Qed.

Lemma store_var_length (l : loc) (v : ExPattern) (h : list ExPattern) :
  (l <= length h)%nat -> (l < length (store_var l v h))%nat.
Proof.
  intros Hl. unfold store_var. destruct (Nat.ltb_spec l (length h)).
  - now rewrite length_insert.
  - rewrite length_app; simpl; lia.
Qed.

Lemma store_var_below (l : loc) (v : ExPattern) (h : list ExPattern) (i : nat) :
  (i < l)%nat -> (l <= length h)%nat -> store_var l v h !! i = h !! i.
Proof.
  intros Hi Hl. unfold store_var. destruct (Nat.ltb_spec l (length h)).
  - apply list_lookup_insert_ne. lia.
  - apply lookup_app_l. lia.
Qed.

Lemma assign_entry_run (org pattern : string) (pe : option PatternEntry)
    (s : State) :
  assign_entry org pattern pe s =
  match OrgPatterns s !! org with
  | None => (Err NilDereference, s)
  | Some _ =>
      (Ok tt, {| OrgPatterns := set_slot (OrgPatterns s) org pattern pe;
                 heap := heap s; world := world s; trace := trace s |})
  end.
Proof.
  unfold assign_entry, bind, get, set_OrgPatterns, fail, set_slot.
  now destruct (OrgPatterns s !! org).
Qed.

Lemma assign_entry_present (org pattern : string) (pe : option PatternEntry)
    (s : State) :
  has_key (OrgPatterns s) org pattern = true ->
  assign_entry org pattern pe s =
  (Ok tt, {| OrgPatterns := set_slot (OrgPatterns s) org pattern pe;
             heap := heap s; world := world s; trace := trace s |}).
Proof.
  intros Hkey. rewrite assign_entry_run. unfold has_key in Hkey.
  now destruct (OrgPatterns s !! org).
Qed.

(** *** Deleting and creating the policy files of an entry *)

(** [DeleteAllPolicyFiles] changes neither the map nor the memory. *)
Lemma DeleteAllPolicyFiles_memory pe policyPath org (s : State) :
  OrgPatterns (DeleteAllPolicyFiles pe policyPath org s).2 = OrgPatterns s /\
  heap (DeleteAllPolicyFiles pe policyPath org s).2 = heap s.
Proof.
  assert (Hmem : memory_only
                   (fun s' => OrgPatterns s' = OrgPatterns s /\ heap s' = heap s))
    by (intros s' w tr Hs'; exact Hs').
  enough (Hp : preserves
                 (fun s' => OrgPatterns s' = OrgPatterns s /\ heap s' = heap s)
                 (DeleteAllPolicyFiles pe policyPath org))
    by exact (Hp s (conj eq_refl eq_refl)).
  unfold DeleteAllPolicyFiles, load_entry.
  apply preserves_bind.
  { apply preserves_bind; [apply preserves_get|].
    intros s'. destruct (entry_at _ _ _); [apply preserves_ret | apply preserves_fail]. }
  intros e. apply preserves_for_each. intros fileName _.
  apply preserves_bind; [now apply preserves_emit|]. intros _.
  apply preserves_bind; [now apply preserves_call|].
  intros [err|]; [apply preserves_fail | apply preserves_ret].
Qed.

Lemma AddPolicyFileName_run (org pattern fileName : string) (s : State) (e : PatternEntry) :
  entry_at (OrgPatterns s) org pattern = Some e ->
  AddPolicyFileName (org, pattern) fileName s =
  (Ok tt, {| OrgPatterns :=
               set_slot (OrgPatterns s) org pattern
                 (Some (with_files e (PolicyFileNames e ++ [fileName])%list));
             heap := heap s; world := world s; trace := trace s |}).
Proof.
  intros He. unfold AddPolicyFileName, load_entry, store_entry, bind at 1, bind at 1, get.
  cbn [fst snd]. rewrite He. unfold ret.
  rewrite assign_entry_present; [reflexivity|].
  now apply entry_at_has_key in He.
Qed.

Lemma create_one_memory (org pattern policyPath porg : string) (pol : Policy)
    (s : State) (e : PatternEntry) :
  entry_at (OrgPatterns s) org pattern = Some e ->
  heap (create_one (org, pattern) policyPath porg pol s).2 = heap s /\
  ((exists err,
      (create_one (org, pattern) policyPath porg pol s).1 = Err err /\
      OrgPatterns (create_one (org, pattern) policyPath porg pol s).2 =
      OrgPatterns s) \/
   (exists fileName,
      (create_one (org, pattern) policyPath porg pol s).1 = Ok tt /\
      OrgPatterns (create_one (org, pattern) policyPath porg pol s).2 =
      set_slot (OrgPatterns s) org pattern
        (Some (with_files e (PolicyFileNames e ++ [fileName])%list)))).
Proof.
  intros He. unfold create_one, bind, emit, call. cbn [world].
  destruct (policy_CreatePolicyFile policyPath porg (Header_Name pol) pol (world s))
    as [[fileName|err] w].
  - erewrite AddPolicyFileName_run by (cbn [OrgPatterns]; exact He).
    cbn [fst snd OrgPatterns heap]. split; [reflexivity|]. right. now exists fileName.
  - unfold fail. cbn [fst snd OrgPatterns heap]. split; [reflexivity|]. left.
    now exists (ErrCreatePolicyFile err).
Qed.

(** The files-creating loop of [createPolicyFiles]: the entry in the slot
    keeps its pattern, time and hash and gets file names appended; the
    memory stays. *)
Lemma create_loop_memory (org pattern policyPath porg : string)
    (policies : list Policy) (s : State) (e : PatternEntry) :
  entry_at (OrgPatterns s) org pattern = Some e ->
  heap (for_each policies (create_one (org, pattern) policyPath porg) s).2 = heap s /\
  exists names,
    OrgPatterns (for_each policies (create_one (org, pattern) policyPath porg) s).2 =
    set_slot (OrgPatterns s) org pattern
      (Some (with_files e (PolicyFileNames e ++ names)%list)).
Proof.
  assert (Hnone : forall (s : State) e,
             entry_at (OrgPatterns s) org pattern = Some e ->
             OrgPatterns s =
             set_slot (OrgPatterns s) org pattern
               (Some (with_files e (PolicyFileNames e ++ [])%list))).
  { intros s0 e0 He0. rewrite app_nil_r.
    assert (with_files e0 (PolicyFileNames e0) = e0) as -> by now destruct e0.
    unfold set_slot, entry_at in *.
    destruct (OrgPatterns s0 !! org) as [orgMap|] eqn:Horg; [|reflexivity].
    destruct (orgMap !! pattern) as [pe|] eqn:Hp; [|discriminate]. subst pe.
    now rewrite (insert_id orgMap), insert_id. }
  revert s e. induction policies as [|pol policies IH]; intros s e He.
  - simpl. split; [reflexivity|]. exists []. now apply Hnone.
  - cbn [for_each]. unfold bind.
    destruct (create_one_memory org pattern policyPath porg pol s e He)
      as [Hheap [(err & Hr & Hop)|(fileName & Hr & Hop)]];
      destruct (create_one (org, pattern) policyPath porg pol s) as [r s1];
      cbn [fst snd] in *; subst r.
    + cbn [snd]. split; [exact Hheap|]. exists []. rewrite Hop. now apply Hnone.
    + destruct (IH s1 (with_files e (PolicyFileNames e ++ [fileName])%list))
        as [Hheap1 [names Hnames]].
      { rewrite Hop. apply entry_at_set_slot. now apply entry_at_has_key in He. }
      split; [congruence|].
      exists (fileName :: names). rewrite Hnames, Hop, set_slot_set_slot.
      unfold with_files; cbn [Pattern Updated Hash PolicyFileNames].
      now rewrite <- app_assoc.
Qed.

Lemma set_slot_same m org pattern e :
  entry_at m org pattern = Some e -> set_slot m org pattern (Some e) = m.
Proof.
  unfold set_slot, entry_at. intros He.
  destruct (m !! org) as [orgMap|] eqn:Horg; [|reflexivity].
  destruct (orgMap !! pattern) as [pe|] eqn:Hp; [|discriminate]. subst pe.
  now rewrite (insert_id orgMap), insert_id.
Qed.

(** [createPolicyFiles] on the entry of a slot. *)
Lemma createPolicyFiles_memory (org pattern patternId policyPath porg : string)
    (l : loc) (s : State) (e : PatternEntry) :
  entry_at (OrgPatterns s) org pattern = Some e ->
  let out := createPolicyFiles (org, pattern) patternId l policyPath porg s in
  heap out.2 = heap s /\
  exists names,
    OrgPatterns out.2 =
    set_slot (OrgPatterns s) org pattern
      (Some (with_files e (PolicyFileNames e ++ names)%list)).
Proof.
  intros He. unfold createPolicyFiles. cbn zeta. rewrite !bind_get.
  assert (Hsame : exists names,
             OrgPatterns s =
             set_slot (OrgPatterns s) org pattern
               (Some (with_files e (PolicyFileNames e ++ names)%list))).
  { exists []. rewrite app_nil_r.
    assert (with_files e (PolicyFileNames e) = e) as -> by now destruct e.
    now rewrite set_slot_same. }
  destruct (heap s !! l) as [v|]; [|unfold fail; now split].
  destruct (exchange_ConvertToPolicies patternId v) as [policies|err];
    [|unfold fail; now split].
  now apply (create_loop_memory org pattern policyPath porg policies s e).
Qed.

End PatternManagerMemory.

Section PatternManagerBody.
Import pm.
Context `{PolicyEnv}.

Lemma hashPattern_run (l : loc) (s : State) (v : ExPattern) :
  heap s !! l = Some v ->
  hashPattern l s =
  (match hash_of v with Ok hash => Ok hash | Err e => Err e end, s).
Proof.
  intros Hl. unfold hashPattern. rewrite bind_get, Hl.
  now destruct (hash_of v).
Qed.

Lemma NewPatternEntry_run (l : loc) (s : State) (v : ExPattern) :
  heap s !! l = Some v ->
  NewPatternEntry l s =
  (match hash_of v with
   | Ok hash =>
       Ok {| Pattern := l;
             Updated := uint64_of_int64 (time_Now_Unix (world s)).1;
             Hash := hash; PolicyFileNames := [] |}
   | Err e => Err e
   end,
   {| OrgPatterns := OrgPatterns s; heap := heap s;
      world := (time_Now_Unix (world s)).2; trace := trace s |}).
Proof.
  intros Hl. unfold NewPatternEntry, bind at 1, call.
  destruct (time_Now_Unix (world s)) as [now w]. cbn [fst snd].
  unfold bind. erewrite hashPattern_run by (cbn [heap]; exact Hl).
  now destruct (hash_of v).
Qed.

Lemma UpdateEntry_run (org pattern : string) (l : loc) (newHash : list byte)
    (s : State) :
  has_key (OrgPatterns s) org pattern = true ->
  UpdateEntry (org, pattern) l newHash s =
  (Ok tt,
   {| OrgPatterns :=
        set_slot (OrgPatterns s) org pattern
          (Some {| Pattern := l;
                   Updated := uint64_of_int64 (time_Now_Unix (world s)).1;
                   Hash := newHash; PolicyFileNames := [] |});
      heap := heap s; world := (time_Now_Unix (world s)).2; trace := trace s |}).
Proof.
  intros Hkey. unfold UpdateEntry, store_entry, bind, call.
  destruct (time_Now_Unix (world s)) as [now w]. cbn [fst snd].
  now rewrite assign_entry_present.
Qed.

(** The branch for a [nil] entry: either making the entry fails and the map
    is as before, or the new entry, which points to the loop variable and
    carries the hash of its current value, is in the map, whether the
    creation of its policy files then succeeds or not. *)
Lemma materialize_outcome (org policyPath patternId : string) (l : loc)
    (v : ExPattern) (s : State) :
  heap s !! l = Some v ->
  has_key (OrgPatterns s) org (exchange_GetId patternId) = true ->
  heap (materialize org policyPath l patternId s).2 = heap s /\
  ((OrgPatterns (materialize org policyPath l patternId s).2 = OrgPatterns s /\
    exists c, (materialize org policyPath l patternId s).1 =
              Err (ErrCreatePatternEntry c)) \/
   (exists e,
      OrgPatterns (materialize org policyPath l patternId s).2 =
      set_slot (OrgPatterns s) org (exchange_GetId patternId) (Some e) /\
      Pattern e = l /\ hash_of v = Ok (Hash e) /\
      ((materialize org policyPath l patternId s).1 = Ok tt \/
       exists c, (materialize org policyPath l patternId s).1 =
                 Err (ErrCreatePolicyFiles c)))).
Proof.
  intros Hl Hkey.
  remember (materialize org policyPath l patternId s) as out eqn:Hout.
  unfold materialize, bind at 1, wrap at 1 in Hout.
  rewrite (NewPatternEntry_run l s v Hl) in Hout.
  destruct (hash_of v) as [hash|e0] eqn:Hhash.
  - unfold bind at 1 in Hout.
    rewrite assign_entry_present in Hout by (cbn [OrgPatterns]; exact Hkey).
    cbn [OrgPatterns heap world trace] in Hout.
    set (newPE := {| Pattern := l; Updated := _; Hash := hash;
                     PolicyFileNames := [] |}) in Hout.
    set (s1 := {| OrgPatterns := set_slot (OrgPatterns s) org _ (Some newPE);
                  heap := heap s |}) in Hout.
    destruct (createPolicyFiles_memory org (exchange_GetId patternId) patternId
                policyPath org l s1 newPE) as [Hheap [names Hnames]].
    { subst s1; cbn [OrgPatterns]. now apply entry_at_set_slot. }
    cbn zeta in Hheap, Hnames. unfold wrap in Hout.
    assert (Hslot : forall m,
              m = set_slot (OrgPatterns s1) org (exchange_GetId patternId)
                    (Some (with_files newPE (PolicyFileNames newPE ++ names)%list)) ->
              m = set_slot (OrgPatterns s) org (exchange_GetId patternId)
                    (Some (with_files newPE (PolicyFileNames newPE ++ names)%list))).
    { intros m ->. subst s1; cbn [OrgPatterns]. apply set_slot_set_slot. }
    destruct (createPolicyFiles _ _ _ _ _ s1) as [[[]|c] s2];
      cbn [fst snd] in *; subst out; cbn [fst snd].
    + split; [exact Hheap|]. right. eexists. split; [apply Hslot, Hnames|].
      cbn. split; [reflexivity|]. split; [reflexivity|]. now left.
    + split; [exact Hheap|]. right. eexists. split; [apply Hslot, Hnames|].
      cbn. split; [reflexivity|]. split; [reflexivity|]. right. now exists c.
  - subst out. cbn [fst snd OrgPatterns heap]. split; [reflexivity|]. left.
    split; [reflexivity|]. now exists e0.
Qed.

(** The branch for an entry that is there. *)
Lemma refresh_outcome (org policyPath patternId : string) (l : loc)
    (v : ExPattern) (e0 : PatternEntry) (s : State) :
  heap s !! l = Some v ->
  entry_at (OrgPatterns s) org (exchange_GetId patternId) = Some e0 ->
  heap (refresh org policyPath l patternId e0 s).2 = heap s /\
  (((refresh org policyPath l patternId e0 s) = (Ok tt, s) /\
    hash_of v = Ok (Hash e0)) \/
   (OrgPatterns (refresh org policyPath l patternId e0 s).2 = OrgPatterns s /\
    ((exists c, hash_of v = Err c /\
                (refresh org policyPath l patternId e0 s).1 =
                Err (ErrHashPattern org c)) \/
     (exists hash c, hash_of v = Ok hash /\ hash <> Hash e0 /\
                     (refresh org policyPath l patternId e0 s).1 =
                     Err (ErrDeletePolicyFiles org c)))) \/
   (exists e,
      OrgPatterns (refresh org policyPath l patternId e0 s).2 =
      set_slot (OrgPatterns s) org (exchange_GetId patternId) (Some e) /\
      Pattern e = l /\ hash_of v = Ok (Hash e) /\ Hash e0 <> Hash e /\
      ((refresh org policyPath l patternId e0 s).1 = Ok tt \/
       exists c, (refresh org policyPath l patternId e0 s).1 =
                 Err (ErrCreatePolicyFiles c)))).
Proof.
  intros Hl He0. pose proof (entry_at_has_key _ _ _ _ He0) as Hkey.
  remember (refresh org policyPath l patternId e0 s) as out eqn:Hout.
  unfold refresh in Hout. cbn zeta in Hout. unfold bind at 1, wrap at 1 in Hout.
  rewrite (hashPattern_run l s v Hl) in Hout.
  destruct (hash_of v) as [hash|c] eqn:Hhash.
  2:{ subst out. cbn [fst snd]. split; [reflexivity|]. right; left.
      split; [reflexivity|]. left. now exists c. }
  destruct (bytes_Equal (Hash e0) hash) eqn:Heq.
  { apply bytes_Equal_true in Heq. subst hash out. split; [reflexivity|]. now left. }
  apply bytes_Equal_false in Heq.
  unfold bind at 1, wrap at 1 in Hout.
  destruct (DeleteAllPolicyFiles_memory (org, exchange_GetId patternId)
              policyPath org s) as [Hop1 Hheap1].
  destruct (DeleteAllPolicyFiles _ policyPath org s) as [[[]|c] s1];
    cbn [fst snd] in *.
  2:{ subst out. cbn [fst snd]. split; [exact Hheap1|]. right; left.
      split; [exact Hop1|]. right.
      exists hash, c. split; [reflexivity|]. split; [congruence|reflexivity]. }
  unfold bind at 1 in Hout.
  rewrite UpdateEntry_run in Hout by (rewrite Hop1; exact Hkey).
  set (newE := {| Pattern := l; Updated := _; Hash := hash;
                  PolicyFileNames := [] |}) in Hout.
  set (s2 := {| OrgPatterns := set_slot (OrgPatterns s1) org _ (Some newE);
                heap := heap s1 |}) in Hout.
  destruct (createPolicyFiles_memory org (exchange_GetId patternId) patternId
              policyPath org l s2 newE) as [Hheap [names Hnames]].
  { subst s2; cbn [OrgPatterns]. apply entry_at_set_slot. now rewrite Hop1. }
  cbn zeta in Hheap, Hnames. unfold wrap in Hout.
  assert (Hfinal : forall m,
            m = set_slot (OrgPatterns s2) org (exchange_GetId patternId)
                  (Some (with_files newE (PolicyFileNames newE ++ names)%list)) ->
            m = set_slot (OrgPatterns s) org (exchange_GetId patternId)
                  (Some (with_files newE (PolicyFileNames newE ++ names)%list))).
  { intros m ->. subst s2; cbn [OrgPatterns]. now rewrite set_slot_set_slot, Hop1. }
  assert (Hheap2 : heap s2 = heap s) by (subst s2; cbn [heap]; exact Hheap1).
  destruct (createPolicyFiles _ _ _ _ _ s2) as [[[]|c] s3];
    cbn [fst snd] in *; subst out; cbn [fst snd].
  + split; [congruence|]. right; right.
    eexists. split; [apply Hfinal, Hnames|].
    cbn. split; [reflexivity|]. split; [reflexivity|]. split; [congruence|]. now left.
  + split; [congruence|]. right; right.
    eexists. split; [apply Hfinal, Hnames|].
    cbn. split; [reflexivity|]. split; [reflexivity|]. split; [congruence|].
    right. now exists c.
Qed.

(** One round of the second loop of [UpdatePatternPolicies], for the defined
    pattern [(patternId, v)]: the loop variable takes the value [v], and
    then
    - nothing else happens (the pattern is not served, or its entry has the
      hash of [v]), or
    - the round fails with the map as it was, or
    - the slot of the pattern holds an entry that points to the loop
      variable and carries the hash of [v]; the round may still fail, in the
      creation of the policy files. *)
Lemma update_pattern_outcome (org policyPath patternId : string) (l : loc)
    (v : ExPattern) (s : State) :
  (l <= length (heap s))%nat ->
  let id := exchange_GetId patternId in
  let out := update_pattern org policyPath l (patternId, v) s in
  heap out.2 = store_var l v (heap s) /\
  ((out.1 = Ok tt /\ OrgPatterns out.2 = OrgPatterns s /\
    world out.2 = world s /\ trace out.2 = trace s /\
    (hasPattern s org id = true ->
     exists e0, entry_at (OrgPatterns s) org id = Some e0 /\
                hash_of v = Ok (Hash e0))) \/
   (hasPattern s org id = true /\ OrgPatterns out.2 = OrgPatterns s /\
    ((entry_at (OrgPatterns s) org id = None /\
      exists c, out.1 = Err (ErrCreatePatternEntry c)) \/
     (exists e0 c, entry_at (OrgPatterns s) org id = Some e0 /\
                   hash_of v = Err c /\ out.1 = Err (ErrHashPattern org c)) \/
     (exists e0 hash c, entry_at (OrgPatterns s) org id = Some e0 /\
                        hash_of v = Ok hash /\ hash <> Hash e0 /\
                        out.1 = Err (ErrDeletePolicyFiles org c)))) \/
   (hasPattern s org id = true /\
    exists e,
      OrgPatterns out.2 = set_slot (OrgPatterns s) org id (Some e) /\
      Pattern e = l /\ hash_of v = Ok (Hash e) /\
      (entry_at (OrgPatterns s) org id = None \/
       exists e0, entry_at (OrgPatterns s) org id = Some e0 /\ Hash e0 <> Hash e) /\
      (out.1 = Ok tt \/ exists c, out.1 = Err (ErrCreatePolicyFiles c)))).
Proof.
  intros Hl id out. subst id.
  assert (Hout : out =
            let s1 := {| OrgPatterns := OrgPatterns s;
                         heap := store_var l v (heap s);
                         world := world s; trace := trace s |} in
            if hasPattern s org (exchange_GetId patternId) then
              match entry_at (OrgPatterns s) org (exchange_GetId patternId) with
              | None => materialize org policyPath l patternId s1
              | Some e => refresh org policyPath l patternId e s1
              end
            else (Ok tt, s1)).
  { subst out. unfold update_pattern. cbn [fst snd]. unfold bind at 1.
    rewrite assign_var_run, bind_get. cbn zeta.
    rewrite !hasPattern_has_key. cbn [OrgPatterns].
    destruct (has_key _ _ _); [|reflexivity].
    now destruct (entry_at _ _ _). }
  clearbody out. subst out. cbn zeta.
  set (s1 := {| OrgPatterns := OrgPatterns s; heap := store_var l v (heap s) |}).
  assert (Hv : heap s1 !! l = Some v) by (apply store_var_lookup, Hl).
  destruct (hasPattern s org (exchange_GetId patternId)) eqn:Hserved.
  2:{ split; [reflexivity|]. left. repeat split. discriminate. }
  pose proof Hserved as Hkey. rewrite hasPattern_has_key in Hkey.
  destruct (entry_at (OrgPatterns s) org (exchange_GetId patternId)) as [e0|] eqn:He0.
  - destruct (refresh_outcome org policyPath patternId l v e0 s1 Hv He0)
      as [Hheap [[Hrun Hhash]|[[Hop Herr]|(e & Hop & Hp & Hhash & Hne & Hres)]]].
    + rewrite Hrun. split; [reflexivity|]. left. repeat split.
      intros _. now exists e0.
    + split; [exact Hheap|]. right; left. split; [reflexivity|].
      split; [exact Hop|]. right.
      destruct Herr as [(c & Hc & Hr)|(hash & c & Hh & Hne & Hr)].
      * left. now exists e0, c.
      * right. now exists e0, hash, c.
    + split; [exact Hheap|]. right; right. split; [reflexivity|].
      exists e. split; [exact Hop|]. split; [exact Hp|]. split; [exact Hhash|].
      split; [right; now exists e0 | exact Hres].
  - destruct (materialize_outcome org policyPath patternId l v s1 Hv Hkey)
      as [Hheap [[Hop Herr]|(e & Hop & Hp & Hhash & Hres)]].
    + split; [exact Hheap|]. right; left. split; [reflexivity|].
      split; [exact Hop|]. left. now split.
    + split; [exact Hheap|]. right; right. split; [reflexivity|].
      exists e. split; [exact Hop|]. split; [exact Hp|]. split; [exact Hhash|].
      split; [now left | exact Hres].
Qed.

End PatternManagerBody.

Section PatternManagerLoops.
Import pm.
Context `{PolicyEnv}.

Lemma state_eta (s : State) :
  {| OrgPatterns := OrgPatterns s; heap := heap s; world := world s;
     trace := trace s |} = s.
Proof. now destruct s. Qed.

Lemma found_Permutation (l l' : list (string * ExPattern)) (pattern : string) :
  Permutation l l' -> found l pattern = found l' pattern.
Proof.
  intros Hperm. unfold found.
  destruct (existsb _ l') eqn:Hl'.
  - apply existsb_exists in Hl' as (kv & Hin & Hkv).
    apply existsb_exists. exists kv. split; [|exact Hkv].
    apply (Permutation_in _ (Permutation_sym Hperm) Hin).
  - destruct (existsb _ l) eqn:Hl; [|reflexivity].
    apply existsb_exists in Hl as (kv & Hin & Hkv).
    rewrite <- Hl'. symmetry. apply existsb_exists. exists kv.
    split; [|exact Hkv]. apply (Permutation_in _ Hperm Hin).
Qed.

Lemma found_defined (l : list (string * ExPattern)) patternId v :
  In (patternId, v) l -> found l (exchange_GetId patternId) = true.
Proof.
  intros Hin. apply existsb_exists. exists (patternId, v).
  split; [exact Hin|]. apply String.eqb_refl.
Qed.

(** *** The first loop of [UpdatePatternPolicies] *)

Lemma delete_undefined_never_fails org definedPatterns policyPath visit :
  never_fails (delete_undefined org definedPatterns policyPath visit).
Proof.
  apply never_fails_range_keys. intros pattern.
  destruct (negb _); [apply deletePattern_never_fails | easy].
Qed.

(** When every pattern of the org is defined, the loop does nothing. *)
Lemma delete_undefined_noop org definedPatterns policyPath visit (s : State) :
  all_found org definedPatterns s ->
  delete_undefined org definedPatterns policyPath visit s = (Ok tt, s).
Proof.
  intros Hall. unfold delete_undefined.
  induction visit as [|k visit IH]; [reflexivity|].
  cbn [range_keys]. unfold bind at 1. rewrite bind_get.
  destruct (hasPattern s org k) eqn:Hk; [|exact IH].
  rewrite (Hall k Hk). exact IH.
Qed.

(** The loop leaves the memory alone, and a pattern that it came by and
    left in the map is defined. *)
Lemma delete_undefined_keys org definedPatterns policyPath visit (s : State) :
  heap (delete_undefined org definedPatterns policyPath visit s).2 = heap s /\
  forall pattern,
    hasPattern (delete_undefined org definedPatterns policyPath visit s).2
      org pattern = true ->
    hasPattern s org pattern = true /\
    (In pattern visit -> found definedPatterns pattern = true).
Proof.
  unfold delete_undefined. revert s.
  induction visit as [|k visit IH]; intros s.
  - split; [reflexivity|]. intros pattern Hp. split; [exact Hp | intros []].
  - cbn [range_keys]. unfold bind at 1 3. rewrite !bind_get.
    destruct (hasPattern s org k) eqn:Hk;
      [destruct (found definedPatterns k) eqn:Hfound|]; cbn [negb].
    + destruct (IH s) as [Hheap Hkeys]. split; [exact Hheap|].
      intros pattern Hp. destruct (Hkeys pattern Hp) as [Hs Hv].
      split; [exact Hs|]. intros [<-|Hin]; [exact Hfound | now apply Hv].
    + rewrite deletePattern_run.
      match goal with |- context [range_keys visit _ _ ?s1] =>
        destruct (IH s1) as [Hheap Hkeys] end.
      split; [exact Hheap|].
      intros pattern Hp. destruct (Hkeys pattern Hp) as [Hs Hv].
      rewrite hasPattern_has_key in Hs. cbn [OrgPatterns] in Hs.
      rewrite has_key_without_pattern in Hs.
      destruct (decide (k = pattern)) as [<-|Hne]; [discriminate|].
      split; [now rewrite hasPattern_has_key|].
      intros [Heq|Hin]; [contradiction | now apply Hv].
    + destruct (IH s) as [Hheap Hkeys]. split; [exact Hheap|].
      intros pattern Hp. destruct (Hkeys pattern Hp) as [Hs Hv].
      split; [exact Hs|]. intros [<-|Hin]; [congruence | now apply Hv].
Qed.

(** *** The second loop of [UpdatePatternPolicies] *)

Lemma store_var_ge (l : loc) (v : ExPattern) (h : list ExPattern) :
  (l <= length h)%nat -> (l <= length (store_var l v h))%nat.
Proof. intros Hl. pose proof (store_var_length l v h Hl). lia. Qed.

(** A round of the loop changes no key of the map. *)
Lemma update_pattern_keys org policyPath l kv (s : State) :
  (l <= length (heap s))%nat ->
  (l <= length (heap (update_pattern org policyPath l kv s).2))%nat /\
  forall o k,
    hasPattern (update_pattern org policyPath l kv s).2 o k = hasPattern s o k.
Proof.
  intros Hl. destruct kv as [patternId v].
  destruct (update_pattern_outcome org policyPath patternId l v s Hl)
    as [Hheap Hcases]. cbn zeta in *.
  split; [rewrite Hheap; now apply store_var_ge|].
  intros o k. rewrite !hasPattern_has_key.
  destruct Hcases as [(_ & Hop & _)|[(_ & Hop & _)|(Hserved & e & Hop & _)]];
    rewrite Hop; [reflexivity | reflexivity |].
  apply has_key_set_slot. now rewrite <- hasPattern_has_key.
Qed.

Lemma update_loop_keys org policyPath l definedPatterns (s : State) :
  (l <= length (heap s))%nat ->
  forall o k,
    hasPattern (for_each definedPatterns (update_pattern org policyPath l) s).2 o k =
    hasPattern s o k.
Proof.
  revert s. induction definedPatterns as [|kv rest IH]; intros s Hl o k;
    [reflexivity|].
  cbn [for_each]. unfold bind.
  destruct (update_pattern_keys org policyPath l kv s Hl) as [Hl1 Hkeys].
  destruct (update_pattern org policyPath l kv s) as [[[]|e] s1]; cbn [fst snd] in *.
  - rewrite IH by exact Hl1. apply Hkeys.
  - apply Hkeys.
Qed.

(** When the hash of every served defined pattern is the stored one, the
    loop only writes to its loop variable. *)
Lemma update_loop_noop org policyPath l definedPatterns (s : State) :
  (l <= length (heap s))%nat ->
  hashes_current org definedPatterns s ->
  exists h,
    for_each definedPatterns (update_pattern org policyPath l) s =
    (Ok tt, {| OrgPatterns := OrgPatterns s; heap := h; world := world s;
               trace := trace s |}) /\
    (l <= length h)%nat /\
    forall i, (i < l)%nat -> h !! i = heap s !! i.
Proof.
  revert s. induction definedPatterns as [|[patternId v] rest IH]; intros s Hl Hcur.
  - exists (heap s). cbn [for_each]. unfold ret. rewrite state_eta. now split.
  - cbn [for_each]. unfold bind.
    destruct (update_pattern_outcome org policyPath patternId l v s Hl)
      as [Hheap Hcases]. cbn zeta in *.
    assert (Hthis : hasPattern s org (exchange_GetId patternId) = true ->
                    exists e, entry_at (OrgPatterns s) org
                                (exchange_GetId patternId) = Some e /\
                              hash_of v = Ok (Hash e)).
    { apply Hcur. now left. }
    destruct (update_pattern org policyPath l (patternId, v) s) as [r s1];
      cbn [fst snd] in *.
    destruct Hcases as [(-> & Hop & Hw & Htr & _)|
                        [(Hserved & _ & Herr)|(Hserved & e & _ & _ & Hhash & Hold & _)]].
    + destruct (IH s1) as (h & Hrun & Hlen & Hbelow).
      { rewrite Hheap. now apply store_var_ge. }
      { intros pid p Hin Hserved. rewrite hasPattern_has_key, Hop in Hserved.
        rewrite Hop. apply (Hcur pid p); [now right|].
        now rewrite hasPattern_has_key. }
      exists h. rewrite Hrun, Hop, Hw, Htr. split; [reflexivity|].
      split; [exact Hlen|]. intros i Hi. rewrite (Hbelow i Hi), Hheap.
      now apply store_var_below.
    + exfalso. destruct (Hthis Hserved) as (e0 & He0 & Hh0).
      destruct Herr as [[Hnone _]|[(e1 & c & _ & Hc & _)|(e1 & hash & c & He1 & Hh & Hne & _)]];
        congruence.
    + exfalso. destruct (Hthis Hserved) as (e0 & He0 & Hh0).
      destruct Hold as [Hnone|(e1 & He1 & Hne)]; congruence.
Qed.

End PatternManagerLoops.

Section SetCurrentPatternsFacts.
Import pm.
Context `{PolicyEnv}.

Lemma serve_org (s : State) m (served : exchange.ServedPattern) :
  is_Some (serve s m served !! exchange.Org served).
Proof.
  unfold serve. destruct (m !! exchange.Org served) as [orgMap|] eqn:Horg.
  - rewrite Horg, lookup_insert_eq. eauto.
  - rewrite lookup_insert_eq, lookup_insert_eq. eauto.
Qed.

Lemma serve_keeps_org (s : State) m (served : exchange.ServedPattern) org :
  is_Some (m !! org) -> is_Some (serve s m served !! org).
Proof.
  intros Hsome.
  destruct (decide (exchange.Org served = org)) as [<-|Hne]; [apply serve_org|].
  unfold serve. destruct (m !! exchange.Org served) as [orgMap|] eqn:Horg.
  - rewrite Horg. now rewrite lookup_insert_ne.
  - rewrite lookup_insert_eq. now rewrite !lookup_insert_ne.
Qed.

Lemma served_orgs_kept (s : State)
    (servedPatterns : list (string * exchange.ServedPattern)) m org :
  is_Some (m !! org) ->
  is_Some (fold_left (fun m kv => serve s m kv.2) servedPatterns m !! org).
Proof.
  revert m. induction servedPatterns as [|kv rest IH]; intros m Hsome; [exact Hsome|].
  cbn [fold_left]. apply IH. now apply serve_keeps_org.
Qed.

Lemma served_orgs (s : State)
    (servedPatterns : list (string * exchange.ServedPattern)) m key served :
  In (key, served) servedPatterns ->
  is_Some (fold_left (fun m kv => serve s m kv.2) servedPatterns m
             !! exchange.Org served).
Proof.
  revert m. induction servedPatterns as [|kv rest IH]; intros m; [intros []|].
  intros [->|Hin]; cbn [fold_left].
  - apply served_orgs_kept. apply serve_org.
  - now apply IH.
Qed.

(** With patterns to serve, [SetCurrentPatterns] ends by making the new map
    the map of the pattern manager. *)
Lemma SetCurrentPatterns_OrgPatterns servedPatterns policyPath visit_orgs
    visit_patterns (s : State) :
  servedPatterns <> [] ->
  OrgPatterns (SetCurrentPatterns servedPatterns policyPath visit_orgs
                 visit_patterns s).2 =
  fold_left (fun m kv => serve s m kv.2) servedPatterns ∅.
Proof.
  intros Hne.
  pose proof (SetCurrentPatterns_never_fails servedPatterns policyPath visit_orgs
                visit_patterns s) as Hok.
  unfold SetCurrentPatterns in *. rewrite bind_get in *.
  destruct servedPatterns as [|kv rest]; [contradiction|].
  cbn [length Nat.eqb] in *. rewrite andb_false_r in *.
  unfold bind in *.
  match goal with |- context [range_keys ?v ?p ?b s] =>
    destruct (range_keys v p b s) as [[[]|e] s1] end;
    cbn [fst snd] in *; [reflexivity | discriminate].
Qed.

End SetCurrentPatternsFacts.

(* --------------------------------------------------------------------- *)
(** ** The pattern manager: the claims                                     *)
(* --------------------------------------------------------------------- *)

Section PatternManagerClaims.
Import pm.
Context `{PolicyEnv}.

(** [UpdatePatternPolicies] once the org is known and patterns are
    defined. *)
Lemma UpdatePatternPolicies_run org definedPatterns policyPath visit (s : State) :
  hasOrg s org = true -> definedPatterns <> [] ->
  UpdatePatternPolicies org definedPatterns policyPath visit s =
  for_each definedPatterns
    (update_pattern org policyPath
       (length (heap (delete_undefined org definedPatterns policyPath visit s).2)))
    (delete_undefined org definedPatterns policyPath visit s).2.
Proof.
  intros Horg Hdef. unfold UpdatePatternPolicies. rewrite bind_get, Horg.
  cbn [negb]. destruct definedPatterns as [|kv rest]; [contradiction|].
  cbn [length Nat.eqb]. unfold bind at 1.
  pose proof (delete_undefined_never_fails org (kv :: rest) policyPath visit s) as Hok.
  destruct (delete_undefined org (kv :: rest) policyPath visit s) as [[[]|e] s1];
    cbn [fst snd] in *; [|discriminate].
  now rewrite bind_get.
Qed.

(** After a pass in which the first loop came by every pattern of the org,
    every pattern of the org is defined; and without defined patterns the
    org is gone. *)
Lemma UpdatePatternPolicies_all_found org definedPatterns policyPath visit
    (s : State) :
  (forall pattern, hasPattern s org pattern = true -> In pattern visit) ->
  all_found org definedPatterns
    (UpdatePatternPolicies org definedPatterns policyPath visit s).2 /\
  (definedPatterns = [] ->
   hasOrg (UpdatePatternPolicies org definedPatterns policyPath visit s).2 org = false).
Proof.
  intros Hvisit.
  destruct (hasOrg s org) eqn:Horg.
  2:{ assert (Hrun : UpdatePatternPolicies org definedPatterns policyPath visit s =
                     (Err (ErrOrgNotFound org), s)).
      { unfold UpdatePatternPolicies. now rewrite bind_get, Horg. }
      rewrite Hrun. cbn [snd]. split; [|intros _; exact Horg].
      intros pattern Hp. unfold hasPattern in Hp. now rewrite Horg in Hp. }
  destruct definedPatterns as [|kv rest].
  - assert (Hrun : UpdatePatternPolicies org [] policyPath visit s =
                   deleteOrg policyPath org s).
    { unfold UpdatePatternPolicies. now rewrite bind_get, Horg. }
    rewrite Hrun, deleteOrg_run. cbn [snd].
    assert (Hgone : forall s', OrgPatterns s' = delete org (OrgPatterns s) ->
                               hasOrg s' org = false).
    { intros s' Hs'. unfold hasOrg. now rewrite Hs', lookup_delete_eq. }
    split; [|intros _; now apply Hgone].
    intros pattern Hp. unfold hasPattern in Hp. now rewrite Hgone in Hp.
  - split; [|discriminate].
    rewrite UpdatePatternPolicies_run by easy.
    destruct (delete_undefined_keys org (kv :: rest) policyPath visit s)
      as [Hheap Hkeys].
    intros pattern Hp. rewrite update_loop_keys in Hp by lia.
    destruct (Hkeys pattern Hp) as [Hs Hv]. apply Hv, Hvisit, Hs.
Qed.

(** C2: a second pass of [UpdatePatternPolicies] with the same org and the
    same defined patterns (in whatever order the loops of either pass come
    by the maps), such that for every served defined pattern the recomputed
    hash is the stored one, calls no deletion and no creation of policy
    files (it causes no event at all), leaves the world of the policy
    directory as it is and leaves every entry of the map, and every pattern
    an entry points to, unchanged. *)
Theorem UpdatePatternPolicies_idempotent (org : string)
    (definedPatterns definedPatterns' : list (string * ExPattern))
    (policyPath : string) (visit visit' : list string) (s : State) :
  Permutation definedPatterns definedPatterns' ->
  (forall pattern, hasPattern s org pattern = true -> In pattern visit) ->
  let s1 := (UpdatePatternPolicies org definedPatterns policyPath visit s).2 in
  hashes_current org definedPatterns s1 ->
  let out := UpdatePatternPolicies org definedPatterns' policyPath visit' s1 in
  trace out.2 = trace s1 /\
  world out.2 = world s1 /\
  OrgPatterns out.2 = OrgPatterns s1 /\
  (forall i, (i < length (heap s1))%nat -> heap out.2 !! i = heap s1 !! i) /\
  (out.1 = Ok tt \/ out.1 = Err (ErrOrgNotFound org)).
Proof.
  intros Hperm Hvisit s1 Hcur out.
  destruct (UpdatePatternPolicies_all_found org definedPatterns policyPath visit
              s Hvisit) as [Hall Hempty].
  fold s1 in Hall, Hempty. clearbody s1. subst out.
  destruct (hasOrg s1 org) eqn:Horg.
  2:{ assert (Hrun : UpdatePatternPolicies org definedPatterns' policyPath visit' s1 =
                     (Err (ErrOrgNotFound org), s1)).
      { unfold UpdatePatternPolicies. now rewrite bind_get, Horg. }
      rewrite Hrun. cbn [fst snd]. repeat split; auto. }
  assert (Hdef' : definedPatterns' <> []).
  { intros ->. apply Permutation_sym, Permutation_nil in Hperm.
    discriminate (Hempty Hperm). }
  rewrite UpdatePatternPolicies_run by easy.
  rewrite delete_undefined_noop.
  2:{ intros pattern Hp. rewrite <- (found_Permutation _ _ _ Hperm). now apply Hall. }
  cbn [snd].
  destruct (update_loop_noop org policyPath (length (heap s1)) definedPatterns' s1)
    as (h & Hrun & Hlen & Hbelow); [lia| |].
  { intros pid p Hin. apply Hcur.
    apply (Permutation_in _ (Permutation_sym Hperm) Hin). }
  rewrite Hrun. cbn [fst snd trace world OrgPatterns heap].
  repeat split; auto.
Qed.

(** C10: [UpdatePatternPolicies] for an org that is not in the map returns
    the "org not found" error at once and leaves the whole state (map,
    memory, policy directory, events) as it was; the org gets into the map
    by a [SetCurrentPatterns] that is given a served pattern of that org. *)
Theorem UpdatePatternPolicies_unknown_org (org : string)
    (definedPatterns : list (string * ExPattern)) (policyPath : string)
    (visit : list string) (s : State) :
  (hasOrg s org = false ->
   UpdatePatternPolicies org definedPatterns policyPath visit s =
   (Err (ErrOrgNotFound org), s)) /\
  (forall servedPatterns visit_orgs visit_patterns key served,
     In (key, served) servedPatterns -> exchange.Org served = org ->
     hasOrg (SetCurrentPatterns servedPatterns policyPath visit_orgs
               visit_patterns s).2 org = true).
Proof.
  split.
  - intros Horg. unfold UpdatePatternPolicies. now rewrite bind_get, Horg.
  - intros servedPatterns visit_orgs visit_patterns key served Hin <-.
    unfold hasOrg. rewrite SetCurrentPatterns_OrgPatterns.
    + destruct (served_orgs s servedPatterns ∅ key served Hin) as [orgMap ->].
      reflexivity.
    + intros ->. destruct Hin.
Qed.

End PatternManagerClaims.

Section PatternManagerErrors.
Import pm.
Context `{PolicyEnv}.

Lemma update_loop_length org policyPath l definedPatterns (s : State) :
  (l <= length (heap s))%nat ->
  (l <= length (heap (for_each definedPatterns
                        (update_pattern org policyPath l) s).2))%nat.
Proof.
  revert s. induction definedPatterns as [|kv rest IH]; intros s Hl; [exact Hl|].
  cbn [for_each]. unfold bind.
  destruct (update_pattern_keys org policyPath l kv s Hl) as [Hl1 _].
  destruct (update_pattern org policyPath l kv s) as [[[]|e] s1]; cbn [fst snd] in *.
  - now apply IH.
  - exact Hl1.
Qed.

(** A pass that returns an error other than "org not found" returns it from
    a round of its second loop: the round of some defined pattern, begun in
    a state whose memory holds the loop variable or ends where it will
    be. *)
Lemma UpdatePatternPolicies_error org definedPatterns policyPath visit
    (s : State) e s' :
  UpdatePatternPolicies org definedPatterns policyPath visit s = (Err e, s') ->
  e <> ErrOrgNotFound org ->
  exists patternId v s1,
    In (patternId, v) definedPatterns /\
    (length (heap s) <= length (heap s1))%nat /\
    update_pattern org policyPath (length (heap s)) (patternId, v) s1 = (Err e, s').
Proof.
  intros Hrun Hne.
  destruct (hasOrg s org) eqn:Horg.
  2:{ unfold UpdatePatternPolicies in Hrun. rewrite bind_get, Horg in Hrun.
      injection Hrun as <- <-. contradiction. }
  destruct definedPatterns as [|kv rest].
  { unfold UpdatePatternPolicies in Hrun. rewrite bind_get, Horg in Hrun.
    cbn [negb length Nat.eqb] in Hrun. rewrite deleteOrg_run in Hrun. discriminate. }
  rewrite UpdatePatternPolicies_run in Hrun by easy.
  destruct (delete_undefined_keys org (kv :: rest) policyPath visit s) as [Hheap _].
  rewrite Hheap in Hrun.
  apply for_each_error in Hrun as (pre & [patternId v] & post & s1 & Hsplit & Hpre & Hx).
  exists patternId, v, s1. split; [rewrite Hsplit; apply in_elt|].
  split; [|exact Hx].
  pose proof (update_loop_length org policyPath (length (heap s)) pre
                (delete_undefined org (kv :: rest) policyPath visit s).2) as Hlen.
  rewrite Hpre in Hlen. cbn [snd] in Hlen. apply Hlen. rewrite Hheap. lia.
Qed.

Lemma for_each_cons {A} (x : A) (l : list A) (body : A -> M unit) (s : State) :
  for_each (x :: l) body s =
  match body x s with
  | (Ok _, s1) => for_each l body s1
  | (Err e, s1) => (Err e, s1)
  end.
Proof. reflexivity. Qed.

Lemma for_each_app {A} (l1 l2 : list A) (body : A -> M unit) (s : State) :
  for_each (l1 ++ l2) body s =
  match for_each l1 body s with
  | (Ok _, s1) => for_each l2 body s1
  | (Err e, s1) => (Err e, s1)
  end.
Proof.
  revert s. induction l1 as [|x l1 IH]; intros s; [reflexivity|].
  cbn [app]. rewrite !for_each_cons.
  destruct (body x s) as [[[]|e] s1]; [apply IH | reflexivity].
Qed.

Lemma wrap_run {A} (f : error -> error) (m : M A) (s : State) :
  wrap f m s =
  (match (m s).1 with Ok a => Ok a | Err e => Err (f e) end, (m s).2).
Proof. unfold wrap. now destruct (m s) as [[a|e] s']. Qed.

Lemma bind_run {A B} (m : M A) (k : A -> M B) (s : State) :
  bind m k s =
  match (m s).1 with
  | Ok a => k a (m s).2
  | Err e => (Err e, (m s).2)
  end.
Proof. unfold bind. now destruct (m s) as [[a|e] s']. Qed.

(** *** Deleting the files of an entry *)

Lemma delete_one_run (fileName : string) (s : State) :
  (emit (DeletePolicyFile fileName) ;;;
   err <~ call (policy_DeletePolicyFile fileName) ;;
   match err with
   | Some err => fail err
   | None => ret tt
   end) s =
  (match (policy_DeletePolicyFile fileName (world s)).1 with
   | Some err => Err err
   | None => Ok tt
   end,
   {| OrgPatterns := OrgPatterns s; heap := heap s;
      world := (policy_DeletePolicyFile fileName (world s)).2;
      trace := (trace s ++ [DeletePolicyFile fileName])%list |}).
Proof.
  unfold bind, emit, call. cbn [world].
  destruct (policy_DeletePolicyFile fileName (world s)) as [[err|] w]; reflexivity.
Qed.

Lemma delete_loop_all (files : list string) (s : State) (w' : World) :
  all_deleted (world s) files w' ->
  for_each files (fun fileName =>
    emit (DeletePolicyFile fileName) ;;;
    err <~ call (policy_DeletePolicyFile fileName) ;;
    match err with
    | Some err => fail err
    | None => ret tt
    end) s =
  (Ok tt, {| OrgPatterns := OrgPatterns s; heap := heap s; world := w';
             trace := (trace s ++ map DeletePolicyFile files)%list |}).
Proof.
  revert s. induction files as [|fileName files IH]; intros s Hall.
  - inversion Hall; subst. cbn [for_each map]. rewrite app_nil_r.
    unfold ret. now rewrite state_eta.
  - inversion Hall as [|w0 f w1 fs w2 Hdel Hrest]; subst.
    rewrite for_each_cons, delete_one_run, Hdel. cbn [fst snd].
    rewrite IH by (cbn [world]; exact Hrest).
    cbn [OrgPatterns heap trace map]. now rewrite <- app_assoc.
Qed.

Lemma delete_loop_fails (files done : list string) (fileName : string)
    (err : error) (s : State) (w' : World) :
  deletion_fails (world s) files done fileName err w' ->
  for_each files (fun fileName =>
    emit (DeletePolicyFile fileName) ;;;
    err <~ call (policy_DeletePolicyFile fileName) ;;
    match err with
    | Some err => fail err
    | None => ret tt
    end) s =
  (Err err, {| OrgPatterns := OrgPatterns s; heap := heap s; world := w';
               trace := (trace s ++ map DeletePolicyFile (done ++ [fileName]))%list |}).
Proof.
  intros (rest & w1 & -> & Hdone & Hfail).
  rewrite for_each_app, (delete_loop_all done s w1 Hdone).
  rewrite for_each_cons, delete_one_run. cbn [world]. rewrite Hfail.
  cbn [fst snd OrgPatterns heap trace]. rewrite map_app, app_assoc. reflexivity.
Qed.

(** Deleting files in turn either succeeds for all of them or fails at a
    first one. *)
Lemma deletion_outcomes (files : list string) (w : World) :
  (exists w', all_deleted w files w') \/
  (exists done fileName err w', deletion_fails w files done fileName err w').
Proof.
  revert w. induction files as [|f files IH]; intros w.
  - left. exists w. constructor.
  - destruct (policy_DeletePolicyFile f w) as [[err|] w1] eqn:Hdel.
    + right. exists [], f, err, w1, files, w. repeat split; [constructor | exact Hdel].
    + destruct (IH w1) as [(w' & Hall)|(done & g & err & w' & rest & w2 & -> & Hd & Hf)].
      * left. exists w'. econstructor; eassumption.
      * right. exists (f :: done), g, err, w', rest, w2.
        split; [reflexivity|]. split; [econstructor; eassumption | exact Hf].
Qed.

Lemma DeleteAllPolicyFiles_loop (org pattern policyPath porg : string)
    (e : PatternEntry) (s : State) :
  entry_at (OrgPatterns s) org pattern = Some e ->
  DeleteAllPolicyFiles (org, pattern) policyPath porg s =
  for_each (PolicyFileNames e) (fun fileName =>
    emit (DeletePolicyFile fileName) ;;;
    err <~ call (policy_DeletePolicyFile fileName) ;;
    match err with
    | Some err => fail err
    | None => ret tt
    end) s.
Proof.
  intros He. unfold DeleteAllPolicyFiles, load_entry. unfold bind at 1.
  rewrite bind_get. cbn [fst snd]. rewrite He. reflexivity.
Qed.

Lemma DeleteAllPolicyFiles_all (org pattern policyPath porg : string)
    (e : PatternEntry) (s : State) (w' : World) :
  entry_at (OrgPatterns s) org pattern = Some e ->
  all_deleted (world s) (PolicyFileNames e) w' ->
  DeleteAllPolicyFiles (org, pattern) policyPath porg s =
  (Ok tt, {| OrgPatterns := OrgPatterns s; heap := heap s; world := w';
             trace := (trace s ++ map DeletePolicyFile (PolicyFileNames e))%list |}).
Proof.
  intros He Hall. rewrite (DeleteAllPolicyFiles_loop _ _ _ _ e s He).
  now apply delete_loop_all.
Qed.

Lemma DeleteAllPolicyFiles_fails (org pattern policyPath porg : string)
    (e : PatternEntry) (s : State) (done : list string) (fileName : string)
    (err : error) (w' : World) :
  entry_at (OrgPatterns s) org pattern = Some e ->
  deletion_fails (world s) (PolicyFileNames e) done fileName err w' ->
  DeleteAllPolicyFiles (org, pattern) policyPath porg s =
  (Err err, {| OrgPatterns := OrgPatterns s; heap := heap s; world := w';
               trace := (trace s ++ map DeletePolicyFile (done ++ [fileName]))%list |}).
Proof.
  intros He Hfail. rewrite (DeleteAllPolicyFiles_loop _ _ _ _ e s He).
  now apply delete_loop_fails.
Qed.

(** *** Creating the files of an entry *)

Lemma create_one_run (org pattern policyPath porg : string) (pol : Policy)
    (s : State) (e : PatternEntry) :
  entry_at (OrgPatterns s) org pattern = Some e ->
  create_one (org, pattern) policyPath porg pol s =
  match policy_CreatePolicyFile policyPath porg (Header_Name pol) pol (world s) with
  | (Ok fileName, w) =>
      (Ok tt,
       {| OrgPatterns :=
            set_slot (OrgPatterns s) org pattern
              (Some (with_files e (PolicyFileNames e ++ [fileName])%list));
          heap := heap s; world := w;
          trace := (trace s ++
                    [CreatePolicyFile policyPath porg (Header_Name pol) pol])%list |})
  | (Err err, w) =>
      (Err (ErrCreatePolicyFile err),
       {| OrgPatterns := OrgPatterns s; heap := heap s; world := w;
          trace := (trace s ++
                    [CreatePolicyFile policyPath porg (Header_Name pol) pol])%list |})
  end.
Proof.
  intros He. unfold create_one, bind, emit, call. cbn [world].
  destruct (policy_CreatePolicyFile policyPath porg (Header_Name pol) pol (world s))
    as [[fileName|err] w].
  - now erewrite AddPolicyFileName_run by (cbn [OrgPatterns]; exact He).
  - reflexivity.
Qed.

Lemma with_files_same (e : PatternEntry) :
  with_files e (PolicyFileNames e ++ [])%list = e.
Proof. rewrite app_nil_r. now destruct e. Qed.

Lemma create_loop_all (org pattern policyPath porg : string)
    (policies : list Policy) (names : list string) (s : State)
    (e : PatternEntry) (w' : World) :
  entry_at (OrgPatterns s) org pattern = Some e ->
  all_created policyPath porg (world s) policies names w' ->
  for_each policies (create_one (org, pattern) policyPath porg) s =
  (Ok tt,
   {| OrgPatterns :=
        set_slot (OrgPatterns s) org pattern
          (Some (with_files e (PolicyFileNames e ++ names)%list));
      heap := heap s; world := w';
      trace := (trace s ++ creations policyPath porg policies)%list |}).
Proof.
  revert names s e. induction policies as [|pol policies IH]; intros names s e He Hall.
  - inversion Hall; subst. cbn [for_each creations map].
    rewrite with_files_same, (set_slot_same _ _ _ _ He), app_nil_r.
    unfold ret. now rewrite state_eta.
  - inversion Hall as [|w0 p fileName w1 ps ns w2 Hcr Hrest]; subst.
    rewrite for_each_cons, (create_one_run _ _ _ _ _ _ e He), Hcr.
    erewrite IH; [| |cbn [world]; exact Hrest].
    2:{ cbn [OrgPatterns]. apply entry_at_set_slot. now apply entry_at_has_key in He. }
    cbn [OrgPatterns heap trace]. rewrite set_slot_set_slot.
    unfold with_files, creations. cbn [Pattern Updated Hash PolicyFileNames map].
    now rewrite <- !app_assoc.
Qed.

Lemma createPolicyFiles_all (org pattern patternId policyPath porg : string)
    (l : loc) (v : ExPattern) (policies : list Policy) (names : list string)
    (e : PatternEntry) (s : State) (w' : World) :
  entry_at (OrgPatterns s) org pattern = Some e ->
  heap s !! l = Some v ->
  exchange_ConvertToPolicies patternId v = Ok policies ->
  all_created policyPath porg (world s) policies names w' ->
  createPolicyFiles (org, pattern) patternId l policyPath porg s =
  (Ok tt,
   {| OrgPatterns :=
        set_slot (OrgPatterns s) org pattern
          (Some (with_files e (PolicyFileNames e ++ names)%list));
      heap := heap s; world := w';
      trace := (trace s ++ creations policyPath porg policies)%list |}).
Proof.
  intros He Hv Hconv Hall. unfold createPolicyFiles. rewrite bind_get, Hv, Hconv.
  now apply create_loop_all.
Qed.

Lemma createPolicyFiles_fails (org pattern patternId policyPath porg : string)
    (l : loc) (v : ExPattern) (tried : list Policy) (names : list string)
    (err : error) (e : PatternEntry) (s : State) (w' : World) :
  entry_at (OrgPatterns s) org pattern = Some e ->
  heap s !! l = Some v ->
  creation_fails policyPath porg patternId v (world s) tried names err w' ->
  createPolicyFiles (org, pattern) patternId l policyPath porg s =
  (Err err,
   {| OrgPatterns :=
        set_slot (OrgPatterns s) org pattern
          (Some (with_files e (PolicyFileNames e ++ names)%list));
      heap := heap s; world := w';
      trace := (trace s ++ creations policyPath porg tried)%list |}).
Proof.
  intros He Hv Hfail. unfold createPolicyFiles. rewrite bind_get, Hv.
  destruct Hfail as [err Hconv|policies done pol rest names w1 err w' Hconv -> Hdone Hcr].
  - rewrite Hconv. unfold fail. cbn [creations map].
    rewrite with_files_same, (set_slot_same _ _ _ _ He), app_nil_r.
    now rewrite state_eta.
  - rewrite Hconv, for_each_app.
    rewrite (create_loop_all _ _ _ _ done names s e w1 He Hdone).
    rewrite for_each_cons.
    erewrite create_one_run.
    2:{ cbn [OrgPatterns]. apply entry_at_set_slot. now apply entry_at_has_key in He. }
    cbn [world]. rewrite Hcr. cbn [OrgPatterns heap trace].
    unfold creations. rewrite map_app, app_assoc. reflexivity.
Qed.

(** Creating the files of a pattern either succeeds for all its policies or
    fails. *)
Lemma creation_outcomes (policyPath org patternId : string) (v : ExPattern)
    (w : World) :
  (exists policies names w',
     exchange_ConvertToPolicies patternId v = Ok policies /\
     all_created policyPath org w policies names w') \/
  (exists tried names err w',
     creation_fails policyPath org patternId v w tried names err w').
Proof.
  destruct (exchange_ConvertToPolicies patternId v) as [policies|err] eqn:Hconv.
  2:{ right. exists [], [], (ErrConvertToPolicies err), w. now constructor. }
  assert (Hloop : forall w,
            (exists names w', all_created policyPath org w policies names w') \/
            (exists done pol rest names w1 err w',
               policies = (done ++ pol :: rest)%list /\
               all_created policyPath org w done names w1 /\
               policy_CreatePolicyFile policyPath org (Header_Name pol) pol w1 =
                 (Err err, w'))).
  { clear. induction policies as [|pol policies IH]; intros w.
    - left. exists [], w. constructor.
    - destruct (policy_CreatePolicyFile policyPath org (Header_Name pol) pol w)
        as [[fileName|err] w1] eqn:Hcr.
      + destruct (IH w1) as [(names & w' & Hall)|
                             (done & p & rest & names & w2 & err & w' & -> & Hd & Hf)].
        * left. exists (fileName :: names), w'. econstructor; eassumption.
        * right. exists (pol :: done), p, rest, (fileName :: names), w2, err, w'.
          split; [reflexivity|]. split; [econstructor; eassumption | exact Hf].
      + right. exists [], pol, policies, [], w, err, w1.
        split; [reflexivity|]. split; [constructor | exact Hcr]. }
  destruct (Hloop w) as [(names & w' & Hall)|
                         (done & pol & rest & names & w1 & err & w' & Hp & Hd & Hf)].
  - left. now exists policies, names, w'.
  - right. exists (done ++ [pol])%list, names, (ErrCreatePolicyFile err), w'.
    econstructor; eassumption.
Qed.

(** *** A round of the second loop in which a deletion or a creation fails *)

Lemma update_pattern_served org policyPath l patternId v (s : State) :
  hasPattern s org (exchange_GetId patternId) = true ->
  update_pattern org policyPath l (patternId, v) s =
  match entry_at (OrgPatterns s) org (exchange_GetId patternId) with
  | None =>
      materialize org policyPath l patternId
        {| OrgPatterns := OrgPatterns s; heap := store_var l v (heap s);
           world := world s; trace := trace s |}
  | Some e =>
      refresh org policyPath l patternId e
        {| OrgPatterns := OrgPatterns s; heap := store_var l v (heap s);
           world := world s; trace := trace s |}
  end.
Proof.
  intros Hs. unfold update_pattern. cbn [fst snd]. unfold bind at 1.
  rewrite assign_var_run. rewrite bind_get.
  rewrite !hasPattern_has_key in *. cbn [OrgPatterns]. rewrite Hs.
  now destruct (entry_at (OrgPatterns s) org (exchange_GetId patternId)).
Qed.

Lemma bytes_Equal_ne (a b : list byte) : a <> b -> bytes_Equal a b = false.
Proof.
  intros Hne. destruct (bytes_Equal a b) eqn:Heq; [|reflexivity].
  apply bytes_Equal_true in Heq. contradiction.
Qed.

Lemma refresh_deletion_fails org policyPath l patternId v e0 hash done fileName
    err w' (s : State) :
  heap s !! l = Some v ->
  entry_at (OrgPatterns s) org (exchange_GetId patternId) = Some e0 ->
  hash_of v = Ok hash -> hash <> Hash e0 ->
  deletion_fails (world s) (PolicyFileNames e0) done fileName err w' ->
  refresh org policyPath l patternId e0 s =
  (Err (ErrDeletePolicyFiles org err),
   {| OrgPatterns := OrgPatterns s; heap := heap s; world := w';
      trace := (trace s ++ map DeletePolicyFile (done ++ [fileName]))%list |}).
Proof.
  intros Hv He0 Hhash Hne Hfail. unfold refresh.
  rewrite bind_run, wrap_run, (hashPattern_run l s v Hv), Hhash. cbn [fst snd].
  rewrite bytes_Equal_ne by congruence.
  rewrite bind_run, wrap_run.
  rewrite (DeleteAllPolicyFiles_fails _ _ _ _ e0 s done fileName err w' He0 Hfail).
  reflexivity.
Qed.

Lemma refresh_creation_fails org policyPath l patternId v e0 hash w1 tried names
    err w' (s : State) :
  heap s !! l = Some v ->
  entry_at (OrgPatterns s) org (exchange_GetId patternId) = Some e0 ->
  hash_of v = Ok hash -> hash <> Hash e0 ->
  all_deleted (world s) (PolicyFileNames e0) w1 ->
  creation_fails policyPath org patternId v (time_Now_Unix w1).2 tried names err w' ->
  refresh org policyPath l patternId e0 s =
  (Err (ErrCreatePolicyFiles err),
   {| OrgPatterns :=
        set_slot (OrgPatterns s) org (exchange_GetId patternId)
          (Some {| Pattern := l; Updated := uint64_of_int64 (time_Now_Unix w1).1;
                   Hash := hash; PolicyFileNames := names |});
      heap := heap s; world := w';
      trace := ((trace s ++ map DeletePolicyFile (PolicyFileNames e0)) ++
                creations policyPath org tried)%list |}).
Proof.
  intros Hv He0 Hhash Hne Hdel Hfail. unfold refresh.
  rewrite bind_run, wrap_run, (hashPattern_run l s v Hv), Hhash. cbn [fst snd].
  rewrite bytes_Equal_ne by congruence.
  rewrite bind_run, wrap_run.
  rewrite (DeleteAllPolicyFiles_all _ _ _ _ e0 s w1 He0 Hdel). cbn [fst snd].
  rewrite bind_run, UpdateEntry_run
    by (cbn [OrgPatterns]; now apply entry_at_has_key in He0).
  cbn [fst snd]. rewrite wrap_run.
  erewrite createPolicyFiles_fails; [| | exact Hv | cbn [world]; exact Hfail].
  2:{ cbn [OrgPatterns]. apply entry_at_set_slot. now apply entry_at_has_key in He0. }
  cbn [fst snd OrgPatterns heap trace]. rewrite set_slot_set_slot.
  reflexivity.
Qed.

Lemma materialize_creation_fails org policyPath l patternId v hash tried names
    err w' (s : State) :
  heap s !! l = Some v ->
  has_key (OrgPatterns s) org (exchange_GetId patternId) = true ->
  hash_of v = Ok hash ->
  creation_fails policyPath org patternId v (time_Now_Unix (world s)).2 tried
    names err w' ->
  materialize org policyPath l patternId s =
  (Err (ErrCreatePolicyFiles err),
   {| OrgPatterns :=
        set_slot (OrgPatterns s) org (exchange_GetId patternId)
          (Some {| Pattern := l;
                   Updated := uint64_of_int64 (time_Now_Unix (world s)).1;
                   Hash := hash; PolicyFileNames := names |});
      heap := heap s; world := w';
      trace := (trace s ++ creations policyPath org tried)%list |}).
Proof.
  intros Hv Hkey Hhash Hfail. unfold materialize.
  rewrite bind_run, wrap_run, (NewPatternEntry_run l s v Hv), Hhash. cbn [fst snd].
  rewrite bind_run, assign_entry_present by (cbn [OrgPatterns]; exact Hkey).
  cbn [fst snd]. rewrite wrap_run.
  erewrite createPolicyFiles_fails; [| | exact Hv | cbn [world]; exact Hfail].
  2:{ cbn [OrgPatterns]. now apply entry_at_set_slot. }
  cbn [fst snd OrgPatterns heap trace]. rewrite set_slot_set_slot.
  reflexivity.
Qed.

(** *** From a round to the pass *)

Lemma before_round_length org definedPatterns policyPath visit (s : State) pre s2 :
  before_round org definedPatterns policyPath visit s pre s2 ->
  (length (heap s) <= length (heap s2))%nat.
Proof.
  intros [_ Hpre].
  destruct (delete_undefined_keys org definedPatterns policyPath visit s) as [Hheap _].
  pose proof (update_loop_length org policyPath (length (heap s)) pre
                (delete_undefined org definedPatterns policyPath visit s).2) as Hlen.
  rewrite Hpre in Hlen. cbn [snd] in Hlen. apply Hlen. rewrite Hheap. lia.
Qed.

(** A round that returns an error ends the pass: the pass returns this
    error, in the state in which the round ended, and the patterns after it
    are not visited. *)
Lemma UpdatePatternPolicies_round org pre kv post policyPath visit (s s2 : State)
    e s' :
  before_round org (pre ++ kv :: post) policyPath visit s pre s2 ->
  update_pattern org policyPath (length (heap s)) kv s2 = (Err e, s') ->
  UpdatePatternPolicies org (pre ++ kv :: post) policyPath visit s = (Err e, s').
Proof.
  intros [Horg Hpre] Hround.
  rewrite UpdatePatternPolicies_run; [|exact Horg | now destruct pre].
  destruct (delete_undefined_keys org (pre ++ kv :: post) policyPath visit s)
    as [Hheap _].
  rewrite Hheap, for_each_app, Hpre, for_each_cons, Hround. reflexivity.
Qed.

Lemma entry_at_without_pattern m org pattern o p :
  (org, pattern) <> (o, p) ->
  entry_at (without_pattern m org pattern) o p = entry_at m o p.
Proof.
  intros Hne. unfold without_pattern, entry_at.
  destruct (m !! org) as [orgMap|] eqn:Horg; [|reflexivity].
  destruct (decide (o = org)) as [->|Ho].
  - rewrite lookup_insert_eq, Horg.
    rewrite lookup_delete_ne by congruence. reflexivity.
  - now rewrite lookup_insert_ne by congruence.
Qed.

Lemma delete_undefined_entry org definedPatterns policyPath visit (s : State) p :
  found definedPatterns p = true ->
  entry_at (OrgPatterns (delete_undefined org definedPatterns policyPath visit s).2)
    org p = entry_at (OrgPatterns s) org p.
Proof.
  intros Hfound.
  enough (Hp : preserves
                 (fun s' => entry_at (OrgPatterns s') org p =
                            entry_at (OrgPatterns s) org p)
                 (delete_undefined org definedPatterns policyPath visit))
    by exact (Hp s eq_refl).
  unfold delete_undefined. apply preserves_range_keys. intros pattern.
  destruct (found definedPatterns pattern) eqn:Hpat; cbn [negb];
    [apply preserves_ret|].
  intros s' Hs'. rewrite deletePattern_run. cbn [snd OrgPatterns].
  rewrite entry_at_without_pattern; [exact Hs'|]. congruence.
Qed.

Lemma update_loop_other org policyPath l pre (s : State) p :
  (l <= length (heap s))%nat ->
  ~ In p (map (fun kv => exchange_GetId kv.1) pre) ->
  entry_at (OrgPatterns (for_each pre (update_pattern org policyPath l) s).2) org p =
  entry_at (OrgPatterns s) org p.
Proof.
  revert s. induction pre as [|[patternId v] pre IH]; intros s Hl Hp; [reflexivity|].
  cbn [map fst In] in Hp. rewrite for_each_cons.
  pose proof (update_pattern_outcome org policyPath patternId l v s Hl) as Hout.
  cbv zeta in Hout. destruct Hout as [_ Hcases].
  pose proof (update_pattern_keys org policyPath l (patternId, v) s Hl) as [Hl1 _].
  assert (Hthis : entry_at
                    (OrgPatterns (update_pattern org policyPath l (patternId, v) s).2)
                    org p = entry_at (OrgPatterns s) org p).
  { destruct Hcases as [(_ & Hop & _)|[(_ & Hop & _)|(_ & e & Hop & _)]];
      rewrite Hop; try reflexivity.
    apply entry_at_set_slot_ne. intros [= Heq]. tauto. }
  destruct (update_pattern org policyPath l (patternId, v) s) as [[[]|e] s1];
    cbn [fst snd] in *; [|exact Hthis].
  rewrite IH by tauto. exact Hthis.
Qed.

(** The entry that a round finds for a pattern which no earlier round of
    the pass had to do with is the entry of before the pass. *)
Lemma before_round_entry org pre patternId v post policyPath visit (s s2 : State) :
  before_round org (pre ++ (patternId, v) :: post) policyPath visit s pre s2 ->
  ~ In (exchange_GetId patternId) (map (fun kv => exchange_GetId kv.1) pre) ->
  entry_at (OrgPatterns s2) org (exchange_GetId patternId) =
  entry_at (OrgPatterns s) org (exchange_GetId patternId).
Proof.
  intros [Horg Hpre] Hnot.
  destruct (delete_undefined_keys org (pre ++ (patternId, v) :: post) policyPath
              visit s) as [Hheap _].
  pose proof (update_loop_other org policyPath (length (heap s)) pre
                (delete_undefined org (pre ++ (patternId, v) :: post) policyPath
                   visit s).2 (exchange_GetId patternId)) as Hother.
  rewrite Hpre in Hother. cbn [snd] in Hother.
  rewrite Hother; [|rewrite Hheap; lia | exact Hnot].
  apply delete_undefined_entry. apply (found_defined _ patternId v).
  apply in_or_app. right. now left.
Qed.


(** C4, as the code has it.  An error of [DeletePolicyFilesForOrg] or of
    [DeletePolicyFilesForPattern] is logged and nothing more: [deleteOrg] and
    [deletePattern] return [nil] and take the org, respectively the pattern,
    out of the map all the same; so [SetCurrentPatterns] never returns an
    error, nor does the first loop of [UpdatePatternPolicies], nor
    [UpdatePatternPolicies] without defined patterns.  An error of
    [DeletePolicyFile] for the files of an entry whose hash changed is not
    logged but returned: [UpdatePatternPolicies] stops with "unable to delete
    policy files", and the entry of the offending pattern is the one the
    round found, whose hash is not the hash of the defined pattern.  Put
    forward: when the pass has got to the round of a defined pattern whose
    entry has another hash than the pattern, and the deletion of the files of
    the entry fails at some file, then the pass returns "unable to delete
    policy files" with the error of that deletion and visits no further
    pattern; the events of the round are the deletions asked for up to the
    failing one, and no log line; the map is as the round found it, so the
    entry still has its hash and lists all its files.  The entry that the
    round found is the entry of before the pass, when no pattern visited
    before in the pass has the same name. *)
Theorem deletion_errors_logged_or_returned :
  (forall servedPatterns policyPath visit_orgs visit_patterns s,
     (SetCurrentPatterns servedPatterns policyPath visit_orgs visit_patterns s).1
     = Ok tt) /\
  (forall policyPath org s,
     (deleteOrg policyPath org s).1 = Ok tt /\
     OrgPatterns (deleteOrg policyPath org s).2 = delete org (OrgPatterns s) /\
     trace (deleteOrg policyPath org s).2 =
       ((trace s ++ [DeletePolicyFilesForOrg policyPath org true]) ++
        logged "Error deleting policy files for org"
          (policy_DeletePolicyFilesForOrg policyPath org true (world s)).1)%list) /\
  (forall policyPath org pattern s,
     (deletePattern policyPath org pattern s).1 = Ok tt /\
     OrgPatterns (deletePattern policyPath org pattern s).2 =
       without_pattern (OrgPatterns s) org pattern /\
     trace (deletePattern policyPath org pattern s).2 =
       ((trace s ++ [DeletePolicyFilesForPattern policyPath org pattern]) ++
        logged "Error deleting policy files for pattern"
          (policy_DeletePolicyFilesForPattern policyPath org pattern (world s)).1)%list) /\
  (forall org definedPatterns policyPath visit s,
     (delete_undefined org definedPatterns policyPath visit s).1 = Ok tt) /\
  (forall org policyPath visit s,
     hasOrg s org = true ->
     (UpdatePatternPolicies org [] policyPath visit s).1 = Ok tt) /\
  (forall org definedPatterns policyPath visit s o c s',
     UpdatePatternPolicies org definedPatterns policyPath visit s =
     (Err (ErrDeletePolicyFiles o c), s') ->
     o = org /\
     exists patternId v e0 hash,
       In (patternId, v) definedPatterns /\
       entry_at (OrgPatterns s') org (exchange_GetId patternId) = Some e0 /\
       hash_of v = Ok hash /\ hash <> Hash e0) /\
  (forall org pre patternId v post policyPath visit s s2 e0 hash done fileName
          err w',
     before_round org (pre ++ (patternId, v) :: post) policyPath visit s pre s2 ->
     entry_at (OrgPatterns s2) org (exchange_GetId patternId) = Some e0 ->
     hash_of v = Ok hash -> hash <> Hash e0 ->
     deletion_fails (world s2) (PolicyFileNames e0) done fileName err w' ->
     UpdatePatternPolicies org (pre ++ (patternId, v) :: post) policyPath visit s =
     (Err (ErrDeletePolicyFiles org err),
      {| OrgPatterns := OrgPatterns s2;
         heap := store_var (length (heap s)) v (heap s2);
         world := w';
         trace := (trace s2 ++ map DeletePolicyFile (done ++ [fileName]))%list |})) /\
  (forall org pre patternId v post policyPath visit s s2,
     before_round org (pre ++ (patternId, v) :: post) policyPath visit s pre s2 ->
     ~ In (exchange_GetId patternId) (map (fun kv => exchange_GetId kv.1) pre) ->
     entry_at (OrgPatterns s2) org (exchange_GetId patternId) =
     entry_at (OrgPatterns s) org (exchange_GetId patternId)).
Proof.
  split; [intros; apply SetCurrentPatterns_never_fails|].
  split; [intros; now rewrite deleteOrg_run|].
  split; [intros; now rewrite deletePattern_run|].
  split; [intros; apply delete_undefined_never_fails|].
  split.
  { intros org policyPath visit s Horg. unfold UpdatePatternPolicies.
    rewrite bind_get, Horg. cbn [negb length Nat.eqb]. now rewrite deleteOrg_run. }
  split.
  2:{ split; [|intros; eapply before_round_entry; eassumption].
      intros org pre patternId v post policyPath visit s s2 e0 hash done fileName
        err w' Hbefore He0 Hhash Hne Hfail.
      apply (UpdatePatternPolicies_round _ _ _ _ _ _ _ s2 _ _ Hbefore).
      pose proof (before_round_length _ _ _ _ _ _ _ Hbefore) as Hlen.
      rewrite update_pattern_served
        by (rewrite hasPattern_has_key; now apply entry_at_has_key in He0).
      rewrite He0.
      pose proof (refresh_deletion_fails org policyPath (length (heap s)) patternId
                    v e0 hash done fileName err w'
                    {| OrgPatterns := OrgPatterns s2;
                       heap := store_var (length (heap s)) v (heap s2);
                       world := world s2; trace := trace s2 |}) as Hround.
      cbn [heap OrgPatterns world trace] in Hround.
      apply Hround; try assumption. now apply store_var_lookup. }
  intros org definedPatterns policyPath visit s o c s' Hrun.
  apply UpdatePatternPolicies_error in Hrun as (patternId & v & s1 & Hin & Hlen & Hx);
    [|discriminate].
  destruct (update_pattern_outcome org policyPath patternId (length (heap s)) v s1
              Hlen) as [_ Hcases]. cbn zeta in Hcases. rewrite Hx in Hcases.
  cbn [fst snd] in Hcases.
  destruct Hcases as [(Hr & _)|[(_ & Hop & Herr)|(_ & e & _ & _ & _ & _ & Hres)]].
  - discriminate.
  - destruct Herr as [[_ (c' & Hr)]|[(e1 & c' & _ & _ & Hr)|(e0 & hash & c' & He0 & Hh & Hne & Hr)]];
      try discriminate.
    injection Hr as -> ->. split; [reflexivity|].
    exists patternId, v, e0, hash. rewrite Hop. now repeat split.
  - destruct Hres as [Hr|(c' & Hr)]; discriminate.
Qed.

(** C5, as the code has it.  When the creation of policy files fails,
    [UpdatePatternPolicies] returns the error "unable to create policy
    files", and the entry of the offending pattern is not in its state of
    before the pass: it is an entry that points to the loop variable, which
    holds the defined pattern, and that carries the hash of that pattern (a
    newly made entry is in the map in place of [nil]; an entry whose hash
    changed has been overwritten).  Put forward: when the pass has got to
    the round of a defined pattern that is served, and the creation of the
    policy files of the pattern fails (the pattern does not convert to
    policies, or the file of one of its policies cannot be created), then
    the pass returns "unable to create policy files" with that error and
    visits no further pattern, and the slot of the pattern holds a new
    entry: its [Pattern] is the loop variable, its [Hash] the hash of the
    defined pattern, its [Updated] the time at which the entry was made or
    overwritten, its [PolicyFileNames] the names of the files created
    before the failure.  This is so for a pattern whose entry was [nil] and
    for a pattern whose entry had another hash, whose old files have all
    been deleted by then. *)
Theorem creation_error_leaves_updated_entry :
  (forall org definedPatterns policyPath visit s c s',
     UpdatePatternPolicies org definedPatterns policyPath visit s =
     (Err (ErrCreatePolicyFiles c), s') ->
     exists patternId v e,
       In (patternId, v) definedPatterns /\
       entry_at (OrgPatterns s') org (exchange_GetId patternId) = Some e /\
       Pattern e = length (heap s) /\
       heap s' !! Pattern e = Some v /\
       hash_of v = Ok (Hash e)) /\
  (forall org pre patternId v post policyPath visit s s2 hash tried names err w',
     before_round org (pre ++ (patternId, v) :: post) policyPath visit s pre s2 ->
     hasPattern s2 org (exchange_GetId patternId) = true ->
     entry_at (OrgPatterns s2) org (exchange_GetId patternId) = None ->
     hash_of v = Ok hash ->
     creation_fails policyPath org patternId v (time_Now_Unix (world s2)).2
       tried names err w' ->
     UpdatePatternPolicies org (pre ++ (patternId, v) :: post) policyPath visit s =
     (Err (ErrCreatePolicyFiles err),
      {| OrgPatterns :=
           set_slot (OrgPatterns s2) org (exchange_GetId patternId)
             (Some {| Pattern := length (heap s);
                      Updated := uint64_of_int64 (time_Now_Unix (world s2)).1;
                      Hash := hash; PolicyFileNames := names |});
         heap := store_var (length (heap s)) v (heap s2);
         world := w';
         trace := (trace s2 ++ creations policyPath org tried)%list |})) /\
  (forall org pre patternId v post policyPath visit s s2 e0 hash w1 tried names
          err w',
     before_round org (pre ++ (patternId, v) :: post) policyPath visit s pre s2 ->
     entry_at (OrgPatterns s2) org (exchange_GetId patternId) = Some e0 ->
     hash_of v = Ok hash -> hash <> Hash e0 ->
     all_deleted (world s2) (PolicyFileNames e0) w1 ->
     creation_fails policyPath org patternId v (time_Now_Unix w1).2 tried names
       err w' ->
     UpdatePatternPolicies org (pre ++ (patternId, v) :: post) policyPath visit s =
     (Err (ErrCreatePolicyFiles err),
      {| OrgPatterns :=
           set_slot (OrgPatterns s2) org (exchange_GetId patternId)
             (Some {| Pattern := length (heap s);
                      Updated := uint64_of_int64 (time_Now_Unix w1).1;
                      Hash := hash; PolicyFileNames := names |});
         heap := store_var (length (heap s)) v (heap s2);
         world := w';
         trace := ((trace s2 ++ map DeletePolicyFile (PolicyFileNames e0)) ++
                   creations policyPath org tried)%list |})) /\
  (forall m org pattern e,
     has_key m org pattern = true ->
     entry_at (set_slot m org pattern (Some e)) org pattern = Some e).
Proof.
  split; [|split; [|split; [|intros; now apply entry_at_set_slot]]].
  - intros org definedPatterns policyPath visit s c s' Hrun.
    apply UpdatePatternPolicies_error in Hrun
      as (patternId & v & s1 & Hin & Hlen & Hx); [|discriminate].
    destruct (update_pattern_outcome org policyPath patternId (length (heap s)) v s1
                Hlen) as [Hheap Hcases]. cbn zeta in Hheap, Hcases.
    rewrite Hx in Hheap, Hcases. cbn [fst snd] in Hheap, Hcases.
    destruct Hcases as [(Hr & _)|[(_ & Hop & Herr)|
                        (Hserved & e & Hop & Hp & Hhash & _ & _)]].
    + discriminate.
    + destruct Herr as [[_ (c' & Hr)]|[(e1 & c' & _ & _ & Hr)|
                        (e0 & hash & c' & _ & _ & _ & Hr)]]; discriminate.
    + exists patternId, v, e. split; [exact Hin|]. split.
      { rewrite Hop. apply entry_at_set_slot. now rewrite <- hasPattern_has_key. }
      split; [exact Hp|]. split; [|exact Hhash].
      rewrite Hp, Hheap. now apply store_var_lookup.
  - intros org pre patternId v post policyPath visit s s2 hash tried names err w'
      Hbefore Hserved Hnil Hhash Hfail.
    apply (UpdatePatternPolicies_round _ _ _ _ _ _ _ s2 _ _ Hbefore).
    pose proof (before_round_length _ _ _ _ _ _ _ Hbefore) as Hlen.
    rewrite update_pattern_served by exact Hserved. rewrite Hnil.
    pose proof (materialize_creation_fails org policyPath (length (heap s))
                  patternId v hash tried names err w'
                  {| OrgPatterns := OrgPatterns s2;
                     heap := store_var (length (heap s)) v (heap s2);
                     world := world s2; trace := trace s2 |}) as Hround.
    cbn [heap OrgPatterns world trace] in Hround.
    apply Hround; try assumption; [now apply store_var_lookup|].
    now rewrite <- hasPattern_has_key.
  - intros org pre patternId v post policyPath visit s s2 e0 hash w1 tried names
      err w' Hbefore He0 Hhash Hne Hdel Hfail.
    apply (UpdatePatternPolicies_round _ _ _ _ _ _ _ s2 _ _ Hbefore).
    pose proof (before_round_length _ _ _ _ _ _ _ Hbefore) as Hlen.
    rewrite update_pattern_served
      by (rewrite hasPattern_has_key; now apply entry_at_has_key in He0).
    rewrite He0.
    pose proof (refresh_creation_fails org policyPath (length (heap s)) patternId
                  v e0 hash w1 tried names err w'
                  {| OrgPatterns := OrgPatterns s2;
                     heap := store_var (length (heap s)) v (heap s2);
                     world := world s2; trace := trace s2 |}) as Hround.
    cbn [heap OrgPatterns world trace] in Hround.
    apply Hround; try assumption. now apply store_var_lookup.
Qed.

(** C3 fails on the code.  The second loop of [UpdatePatternPolicies] hands
    the address of its one loop variable to every entry it makes or
    refreshes.  Here two patterns are defined, the first is served and has
    no entry yet, the second is not served, and their hashes differ.  After
    a pass that succeeds, the entry made for the first pattern carries the
    hash of the first pattern, but its [Pattern] field points to a variable
    that holds the second pattern: the hash of the entry is not the hash of
    its pattern. *)
Theorem entry_points_to_loop_variable (org policyPath : string)
    (visit : list string) (patternId patternId' : string) (v v' : ExPattern)
    (hash hash' : list byte) (s s' : State) :
  all_found org [(patternId, v); (patternId', v')] s ->
  hasPattern s org (exchange_GetId patternId) = true ->
  entry_at (OrgPatterns s) org (exchange_GetId patternId) = None ->
  hasPattern s org (exchange_GetId patternId') = false ->
  hash_of v = Ok hash -> hash_of v' = Ok hash' -> hash <> hash' ->
  UpdatePatternPolicies org [(patternId, v); (patternId', v')] policyPath visit s
  = (Ok tt, s') ->
  exists e,
    entry_at (OrgPatterns s') org (exchange_GetId patternId) = Some e /\
    Hash e = hash /\
    heap s' !! Pattern e = Some v' /\
    ~ hash_matches_pattern s' e.
Proof.
  intros Hall Hserved Hnil Hnot Hhash Hhash' Hne Hrun.
  assert (Horg : hasOrg s org = true).
  { unfold hasPattern in Hserved. now destruct (hasOrg s org). }
  rewrite UpdatePatternPolicies_run in Hrun by easy.
  rewrite delete_undefined_noop in Hrun by exact Hall. cbn [snd] in Hrun.
  cbn [for_each] in Hrun. unfold bind in Hrun.
  set (l := length (heap s)) in *.
  destruct (update_pattern_outcome org policyPath patternId l v s (Nat.le_refl _))
    as [Hheap1 Hcases1]. cbn zeta in Hheap1, Hcases1.
  destruct (update_pattern org policyPath l (patternId, v) s) as [[[]|e1] s1];
    [|discriminate]. cbn [fst snd] in *.
  assert (Hl1 : (l <= length (heap s1))%nat).
  { rewrite Hheap1. now apply store_var_ge. }
  destruct (update_pattern_outcome org policyPath patternId' l v' s1 Hl1)
    as [Hheap2 Hcases2]. cbn zeta in Hheap2, Hcases2.
  destruct (update_pattern org policyPath l (patternId', v') s1) as [[[]|e2] s2];
    [|discriminate]. cbn [fst snd] in *.
  unfold ret in Hrun. injection Hrun as <-.
  destruct Hcases1 as [(_ & _ & _ & _ & Hsame)|
                       [(_ & _ & Herr)|(_ & e & Hop1 & Hp & Hh & _ & _)]].
  { destruct (Hsame Hserved) as (e0 & He0 & _). congruence. }
  { destruct Herr as [[_ (c & Hr)]|[(e0 & c & _ & _ & Hr)|(e0 & h0 & c & _ & _ & _ & Hr)]];
      discriminate. }
  assert (Hnot1 : hasPattern s1 org (exchange_GetId patternId') = false).
  { rewrite hasPattern_has_key, Hop1, has_key_set_slot, <- hasPattern_has_key;
      [exact Hnot | now rewrite <- hasPattern_has_key]. }
  assert (Hop2 : OrgPatterns s2 = OrgPatterns s1).
  { destruct Hcases2 as [(_ & Hop2 & _)|[(Hs & _)|(Hs & _)]]; [exact Hop2 | |];
      congruence. }
  assert (Hentry : entry_at (OrgPatterns s2) org (exchange_GetId patternId) = Some e).
  { rewrite Hop2, Hop1. apply entry_at_set_slot. now rewrite <- hasPattern_has_key. }
  assert (Hvar : heap s2 !! Pattern e = Some v').
  { rewrite Hp, Hheap2. now apply store_var_lookup. }
  exists e. split; [exact Hentry|]. split; [congruence|]. split; [exact Hvar|].
  intros (v0 & Hv0 & Hh0). congruence.
Qed.

End PatternManagerErrors.

(* --------------------------------------------------------------------- *)
(** ** The pattern manager on concrete inputs                              *)
(* --------------------------------------------------------------------- *)

Section PatternManagerExamples.
Import pm.

(** At the moment [NewPatternEntry] returns an entry, the hash of the entry
    is the hash of the pattern it points to. *)
Lemma NewPatternEntry_hash_matches `{PolicyEnv} (l : loc) (s s' : State)
    (e : PatternEntry) :
  NewPatternEntry l s = (Ok e, s') -> hash_matches_pattern s' e.
Proof.
  intros Hrun. destruct (heap s !! l) as [v|] eqn:Hl.
  - rewrite (NewPatternEntry_run l s v Hl) in Hrun.
    destruct (hash_of v) as [hash|] eqn:Hhash; [|discriminate].
    injection Hrun as <- <-. exists v. now split.
  - unfold NewPatternEntry, bind at 1, call in Hrun.
    destruct (time_Now_Unix (world s)) as [now w]. unfold bind in Hrun.
    unfold hashPattern in Hrun. rewrite bind_get in Hrun. cbn [heap] in Hrun.
    rewrite Hl in Hrun. discriminate.
Qed.

(** [UpdateEntry] with the hash of the pattern it is given leaves an entry
    whose hash is the hash of its pattern, as long as the variable that the
    pattern pointer refers to is not assigned again. *)
Lemma UpdateEntry_hash_matches `{PolicyEnv} (org pattern : string) (l : loc)
    (v : ExPattern) (newHash : list byte) (s : State) :
  has_key (OrgPatterns s) org pattern = true ->
  heap s !! l = Some v -> hash_of v = Ok newHash ->
  exists e,
    entry_at (OrgPatterns (UpdateEntry (org, pattern) l newHash s).2) org pattern
    = Some e /\
    hash_matches_pattern (UpdateEntry (org, pattern) l newHash s).2 e.
Proof.
  intros Hkey Hl Hhash. rewrite UpdateEntry_run by exact Hkey. cbn [snd OrgPatterns].
  eexists. split; [now apply entry_at_set_slot|].
  exists v. now split.
Qed.

Lemma serving_keys `{PolicyEnv} (w : World) (served : list string)
    (pattern : string) :
  hasPattern (examples.serving w served) "o" pattern = true -> In pattern served.
Proof.
  unfold hasPattern, hasOrg, examples.serving. cbn [OrgPatterns].
  rewrite lookup_singleton_eq.
  destruct (list_to_map _ !! pattern) as [pe|] eqn:Hp; [|discriminate].
  intros _. apply elem_of_list_to_map_2 in Hp. apply list_elem_of_In in Hp.
  apply in_map_iff in Hp as (p & [= <- _] & Hin). exact Hin.
Qed.

Lemma UpdatePatternPolicies_idempotent_witness :
  let env := examples.string_env false false in
  let s1 := (UpdatePatternPolicies (H := env) "o" [("o/a", "PA")] "/policy/" ["a"]
               (examples.serving (H := env) 0%nat ["a"])).2 in
  let out := UpdatePatternPolicies (H := env) "o" [("o/a", "PA")] "/policy/" ["a"]
               s1 in
  trace out.2 = trace s1 /\
  world out.2 = world s1 /\
  OrgPatterns out.2 = OrgPatterns s1 /\
  (forall i, (i < length (heap s1))%nat -> heap out.2 !! i = heap s1 !! i) /\
  (out.1 = Ok tt \/ out.1 = Err (ErrOrgNotFound "o")).
Proof.
  intros env s1 out.
  apply (UpdatePatternPolicies_idempotent (H := env) "o" [("o/a", "PA")]
           [("o/a", "PA")] "/policy/" ["a"] ["a"] (examples.serving (H := env) 0%nat ["a"])).
  - apply Permutation_refl.
  - intros pattern Hp. exact (serving_keys (H := env) 0%nat ["a"] pattern Hp).
  - intros patternId v [[= <- <-]|[]] _.
    exists {| Pattern := 0%nat; Updated := 0; Hash := list_byte_of_string "PA";
              PolicyFileNames := ["/policy/o_PA"] |}.
    split; vm_compute; reflexivity.
Defined.

Lemma UpdatePatternPolicies_unknown_org_witness :
  let env := examples.string_env false false in
  UpdatePatternPolicies (H := env) "elsewhere" [("elsewhere/a", "PA")] "/policy/"
    ["a"] (examples.serving (H := env) 0%nat ["a"]) =
  (Err (ErrOrgNotFound "elsewhere"), examples.serving (H := env) 0%nat ["a"]) /\
  hasOrg
    (SetCurrentPatterns (H := env)
       [("k", {| exchange.Org := "elsewhere"; exchange.Pattern := "a" |})]
       "/policy/" ["o"] (fun _ => ["a"]) (examples.serving (H := env) 0%nat ["a"])).2
    "elsewhere" = true.
Proof.
  intros env.
  destruct (UpdatePatternPolicies_unknown_org (H := env) "elsewhere"
              [("elsewhere/a", "PA")] "/policy/" ["a"]
              (examples.serving (H := env) 0%nat ["a"])) as [Herr Hregistered].
  split.
  - apply Herr. vm_compute. reflexivity.
  - apply (Hregistered _ ["o"] (fun _ => ["a"]) "k"
             {| exchange.Org := "elsewhere"; exchange.Pattern := "a" |});
      [left; reflexivity | reflexivity].
Defined.

(** A pass over a pattern whose hash changed, in a policy directory whose
    files cannot be deleted: the deletion error is not logged, it ends the
    pass with an error. *)
Lemma deletion_error_aborts_pass :
  let env := examples.string_env false true in
  let out := UpdatePatternPolicies (H := env) "o" [("o/a", "NEW")] "/policy/" ["a"]
               (examples.serving_old false true) in
  out.1 = Err (ErrDeletePolicyFiles "o" (ExternalError "permission denied")) /\
  trace out.2 = [DeletePolicyFile (H := env) "/policy/o_OLD"] /\
  entry_at (OrgPatterns out.2) "o" "a" = Some examples.old_entry.
Proof. vm_compute. repeat split; reflexivity. Qed.

Lemma deletion_errors_logged_or_returned_witness :
  let env := examples.string_env false true in
  let s := examples.serving_old false true in
  (SetCurrentPatterns (H := env) [] "/policy/" ["o"] (fun _ => ["a"]) s).1 = Ok tt /\
  trace (SetCurrentPatterns (H := env) [] "/policy/" ["o"] (fun _ => ["a"]) s).2 =
    [DeletePolicyFilesForOrg (H := env) "/policy/" "o" true;
     LogError (H := env) "Error deleting policy files for org"
       (ExternalError "permission denied")] /\
  (UpdatePatternPolicies (H := env) "o" [] "/policy/" ["a"] s).1 = Ok tt /\
  (exists patternId v e0 hash,
    In (patternId, v) [("o/a", "NEW")] /\
    entry_at
      (OrgPatterns (UpdatePatternPolicies (H := env) "o" [("o/a", "NEW")]
                      "/policy/" ["a"] s).2) "o" (examples.after_slash patternId)
    = Some e0 /\
    hash_of (H := env) v = Ok hash /\ hash <> Hash e0) /\
  UpdatePatternPolicies (H := env) "o" ([] ++ [("o/a", "NEW")]) "/policy/" ["a"] s =
    (Err (ErrDeletePolicyFiles "o" (ExternalError "permission denied")),
     @Build_State env (OrgPatterns s) (store_var (H := env) 1%nat "NEW" (heap s)) 8%nat
       (trace s ++ map (DeletePolicyFile (H := env)) ([] ++ ["/policy/o_OLD"]))%list).
Proof.
  intros env s.
  destruct (deletion_errors_logged_or_returned (H := env))
    as (Hset & _ & _ & _ & Hempty & Habort & Hforward & _).
  split; [apply Hset|]. split; [vm_compute; reflexivity|].
  split; [apply Hempty; vm_compute; reflexivity|].
  split.
  - refine (proj2 (Habort "o" [("o/a", "NEW")] "/policy/" ["a"] s "o"
                     (ExternalError "permission denied")
                     (UpdatePatternPolicies (H := env) "o" [("o/a", "NEW")]
                        "/policy/" ["a"] s).2 _)).
    vm_compute. reflexivity.
  - apply (Hforward "o" [] "o/a" "NEW" [] "/policy/" ["a"] s s examples.old_entry
             (list_byte_of_string "NEW") [] "/policy/o_OLD"
             (ExternalError "permission denied") 8%nat).
    + split; vm_compute; reflexivity.
    + reflexivity.
    + reflexivity.
    + discriminate.
    + exists [], 8%nat. split; [reflexivity|]. split; [constructor | reflexivity].
Defined.

(** A pass that materializes a pattern in a policy directory in which no
    file can be created: the pass fails, and the entry, [nil] before the
    pass, is a new entry with the hash of the pattern. *)
Lemma creation_error_keeps_new_entry :
  let env := examples.string_env true false in
  let s := examples.serving (H := env) 0%nat ["a"] in
  let out := UpdatePatternPolicies (H := env) "o" [("o/a", "PA")] "/policy/" ["a"] s in
  entry_at (OrgPatterns s) "o" "a" = None /\
  out.1 = Err (ErrCreatePolicyFiles
                 (ErrCreatePolicyFile (ExternalError "disk full"))) /\
  entry_at (OrgPatterns out.2) "o" "a" =
    Some {| Pattern := 0%nat; Updated := 0; Hash := list_byte_of_string "PA";
            PolicyFileNames := [] |}.
Proof. vm_compute. repeat split; reflexivity. Qed.

(** The same for a pattern whose hash changed: its old files are deleted,
    the creation of the new ones fails, and the entry already carries the
    new pattern, hash and time and no file name. *)
Example creation_error_keeps_refreshed_entry :
  let env := examples.string_env true false in
  let out := UpdatePatternPolicies (H := env) "o" [("o/a", "NEW")] "/policy/" ["a"]
               (examples.serving_old true false) in
  out.1 = Err (ErrCreatePolicyFiles
                 (ErrCreatePolicyFile (ExternalError "disk full"))) /\
  entry_at (OrgPatterns out.2) "o" "a" =
    Some {| Pattern := 1%nat; Updated := 8; Hash := list_byte_of_string "NEW";
            PolicyFileNames := [] |} /\
  trace out.2 = [DeletePolicyFile (H := env) "/policy/o_OLD";
                 CreatePolicyFile (H := env) "/policy/" "o" "NEW" "NEW"].
Proof. vm_compute. repeat split; reflexivity. Qed.

Lemma creation_error_leaves_updated_entry_witness :
  let env := examples.string_env true false in
  let s := examples.serving (H := env) 0%nat ["a"] in
  (exists patternId v e,
    In (patternId, v) [("o/a", "PA")] /\
    entry_at
      (OrgPatterns (UpdatePatternPolicies (H := env) "o" [("o/a", "PA")]
                      "/policy/" ["a"] s).2) "o" (examples.after_slash patternId)
    = Some e /\
    Pattern e = length (heap s) /\
    heap (UpdatePatternPolicies (H := env) "o" [("o/a", "PA")] "/policy/" ["a"] s).2
      !! Pattern e = Some v /\
    hash_of (H := env) v = Ok (Hash e)) /\
  UpdatePatternPolicies (H := env) "o" ([] ++ [("o/a", "PA")]) "/policy/" ["a"] s =
    (Err (ErrCreatePolicyFiles (ErrCreatePolicyFile (ExternalError "disk full"))),
     @Build_State env
       (set_slot (OrgPatterns s) "o" "a"
          (Some {| Pattern := 0%nat; Updated := 0;
                   Hash := list_byte_of_string "PA"; PolicyFileNames := [] |}))
       (store_var (H := env) 0%nat "PA" (heap s)) 1%nat
       (trace s ++ creations (H := env) "/policy/" "o" ([] ++ ["PA"]))%list).
Proof.
  intros env s.
  destruct (creation_error_leaves_updated_entry (H := env))
    as (Hback & Hnew & _ & _).
  split.
  - apply (Hback "o" [("o/a", "PA")] "/policy/" ["a"] s
             (ErrCreatePolicyFile (ExternalError "disk full"))).
    vm_compute. reflexivity.
  - apply (Hnew "o" [] "o/a" "PA" [] "/policy/" ["a"] s s
             (list_byte_of_string "PA") ([] ++ ["PA"])%list []
             (ErrCreatePolicyFile (ExternalError "disk full")) 1%nat).
    + split; vm_compute; reflexivity.
    + reflexivity.
    + reflexivity.
    + reflexivity.
    + apply (file_creation_fails (H := env) "/policy/" "o" "o/a" "PA" 1%nat
               ["PA"] [] "PA" [] [] 1%nat (ExternalError "disk full") 1%nat).
      * reflexivity.
      * reflexivity.
      * constructor.
      * reflexivity.
Defined.

Lemma entry_points_to_loop_variable_witness :
  let env := examples.string_env false false in
  let s := examples.serving (H := env) 0%nat ["a"] in
  let s' := (UpdatePatternPolicies (H := env) "o" [("o/a", "PA"); ("o/z", "PZ")]
               "/policy/" ["a"] s).2 in
  exists e,
    entry_at (OrgPatterns s') "o" "a" = Some e /\
    Hash e = list_byte_of_string "PA" /\
    heap s' !! Pattern e = Some "PZ" /\
    ~ hash_matches_pattern s' e.
Proof.
  intros env s s'.
  apply (entry_points_to_loop_variable (H := env) "o" "/policy/" ["a"]
           "o/a" "o/z" "PA" "PZ" (list_byte_of_string "PA")
           (list_byte_of_string "PZ") s s').
  - intros pattern Hp. apply (serving_keys (H := env)) in Hp.
    destruct Hp as [<-|[]]. vm_compute. reflexivity.
  - vm_compute. reflexivity.
  - vm_compute. reflexivity.
  - vm_compute. reflexivity.
  - reflexivity.
  - reflexivity.
  - intros Heq. vm_compute in Heq. discriminate Heq.
  - vm_compute. reflexivity.
Defined.

(** The failing input of C3, evaluated: after the pass over the defined
    patterns ["o/a"] and ["o/z"], the entry of ["a"] has the hash of ["PA"]
    and points to a variable that holds ["PZ"]. *)
Example entry_of_a_points_to_PZ :
  let env := examples.string_env false false in
  let out := UpdatePatternPolicies (H := env) "o" [("o/a", "PA"); ("o/z", "PZ")]
               "/policy/" ["a"] (examples.serving (H := env) 0%nat ["a"]) in
  out.1 = Ok tt /\
  entry_at (OrgPatterns out.2) "o" "a" =
    Some {| Pattern := 0%nat; Updated := 0; Hash := list_byte_of_string "PA";
            PolicyFileNames := ["/policy/o_PA"] |} /\
  heap out.2 !! 0%nat = Some "PZ" /\
  hash_of (H := env) "PZ" = Ok (list_byte_of_string "PZ").
Proof. vm_compute. repeat split; reflexivity. Qed.

(** Scenario 4 of the specification ("pattern change"): the first pass
    creates the policy file of the pattern, the pass after the pattern
    changed deletes it and creates the new one, and a third pass with the
    same pattern causes no event. *)
Example pattern_change_scenario :
  let env := examples.string_env false false in
  let s1 := (UpdatePatternPolicies (H := env) "o" [("o/a", "PA")] "/policy/" ["a"]
               (examples.serving (H := env) 0%nat ["a"])).2 in
  let s2 := (UpdatePatternPolicies (H := env) "o" [("o/a", "PB")] "/policy/" ["a"]
               s1).2 in
  let s3 := (UpdatePatternPolicies (H := env) "o" [("o/a", "PB")] "/policy/" ["a"]
               s2).2 in
  trace s1 = [CreatePolicyFile (H := env) "/policy/" "o" "PA" "PA"] /\
  trace s2 = (trace s1 ++ [DeletePolicyFile (H := env) "/policy/o_PA";
                           CreatePolicyFile (H := env) "/policy/" "o" "PB" "PB"])%list /\
  trace s3 = trace s2.
Proof. vm_compute. repeat split; reflexivity. Qed.

End PatternManagerExamples.

(* ===================================================================== *)
(** * Part III: further properties                                        *)
(* ===================================================================== *)

(* --------------------------------------------------------------------- *)
(** ** cutil: lists, random strings, connectivity                          *)
(* --------------------------------------------------------------------- *)

Section CutilMore.
Import cutil.

Lemma int_wrap_small (z : Z) : - 2 ^ 63 <= z < 2 ^ 63 -> int_wrap z = z.
Proof. intros Hz. unfold int_wrap. rewrite Z.mod_small; lia. Qed.

Lemma FirstN_loop_take (n : Z) (ss : list string) (fuel : nat) (ix : Z)
    (out : list string) :
  Z.of_nat (length ss) < 2 ^ 63 ->
  0 <= ix <= Z.of_nat (length ss) ->
  (Z.of_nat (length ss) - ix < Z.of_nat fuel) ->
  FirstN_loop fuel n ix ss out =
  Returns
    (out ++ take (Z.to_nat (int_wrap (n - 1) - ix)) (drop (Z.to_nat ix) ss))%list.
Proof.
  intros Hlen. revert ix out.
  induction fuel as [|fuel IH]; intros ix out Hix Hfuel; [lia|].
  cbn [FirstN_loop].
  destruct (Z.ltb_spec ix (int_wrap (n - 1))) as [Hlt|Hge].
  2:{ replace (Z.to_nat (int_wrap (n - 1) - ix)) with 0%nat by lia.
      now rewrite take_0, app_nil_r. }
  destruct (Z.eqb_spec (Z.of_nat (length ss)) ix) as [Heq|Hne].
  { rewrite drop_ge by lia. now rewrite take_nil, app_nil_r. }
  destruct (Z.ltb_spec ix 0) as [Hneg|_]; [lia|].
  destruct (ss !! Z.to_nat ix) as [x|] eqn:Hx.
  2:{ apply lookup_ge_None in Hx. lia. }
  rewrite int_wrap_small by lia.
  rewrite IH by lia.
  rewrite <- app_assoc. do 2 f_equal.
  rewrite (drop_S ss x (Z.to_nat ix) Hx).
  replace (Z.to_nat (int_wrap (n - 1) - ix))
    with (S (Z.to_nat (int_wrap (n - 1) - (ix + 1)))) by lia.
  cbn [take app]. now replace (Z.to_nat (ix + 1)) with (S (Z.to_nat ix)) by lia.
Qed.

(** [FirstN(n, ss)] never panics and returns the first [n - 1] elements of
    [ss] (all of [ss] when it has fewer, none when [n <= 1]), however much
    fuel the loop is given beyond [len(ss) + 1]; for the least [int], whose
    [n - 1] overflows, it returns all of [ss]. *)
Theorem FirstN_is_take (n : Z) (ss : list string) :
  Z.of_nat (length ss) < 2 ^ 63 ->
  (- 2 ^ 63 < n < 2 ^ 63 ->
   FirstN n ss = Returns (take (Z.to_nat (n - 1)) ss) /\
   forall fuel, (length ss < fuel)%nat ->
                FirstN_loop fuel n 0 ss [] = FirstN n ss) /\
  FirstN (- 2 ^ 63) ss = Returns ss.
Proof.
  intros Hlen. split.
  - intros Hn.
    assert (Hrun : forall fuel, (length ss < fuel)%nat ->
              FirstN_loop fuel n 0 ss [] = Returns (take (Z.to_nat (n - 1)) ss)).
    { intros fuel Hfuel. rewrite FirstN_loop_take by lia.
      rewrite int_wrap_small by lia. cbn [app Z.to_nat drop].
      now rewrite Z.sub_0_r. }
    split.
    + apply Hrun. lia.
    + intros fuel Hfuel. rewrite (Hrun fuel Hfuel). symmetry. apply Hrun. lia.
  - unfold FirstN. rewrite FirstN_loop_take by lia.
    assert (int_wrap (- 2 ^ 63 - 1) = 2 ^ 63 - 1) as -> by (vm_compute; reflexivity).
    cbn [app Z.to_nat drop]. f_equal. apply take_ge. lia.
Qed.

Lemma FirstN_is_take_witness :
  FirstN 3 ["a"; "b"; "c"; "d"] = Returns ["a"; "b"] /\
  FirstN 1 ["a"; "b"] = Returns [] /\
  FirstN 9 ["a"; "b"] = Returns ["a"; "b"].
Proof.
  assert (H4 : Z.of_nat (length ["a"; "b"; "c"; "d"]) < 2 ^ 63) by (vm_compute; reflexivity).
  assert (H2 : Z.of_nat (length ["a"; "b"]) < 2 ^ 63) by (vm_compute; reflexivity).
  split; [|split].
  - exact (proj1 (proj1 (FirstN_is_take 3 ["a"; "b"; "c"; "d"] H4)
                    (conj eq_refl eq_refl))).
  - exact (proj1 (proj1 (FirstN_is_take 1 ["a"; "b"] H2) (conj eq_refl eq_refl))).
  - exact (proj1 (proj1 (FirstN_is_take 9 ["a"; "b"] H2) (conj eq_refl eq_refl))).
Defined.

(** *** base64 and [SecureRandomString] *)

Lemma list_ind3 {A} (P : list A -> Prop) :
  P [] -> (forall a, P [a]) -> (forall a b, P [a; b]) ->
  (forall a b c l, P l -> P (a :: b :: c :: l)) ->
  forall l, P l.
Proof.
  intros H0 H1 H2 H3. fix IH 1.
  intros [|a [|b [|c l]]]; [exact H0 | apply H1 | apply H2 | apply H3, IH].
Qed.

Lemma base64_length (src : list byte) :
  String.length (base64_URLEncoding_EncodeToString src) =
  (4 * ((length src + 2) / 3))%nat.
Proof.
  induction src as [| a | a b | a b c l IH] using list_ind3; try reflexivity.
  cbn [base64_URLEncoding_EncodeToString String.length length]. rewrite IH.
  replace (S (S (S (length l))) + 2)%nat with ((length l + 2) + 1 * 3)%nat by lia.
  rewrite Nat.div_add by lia. lia.
Qed.

Lemma encodeURL_at_base64url (i : N) :
  (i < 64)%N -> is_base64url (encodeURL_at i) = true.
Proof.
  intros Hi.
  assert (Hall : forallb (fun n => is_base64url (encodeURL_at (N.of_nat n)))
                   (seq 0 64) = true) by (vm_compute; reflexivity).
  rewrite forallb_forall in Hall.
  specialize (Hall (N.to_nat i)). rewrite N2Nat.id in Hall.
  apply Hall. apply in_seq. lia.
Qed.

Lemma sextet_base64url (val shift : N) : is_base64url (sextet val shift) = true.
Proof.
  apply encodeURL_at_base64url.
  change 63%N with (N.ones 6). rewrite N.land_ones.
  apply N.mod_lt. discriminate.
Qed.

Lemma base64_chars (src : list byte) :
  string_forallb is_base64url (base64_URLEncoding_EncodeToString src) = true.
Proof.
  induction src as [| a | a b | a b c l IH] using list_ind3;
    cbn [base64_URLEncoding_EncodeToString string_forallb];
    rewrite ?sextet_base64url, ?IH; reflexivity.
Qed.

(** The padded end of the encoding of a number of bytes that leaves the
    remainder one when divided by three. *)
Lemma base64_padding (src : list byte) :
  (length src mod 3 = 1)%nat ->
  exists body, base64_URLEncoding_EncodeToString src = body ++ "==".
Proof.
  induction src as [| a | a b | a b c l IH] using list_ind3; intros Hmod.
  - discriminate.
  - eexists (String _ (String _ EmptyString)). reflexivity.
  - discriminate.
  - destruct IH as [body Hbody].
    { cbn [length] in Hmod.
      replace (S (S (S (length l)))) with (length l + 1 * 3)%nat in Hmod by lia.
      now rewrite Nat.Div0.mod_add in Hmod. }
    cbn [base64_URLEncoding_EncodeToString]. rewrite Hbody.
    eexists (String _ (String _ (String _ (String _ body)))). reflexivity.
Qed.

Lemma base64url_value_encodeURL_at (i : N) :
  (i < 64)%N -> base64url_value (encodeURL_at i) = Some i.
Proof.
  intros Hi.
  assert (Hall : forallb (fun n =>
                   match base64url_value (encodeURL_at (N.of_nat n)) with
                   | Some v => N.eqb v (N.of_nat n)
                   | None => false
                   end) (seq 0 64) = true)
    by (vm_compute; reflexivity).
  rewrite forallb_forall in Hall.
  specialize (Hall (N.to_nat i)). rewrite N2Nat.id in Hall.
  destruct (base64url_value (encodeURL_at i)) as [v|].
  - f_equal. apply N.eqb_eq. apply Hall. apply in_seq. lia.
  - discriminate Hall. apply in_seq. lia.
Qed.

Lemma base64url_value_sextet (val shift : N) :
  base64url_value (sextet val shift) = Some ((val / 2 ^ shift) mod 64)%N.
Proof.
  unfold sextet. change 63%N with (N.ones 6).
  rewrite N.land_ones, N.shiftr_div_pow2.
  apply base64url_value_encodeURL_at. apply N.mod_lt. discriminate.
Qed.

Lemma N_lor_shiftl_add (a b k : N) :
  (b < 2 ^ k)%N -> N.lor (N.shiftl a k) b = (a * 2 ^ k + b)%N.
Proof.
  intros Hb.
  assert (Hland : N.land (N.shiftl a k) b = 0%N).
  { apply N.bits_inj_0. intros m. rewrite N.land_spec.
    destruct (N.ltb_spec m k) as [Hm|Hm].
    - now rewrite N.shiftl_spec_low.
    - rewrite <- (N.mod_small b (2 ^ k)) by assumption.
      rewrite N.mod_pow2_bits_high by assumption. apply andb_false_r. }
  rewrite <- N.lxor_lor by assumption.
  rewrite <- N.add_nocarry_lxor by assumption.
  now rewrite N.shiftl_mul_pow2.
Qed.

Lemma byte_bound (v : byte) : (Byte.to_N v < 256)%N.
Proof. pose proof (Byte.to_N_bounded v). lia. Qed.

Lemma group_value (a b c : N) :
  (a < 256)%N -> (b < 256)%N -> (c < 256)%N ->
  N.lor (N.lor (N.shiftl a 16) (N.shiftl b 8)) c = (65536 * a + 256 * b + c)%N.
Proof.
  intros Ha Hb Hc.
  rewrite (N.shiftl_mul_pow2 b 8).
  rewrite N_lor_shiftl_add
    by (change (2 ^ 16)%N with 65536%N; change (2 ^ 8)%N with 256%N; lia).
  replace (a * 2 ^ 16 + b * 2 ^ 8)%N with (N.shiftl (a * 256 + b) 8)
    by (rewrite N.shiftl_mul_pow2; change (2 ^ 16)%N with 65536%N;
        change (2 ^ 8)%N with 256%N; lia).
  rewrite N_lor_shiftl_add by (change (2 ^ 8)%N with 256%N; lia).
  change (2 ^ 8)%N with 256%N. lia.
Qed.

(** Read as base64, the text that [EncodeToString] writes gives back the
    bytes it was made from. *)
Lemma base64url_bytes_EncodeToString (src : list byte) :
  base64url_bytes (base64_URLEncoding_EncodeToString src) =
  Some (map Byte.to_N src).
Proof.
  induction src as [| a | a b | a b c l IH] using list_ind3.
  - reflexivity.
  - cbn [base64_URLEncoding_EncodeToString base64url_bytes map].
    rewrite !base64url_value_sextet.
    change (base64url_value "=") with (@None N). cbn.
    pose proof (byte_bound a) as Ha.
    rewrite N.shiftl_mul_pow2.
    do 2 f_equal.
    change (2 ^ 16)%N with 65536%N. change (2 ^ 18)%N with 262144%N.
    change (2 ^ 12)%N with 4096%N.
    generalize dependent (Byte.to_N a). intros n Hn.
    zify. Z.to_euclidean_division_equations. lia.
  - cbn [base64_URLEncoding_EncodeToString base64url_bytes map].
    rewrite !base64url_value_sextet.
    change (base64url_value "=") with (@None N). cbn.
    pose proof (byte_bound a) as Ha. pose proof (byte_bound b) as Hb.
    rewrite (N.shiftl_mul_pow2 (Byte.to_N b) 8).
    rewrite N_lor_shiftl_add
      by (change (2 ^ 16)%N with 65536%N; change (2 ^ 8)%N with 256%N; lia).
    change (2 ^ 16)%N with 65536%N. change (2 ^ 18)%N with 262144%N.
    change (2 ^ 12)%N with 4096%N. change (2 ^ 8)%N with 256%N.
    change (2 ^ 6)%N with 64%N.
    generalize dependent (Byte.to_N a). intros n Hn.
    generalize dependent (Byte.to_N b). intros m Hm.
    assert (H1 : ((4096 * ((n * 65536 + m * 256) / 262144 mod 64) +
                   64 * ((n * 65536 + m * 256) / 4096 mod 64) +
                   (n * 65536 + m * 256) / 64 mod 64) / 1024 = n)%N)
      by (zify; Z.to_euclidean_division_equations; lia).
    assert (H2 : (((4096 * ((n * 65536 + m * 256) / 262144 mod 64) +
                   64 * ((n * 65536 + m * 256) / 4096 mod 64) +
                   (n * 65536 + m * 256) / 64 mod 64) / 4) mod 256 = m)%N)
      by (zify; Z.to_euclidean_division_equations; lia).
    now rewrite H1, H2.
  - cbn [base64_URLEncoding_EncodeToString base64url_bytes map].
    rewrite !base64url_value_sextet, IH.
    pose proof (byte_bound a) as Ha. pose proof (byte_bound b) as Hb.
    pose proof (byte_bound c) as Hc.
    rewrite group_value by assumption.
    change (2 ^ 18)%N with 262144%N. change (2 ^ 12)%N with 4096%N.
    change (2 ^ 6)%N with 64%N. change (2 ^ 0)%N with 1%N.
    generalize dependent (Byte.to_N a). intros n Hn.
    generalize dependent (Byte.to_N b). intros m Hm.
    generalize dependent (Byte.to_N c). intros k Hk.
    cbv zeta.
    assert (Hval : (262144 * ((65536 * n + 256 * m + k) / 262144 mod 64) +
                    4096 * ((65536 * n + 256 * m + k) / 4096 mod 64) +
                    64 * ((65536 * n + 256 * m + k) / 64 mod 64) +
                    (65536 * n + 256 * m + k) / 1 mod 64 =
                    65536 * n + 256 * m + k)%N)
      by (zify; Z.to_euclidean_division_equations; lia).
    rewrite Hval.
    assert (H1 : ((65536 * n + 256 * m + k) / 65536 = n)%N)
      by (zify; Z.to_euclidean_division_equations; lia).
    assert (H2 : (((65536 * n + 256 * m + k) / 256) mod 256 = m)%N)
      by (zify; Z.to_euclidean_division_equations; lia).
    assert (H3 : ((65536 * n + 256 * m + k) mod 256 = k)%N)
      by (zify; Z.to_euclidean_division_equations; lia).
    now rewrite H1, H2, H3.
Qed.



(** [GenerateAgreementId] returns the error of the random source, and the
    empty string exactly when there is an error. *)
Theorem GenerateAgreementId_empty_iff_error (r : RandRead) :
  (GenerateAgreementId r).2 = rand_err r /\
  ((GenerateAgreementId r).1 = "" <-> rand_err r <> None).
Proof.
  unfold GenerateAgreementId.
  pose proof (rand_Read_length r (make_bytes 32)) as Hlen.
  destruct (rand_Read r (make_bytes 32)) as [bytes err] eqn:Hread.
  assert (Herr : err = rand_err r).
  { unfold rand_Read in Hread. now injection Hread as _ <-. }
  cbn [fst] in Hlen. change (length (make_bytes 32)) with 32%nat in Hlen.
  subst err. cbn [fst snd]. split; [reflexivity|].
  destruct (rand_err r) as [e|].
  - split; [discriminate | reflexivity].
  - split; [|congruence]. intros Hempty.
    apply (f_equal String.length) in Hempty.
    rewrite hex_EncodeToString_length, Hlen in Hempty. discriminate.
Qed.

(** *** [CheckConnectivity] *)

(** [CheckConnectivity] looks the host up at most three times and stops at
    the first lookup that succeeds, returning [nil]; it sleeps once after
    every failed lookup, also after the third, and then returns the error
    of the third lookup. *)
Theorem CheckConnectivity_attempts (lookup : nat -> option error) :
  let '(err, lookups, sleeps) := CheckConnectivity lookup in
  (1 <= lookups <= 3)%nat /\
  sleeps = match err with Some _ => lookups | None => (lookups - 1)%nat end /\
  (forall i, (i < lookups - 1)%nat -> lookup i <> None) /\
  match err with
  | None => lookup (lookups - 1)%nat = None
  | Some e => lookups = 3%nat /\ lookup 2%nat = Some e
  end.
Proof.
  unfold CheckConnectivity. cbn [CheckConnectivity_loop].
  destruct (lookup 0%nat) as [e0|] eqn:H0.
  2:{ refine (conj _ (conj _ (conj _ _))); cbn; try lia; assumption. }
  destruct (lookup 1%nat) as [e1|] eqn:H1.
  2:{ refine (conj _ (conj _ (conj _ _))); cbn; try lia; try assumption.
      intros i Hi. assert (i = 0%nat) as -> by lia. congruence. }
  assert (Hfirst : forall i, (i < 2)%nat -> lookup i <> None).
  { intros i Hi. assert (i = 0 \/ i = 1)%nat as [-> | ->] by lia; congruence. }
  destruct (lookup 2%nat) as [e2|] eqn:H2;
    refine (conj _ (conj _ (conj _ _))); cbn; try lia; try assumption;
    try exact Hfirst.
  split; reflexivity.
Qed.

(** *** [Minuint64], [Maxuint64], [TruncateDisplayString] *)

(** [Minuint64] and [Maxuint64] return one of their arguments each, the one
    the other does not return when the arguments differ, and the minimum is
    at most the maximum. *)
Theorem Minuint64_Maxuint64 (first second : Z) :
  Minuint64 first second = Z.min first second /\
  Maxuint64 first second = Z.max first second /\
  Min first second = Z.min first second /\
  Minuint64 first second <= Maxuint64 first second /\
  Minuint64 first second + Maxuint64 first second = first + second.
Proof.
  unfold Minuint64, Maxuint64, Min.
  destruct (Z.ltb_spec first second), (Z.gtb_spec first second); lia.
Qed.

Lemma substring_prefix_length (s t : string) :
  substring 0 (String.length s) (s ++ t) = s.
Proof.
  induction s as [|c s IH]; [now destruct t|].
  change (String c s ++ t) with (String c (s ++ t)).
  cbn [String.length substring]. now rewrite IH.
Qed.

Lemma substring_0_length (s : string) (n : nat) :
  (n <= String.length s)%nat -> String.length (substring 0 n s) = n.
Proof.
  revert n. induction s as [|c s IH]; intros [|n] Hn; cbn in *; try lia.
  rewrite IH; lia.
Qed.

Lemma string_app_length (s t : string) :
  String.length (s ++ t) = (String.length s + String.length t)%nat.
Proof.
  induction s as [|c s IH]; [reflexivity|].
  change (String c s ++ t) with (String c (s ++ t)).
  cbn [String.length]. now rewrite IH.
Qed.

(** [TruncateDisplayString(s, n)] returns [s] itself when [s] has at most
    [n] bytes; otherwise, for [n >= 0], the first [n] bytes of [s] followed
    by three dots, [n + 3] bytes in all (more than [s] has when [s] is only
    one or two bytes too long); and it panics exactly when [n] is negative
    (no string has so few bytes, and [s[:n]] is out of range). *)
Theorem TruncateDisplayString_cases (s : string) (n : Z) :
  (Z.of_nat (String.length s) <= n -> TruncateDisplayString s n = Returns s) /\
  (0 <= n < Z.of_nat (String.length s) ->
   exists t, TruncateDisplayString s n = Returns (t ++ "...") /\
             String.length t = Z.to_nat n /\
             String.prefix t s = true /\
             String.length (t ++ "...") = (Z.to_nat n + 3)%nat) /\
  (TruncateDisplayString s n = Panics <-> n < 0).
Proof.
  unfold TruncateDisplayString.
  destruct (Z.leb_spec (Z.of_nat (String.length s)) n) as [Hle|Hgt].
  - split; [reflexivity|]. split; [lia|]. split; [discriminate | lia].
  - split; [lia|].
    destruct (Z.ltb_spec n 0) as [Hneg|Hpos].
    + split; [lia|]. split; [lia | reflexivity].
    + split; [|split; [discriminate | lia]].
      intros _. exists (substring 0 (Z.to_nat n) s).
      split; [reflexivity|].
      assert (Hlen : String.length (substring 0 (Z.to_nat n) s) = Z.to_nat n)
        by (apply substring_0_length; lia).
      split; [exact Hlen|]. split.
      * clear Hlen. assert (Hn : (Z.to_nat n <= String.length s)%nat) by lia.
        clear Hgt Hpos. revert Hn. generalize (Z.to_nat n) as k. clear n.
        induction s as [|c s IH]; intros [|k] Hk; cbn in *; try reflexivity; try lia.
        destruct (ascii_dec c c) as [_|Hc]; [apply IH; lia | congruence].
      * rewrite string_app_length, Hlen. reflexivity.
Qed.

Lemma TruncateDisplayString_cases_witness :
  TruncateDisplayString "agreement" 9 = Returns "agreement" /\
  (exists t, TruncateDisplayString "agreement" 7 = Returns (t ++ "...") /\
             String.length t = 7%nat /\
             String.prefix t "agreement" = true /\
             String.length (t ++ "...") = 10%nat) /\
  TruncateDisplayString "agreement" (-1) = Panics.
Proof.
  destruct (TruncateDisplayString_cases "agreement" 9) as (Hfit & _ & _).
  destruct (TruncateDisplayString_cases "agreement" 7) as (_ & Hcut & _).
  destruct (TruncateDisplayString_cases "agreement" (-1)) as (_ & _ & Hneg).
  split; [apply Hfit; vm_compute; discriminate|].
  split; [apply Hcut; vm_compute; split; [discriminate | reflexivity]|].
  apply Hneg. reflexivity.
Defined.

End CutilMore.

(* --------------------------------------------------------------------- *)
(** ** cutil: user input variables and environment maps                    *)
(* --------------------------------------------------------------------- *)

Section CutilVariables.
Import cutil.
Context `{Float64}.

Lemma string_app_assoc (a b c : string) : (a ++ b) ++ c = a ++ b ++ c.
Proof.
  induction a as [|x a IH]; [reflexivity|].
  change (String x a ++ b) with (String x (a ++ b)).
  change (String x (a ++ b) ++ c) with (String x ((a ++ b) ++ c)).
  now rewrite IH.
Qed.

Lemma string_app_nil_r (a : string) : a ++ "" = a.
Proof.
  induction a as [|x a IH]; [reflexivity|].
  change (String x a ++ "") with (String x (a ++ "")). now rewrite IH.
Qed.

Lemma join_strings_acc (l : list value) (los : string) :
  join_strings l los = los ++ join_strings l "".
Proof.
  revert los. induction l as [|v l IH]; intros los.
  - cbn. now rewrite string_app_nil_r.
  - destruct v; cbn [join_strings]; try apply IH.
    rewrite IH, (IH ("" ++ s ++ " ")).
    change ("" ++ s ++ " ") with (s ++ " ").
    now rewrite !string_app_assoc.
Qed.

Lemma join_strings_none (l : list value) :
  strings_of l = [] -> join_strings l "" = "".
Proof.
  induction l as [|v l IH]; [reflexivity|].
  destruct v; cbn [strings_of join_strings]; try exact IH. discriminate.
Qed.

Lemma join_strings_concat (l : list value) :
  strings_of l <> [] ->
  join_strings l "" = String.concat " " (strings_of l) ++ " ".
Proof.
  induction l as [|v l IH]; [intros Hnil; now destruct Hnil|].
  destruct v; cbn [strings_of join_strings]; try exact IH.
  intros _. rewrite join_strings_acc.
  change ("" ++ s ++ " ") with (s ++ " ").
  destruct (strings_of l) as [|s' ss] eqn:Hss.
  - rewrite join_strings_none by assumption. cbn [String.concat].
    now rewrite string_app_nil_r.
  - rewrite IH by congruence.
    change (String.concat " " (s :: s' :: ss))
      with (s ++ " " ++ String.concat " " (s' :: ss)).
    now rewrite !string_app_assoc.
Qed.

Lemma NativeToEnvVariableMap_no_strings (envMap : gmap string string)
    (varName : string) (l : list value) :
  strings_of l = [] ->
  NativeToEnvVariableMap envMap varName (VList l) = Panics.
Proof. intros Hnone. unfold NativeToEnvVariableMap. now rewrite join_strings_none. Qed.

Lemma NativeToEnvVariableMap_strings (envMap : gmap string string)
    (varName : string) (l : list value) :
  strings_of l <> [] ->
  NativeToEnvVariableMap envMap varName (VList l) =
  Returns (None, <[varName := String.concat " " (strings_of l)]> envMap).
Proof.
  intros Hsome. unfold NativeToEnvVariableMap.
  rewrite join_strings_concat by assumption.
  rewrite string_app_length. cbn [String.length].
  destruct (Nat.eqb_spec (String.length (String.concat " " (strings_of l)) + 1) 0)
    as [Hz|_]; [lia|].
  replace (String.length (String.concat " " (strings_of l)) + 1 - 1)%nat
    with (String.length (String.concat " " (strings_of l))) by lia.
  now rewrite substring_prefix_length.
Qed.

(** [NativeToEnvVariableMap] on a list: the value stored under [varName]
    is the string elements of the list, in order, with one blank between
    neighbours; elements that are not strings are left out without an
    error; and a list with no string element at all (the empty list for
    one) makes [los[:len(los)-1]] panic. *)
Theorem NativeToEnvVariableMap_list (envMap : gmap string string)
    (varName : string) (l : list value) :
  (strings_of l = [] ->
   NativeToEnvVariableMap envMap varName (VList l) = Panics) /\
  (strings_of l <> [] ->
   NativeToEnvVariableMap envMap varName (VList l) =
   Returns (None, <[varName := String.concat " " (strings_of l)]> envMap)).
Proof.
  split; [apply NativeToEnvVariableMap_no_strings | apply NativeToEnvVariableMap_strings].
Qed.

(** [NativeToEnvVariableMap] writes the entry of [varName] and no other:
    when it returns without an error, [varName] is in the map and every
    other key has the value it had; it returns an error only for a value of
    a type it does not know, and then the map is as it was. *)
Theorem NativeToEnvVariableMap_frame (envMap envMap' : gmap string string)
    (varName : string) (varValue : value) (err : option var_error) :
  NativeToEnvVariableMap envMap varName varValue = Returns (err, envMap') ->
  (forall k, k <> varName -> envMap' !! k = envMap !! k) /\
  (err = None -> is_Some (envMap' !! varName)) /\
  (forall e, err = Some e ->
     varValue = VOther /\ e = UnknownVariableType varName /\ envMap' = envMap).
Proof.
  intros Hrun.
  assert (Hins : forall x : string,
            (forall k, k <> varName -> <[varName := x]> envMap !! k = envMap !! k) /\
            (@None var_error = None -> is_Some (<[varName := x]> envMap !! varName)) /\
            (forall e, @None var_error = Some e ->
               varValue = VOther /\ e = UnknownVariableType varName /\
               <[varName := x]> envMap = envMap)).
  { intros x. split; [|split].
    - intros k Hk. now rewrite lookup_insert_ne.
    - intros _. rewrite lookup_insert_eq. now eexists.
    - discriminate. }
  unfold NativeToEnvVariableMap in Hrun.
  destruct varValue as [b|s|f|n|l|].
  - injection Hrun as <- <-. apply Hins.
  - injection Hrun as <- <-. apply Hins.
  - destruct (is_whole f); injection Hrun as <- <-; apply Hins.
  - injection Hrun as <- <-. apply Hins.
  - destruct (String.length (join_strings l "") =? 0)%nat; [discriminate|].
    injection Hrun as <- <-. apply Hins.
  - injection Hrun as <- <-. split; [reflexivity|]. split; [discriminate|].
    intros e [= <-]. auto.
Qed.

Lemma all_strings_strings_of (l : list value) :
  all_strings l = true -> l <> [] -> strings_of l <> [].
Proof.
  destruct l as [|v l]; [congruence|].
  destruct v; cbn [all_strings strings_of]; discriminate.
Qed.

Lemma all_strings_Forall (l : list value) :
  all_strings l = true <-> Forall (fun v => exists s, v = VString s) l.
Proof.
  induction l as [|v l IH]; [easy|].
  rewrite Forall_cons. destruct v; cbn [all_strings];
    try (split; [discriminate | intros [[s Hs] _]; discriminate]).
  rewrite IH. split; [intros Hl; split; [now eexists | assumption] | now intros [_ Hl]].
Qed.

(** What [VerifyWorkloadVarTypes] accepts: a boolean for [bool] and
    [boolean]; a string for [string]; a [json.Number] for [float], and for
    [int] when its text has no [.]; a list for [list of strings] when all
    its elements are strings.  Nothing else: no [float64] value, and no
    value at all for an expected type with another name. *)
Theorem VerifyWorkloadVarTypes_accepts (varValue : value) (expectedType : string) :
  VerifyWorkloadVarTypes varValue expectedType = None <->
  match varValue with
  | VBool _ => expectedType = "bool" \/ expectedType = "boolean"
  | VString _ => expectedType = "string"
  | VNumber n =>
      expectedType = "float" \/
      (expectedType = "int" /\ strings_Contains n "." = false)
  | VList l =>
      expectedType = "list of strings" /\
      Forall (fun v => exists s, v = VString s) l
  | VFloat _ | VOther => False
  end.
Proof.
  unfold VerifyWorkloadVarTypes.
  destruct varValue as [b|s|f|n|l|].
  - destruct (String.eqb_spec expectedType "bool") as [->|Hb]; cbn;
      [intuition|].
    destruct (String.eqb_spec expectedType "boolean") as [->|Hbn]; cbn;
      intuition congruence.
  - destruct (String.eqb_spec expectedType "string") as [->|Hs]; cbn;
      intuition congruence.
  - intuition congruence.
  - destruct (String.eqb_spec expectedType "int") as [->|Hi]; cbn.
    + rewrite andb_true_r.
      destruct (strings_Contains n "."); intuition congruence.
    + rewrite andb_false_r.
      destruct (String.eqb_spec expectedType "float") as [->|Hf]; cbn;
        intuition congruence.
  - destruct (String.eqb_spec expectedType "list of strings") as [->|Hl]; cbn.
    2:{ intuition congruence. }
    rewrite <- all_strings_Forall.
    destruct (all_strings l) eqn:Hall; intuition congruence.
  - intuition congruence.
Qed.

(** A value that [VerifyWorkloadVarTypes] accepts is stored by
    [NativeToEnvVariableMap] without an error, with one exception: the
    empty list passes the check and makes the conversion panic. *)
Theorem verified_value_converts (envMap : gmap string string)
    (varName expectedType : string) (varValue : value) :
  VerifyWorkloadVarTypes varValue expectedType = None ->
  (varValue = VList [] /\
   NativeToEnvVariableMap envMap varName varValue = Panics) \/
  (varValue <> VList [] /\
   exists text,
     NativeToEnvVariableMap envMap varName varValue =
     Returns (None, <[varName := text]> envMap)).
Proof.
  intros Hok. destruct varValue as [b|s|f|n|l|].
  - right. split; [discriminate|]. now eexists.
  - right. split; [discriminate|]. now eexists.
  - discriminate.
  - right. split; [discriminate|]. now eexists.
  - unfold VerifyWorkloadVarTypes in Hok.
    destruct (negb (expectedType =? "list of strings")%string); [discriminate|].
    destruct (all_strings l) eqn:Hall; [|discriminate].
    destruct l as [|v l].
    + left. split; [reflexivity|].
      now apply NativeToEnvVariableMap_no_strings.
    + right. split; [discriminate|].
      eexists. apply NativeToEnvVariableMap_strings.
      apply all_strings_strings_of; [assumption | discriminate].
  - discriminate.
Qed.

End CutilVariables.

Section CutilVariablesExamples.
Import cutil.
#[local] Existing Instance examples.two_floats.

Lemma NativeToEnvVariableMap_list_witness :
  NativeToEnvVariableMap {[ "V" := "old" ]} "V" (VList []) = Panics /\
  NativeToEnvVariableMap {[ "V" := "old" ]} "V"
    (VList [VString "a"; VBool true; VString "b c"]) =
  Returns (None, <[ "V" := "a b c" ]> {[ "V" := "old" ]}).
Proof.
  split.
  - apply (NativeToEnvVariableMap_list {[ "V" := "old" ]} "V" []). reflexivity.
  - apply (NativeToEnvVariableMap_list {[ "V" := "old" ]} "V"
             [VString "a"; VBool true; VString "b c"]). discriminate.
Defined.

Lemma NativeToEnvVariableMap_frame_witness :
  (forall k, k <> "V" ->
     (<[ "V" := "7" ]> ({[ "W" := "w" ]} : gmap string string)) !! k =
     ({[ "W" := "w" ]} : gmap string string) !! k) /\
  (@None var_error = None ->
     is_Some ((<[ "V" := "7" ]> ({[ "W" := "w" ]} : gmap string string)) !! "V")) /\
  (forall e, @None var_error = Some e ->
     VNumber "7" = VOther /\ e = UnknownVariableType "V" /\
     <[ "V" := "7" ]> ({[ "W" := "w" ]} : gmap string string) = {[ "W" := "w" ]}).
Proof.
  apply (NativeToEnvVariableMap_frame {[ "W" := "w" ]} _ "V" (VNumber "7") None).
  reflexivity.
Defined.

Lemma verified_value_converts_witness :
  (VList [VString "a"] = VList [] /\
   NativeToEnvVariableMap ∅ "V" (VList [VString "a"]) = Panics) \/
  (VList [VString "a"] <> VList [] /\
   exists text,
     NativeToEnvVariableMap ∅ "V" (VList [VString "a"]) =
     Returns (None, <["V" := text]> ∅)).
Proof.
  apply (verified_value_converts ∅ "V" "list of strings" (VList [VString "a"])).
  reflexivity.
Defined.

End CutilVariablesExamples.

(* --------------------------------------------------------------------- *)
(** ** cutil: environment variables, instance keys, map copies             *)
(* --------------------------------------------------------------------- *)

Section CutilEnvironment.
Import cutil.

Lemma string_app_inj (p a b : string) : p ++ a = p ++ b -> a = b.
Proof.
  induction p as [|c p IH]; [easy|].
  change (String c p ++ a) with (String c (p ++ a)).
  change (String c p ++ b) with (String c (p ++ b)).
  intros [= Heq]. auto.
Qed.

Lemma prefixed_ne (p a b : string) : a <> b -> p ++ a <> p ++ b.
Proof. intros Hne Heq. apply Hne, (string_app_inj p), Heq. Qed.

Ltac lookup_env :=
  repeat first
    [ rewrite lookup_insert_eq
    | rewrite lookup_insert_ne by (first [ apply prefixed_ne; discriminate
                                         | congruence ]) ];
  try reflexivity.

(** [SetPlatformEnvvars]: afterwards the device id, the organization and
    the exchange URL are in the map under their prefixed names, whatever
    they are; the agreement id and the workload password are written only
    when they are not empty, and an empty one leaves the entry of an
    earlier call in place; no other key changes. *)
Theorem SetPlatformEnvvars_entries (envAdds : gmap string string)
    (prefix agreementId deviceId org workloadPW exchangeURL : string) :
  let envAdds' :=
    SetPlatformEnvvars envAdds prefix agreementId deviceId org workloadPW
      exchangeURL in
  envAdds' !! (prefix ++ "DEVICE_ID") = Some deviceId /\
  envAdds' !! (prefix ++ "ORGANIZATION") = Some org /\
  envAdds' !! (prefix ++ "EXCHANGE_URL") = Some exchangeURL /\
  envAdds' !! (prefix ++ "AGREEMENTID") =
    (if String.eqb agreementId "" then envAdds !! (prefix ++ "AGREEMENTID")
     else Some agreementId) /\
  envAdds' !! (prefix ++ "HASH") =
    (if String.eqb workloadPW "" then envAdds !! (prefix ++ "HASH")
     else Some workloadPW) /\
  forall k, k ∉ platform_keys prefix -> envAdds' !! k = envAdds !! k.
Proof.
  cbv zeta. unfold SetPlatformEnvvars.
  destruct (String.eqb agreementId ""), (String.eqb workloadPW "");
    cbn [negb]; (repeat split; [lookup_env ..|]);
    intros k Hk; unfold platform_keys in Hk;
    rewrite !not_elem_of_cons in Hk; destruct Hk as (? & ? & ? & ? & ? & _);
    lookup_env.
Qed.

(** [SetSystemEnvvars]: afterwards the five prefixed names hold the
    latitude, the longitude, the CPUs, the RAM and the architecture, the
    last one replaced by [runtime.GOARCH] when it is empty; no other key
    changes. *)
Theorem SetSystemEnvvars_entries (GOARCH : string) (envAdds : gmap string string)
    (prefix lat lon cpus ram arch : string) :
  let envAdds' := SetSystemEnvvars GOARCH envAdds prefix lat lon cpus ram arch in
  envAdds' !! (prefix ++ "LAT") = Some lat /\
  envAdds' !! (prefix ++ "LON") = Some lon /\
  envAdds' !! (prefix ++ "CPUS") = Some cpus /\
  envAdds' !! (prefix ++ "RAM") = Some ram /\
  envAdds' !! (prefix ++ "ARCH") =
    Some (if String.eqb arch "" then GOARCH else arch) /\
  forall k, k ∉ system_keys prefix -> envAdds' !! k = envAdds !! k.
Proof.
  cbv zeta. unfold SetSystemEnvvars.
  destruct (String.eqb arch "");
    (repeat split; [lookup_env ..|]);
    intros k Hk; unfold system_keys in Hk;
    rewrite !not_elem_of_cons in Hk; destruct Hk as (? & ? & ? & ? & ? & _);
    lookup_env.
Qed.

(** *** [MakeMSInstanceKey] *)

Lemma strings_Cut_index (sep s : string) :
  strings_Cut sep s = None <-> String.index 0 sep s = None.
Proof.
  induction s as [|c s IH].
  - cbn. destruct sep; easy.
  - cbn [strings_Cut String.index].
    destruct (String.prefix sep (String c s)); [easy|].
    destruct (strings_Cut sep s) as [[before after]|],
             (String.index 0 sep s); intuition congruence.
Qed.

Lemma strings_Contains_Cut (sep s : string) :
  strings_Contains s sep = true -> exists ba, strings_Cut sep s = Some ba.
Proof.
  unfold strings_Contains. intros Hc.
  destruct (strings_Cut sep s) as [ba|] eqn:Hcut; [now eexists|].
  apply strings_Cut_index in Hcut. now rewrite Hcut in Hc.
Qed.

Lemma strings_not_Contains_Cut (sep s : string) :
  strings_Contains s sep = false -> strings_Cut sep s = None.
Proof.
  unfold strings_Contains. intros Hc. apply strings_Cut_index.
  now destruct (String.index 0 sep s).
Qed.

Lemma slashes_to_dashes_no_slash (s : string) :
  no_slash (slashes_to_dashes s) = true.
Proof.
  induction s as [|c s IH]; [reflexivity|].
  cbn [slashes_to_dashes]. unfold no_slash in *. cbn [string_forallb].
  rewrite IH, andb_true_r.
  destruct (Ascii.eqb_spec c "/") as [->|Hc]; [reflexivity|].
  destruct (Ascii.eqb_spec c "/"); [contradiction | reflexivity].
Qed.

Lemma slashes_to_dashes_length (s : string) :
  String.length (slashes_to_dashes s) = String.length s.
Proof. induction s as [|c s IH]; cbn; [reflexivity | now rewrite IH]. Qed.

Lemma substring_skip (p s : string) :
  substring (String.length p) (String.length (p ++ s)) (p ++ s) = s.
Proof.
  induction p as [|c p IH].
  - change ("" ++ s) with s. rewrite <- (string_app_nil_r s) at 2.
    apply substring_prefix_length.
  - change (String c p ++ s) with (String c (p ++ s)).
    cbn [String.length substring].
    assert (Hmore : forall n m t, (String.length t <= m)%nat ->
              substring n (S m) t = substring n m t).
    { clear. intros n m t. revert n m.
      induction t as [|d t IHt]; intros [|n] [|m] Hm; cbn in *;
        try reflexivity; try lia;
        first [ apply IHt; lia | f_equal; apply IHt; lia ]. }
    rewrite Hmore; [exact IH|]. rewrite string_app_length. lia.
Qed.

Lemma strings_Cut_scheme (scheme rest : string) :
  no_colon scheme = true ->
  strings_Cut "://" (scheme ++ "://" ++ rest) = Some (scheme, rest).
Proof.
  intros Hscheme. induction scheme as [|c scheme IH].
  - change ("" ++ "://" ++ rest) with (String ":" (String "/" (String "/" rest))).
    cbn [strings_Cut].
    assert (Hpre : String.prefix "://" (String ":" (String "/" (String "/" rest)))
                   = true).
    { cbn. repeat (destruct (ascii_dec _ _); [|congruence]). now destruct rest. }
    rewrite Hpre. do 2 f_equal. exact (substring_skip "://" rest).
  - unfold no_colon in *. cbn [string_forallb] in Hscheme.
    apply andb_true_iff in Hscheme as [Hc Hscheme].
    change (String c scheme ++ "://" ++ rest)
      with (String c (scheme ++ "://" ++ rest)).
    cbn [strings_Cut]. rewrite (IH Hscheme).
    assert (Hpre : String.prefix "://" (String c (scheme ++ "://" ++ rest)) = false).
    { cbn [String.prefix].
      destruct (ascii_dec ":" c) as [<-|_]; [discriminate | reflexivity]. }
    now rewrite Hpre.
Qed.

(** [MakeMSInstanceKey] never panics (when the spec reference contains
    [://], [strings.Split] gives at least two fields), and the key is a
    text without [/], then [_], the version, [_] and the id.  Without
    [://] in the spec reference the text is the reference with every [/]
    turned into [-]; for a reference made of a scheme without [:], then
    [://], then a rest without [://], it is the rest with every [/] turned
    into [-]. *)
Theorem MakeMSInstanceKey_key (specRef v id : string) :
  (exists body,
     MakeMSInstanceKey specRef v id = Returns (body ++ "_" ++ v ++ "_" ++ id) /\
     no_slash body = true /\
     (strings_Contains specRef "://" = false ->
      body = slashes_to_dashes specRef /\
      String.length body = String.length specRef)) /\
  (forall scheme rest,
     no_colon scheme = true -> strings_Contains rest "://" = false ->
     MakeMSInstanceKey (scheme ++ "://" ++ rest) v id =
     Returns (slashes_to_dashes rest ++ "_" ++ v ++ "_" ++ id)).
Proof.
  split.
  - unfold MakeMSInstanceKey.
    destruct (strings_Contains specRef "://") eqn:Hc.
    + destruct (strings_Contains_Cut _ _ Hc) as [[before after] Hcut].
      unfold second_field. rewrite Hcut.
      destruct (strings_Cut "://" after) as [[field rest]|];
        eexists; (split; [reflexivity|]);
        (split; [apply slashes_to_dashes_no_slash | discriminate]).
    + eexists. split; [reflexivity|].
      split; [apply slashes_to_dashes_no_slash|].
      intros _. split; [reflexivity | apply slashes_to_dashes_length].
  - intros scheme rest Hscheme Hrest. unfold MakeMSInstanceKey.
    pose proof (strings_Cut_scheme scheme rest Hscheme) as Hcut.
    assert (Hc : strings_Contains (scheme ++ "://" ++ rest) "://" = true).
    { unfold strings_Contains.
      destruct (String.index 0 "://" (scheme ++ "://" ++ rest)) eqn:Hix;
        [reflexivity|].
      apply strings_Cut_index in Hix. congruence. }
    rewrite Hc. unfold second_field. rewrite Hcut.
    now rewrite (strings_not_Contains_Cut _ _ Hrest).
Qed.

Lemma MakeMSInstanceKey_key_witness :
  MakeMSInstanceKey ("https" ++ "://" ++ "bluehorizon.network/microservices/gps")
    "2.0.3" "abc" =
  Returns ("bluehorizon.network-microservices-gps_2.0.3_abc").
Proof.
  apply (proj2 (MakeMSInstanceKey_key "" "2.0.3" "abc") "https"
           "bluehorizon.network/microservices/gps"); reflexivity.
Defined.

(** *** [CopyMap] *)

Lemma CopyMap_union {V} (entries : list (string * V)) (m2 : gmap string V) :
  CopyMap entries m2 = list_to_map (reverse entries) ∪ m2.
Proof.
  unfold CopyMap. revert m2.
  induction entries as [|[k v] entries IH]; intros m2.
  - cbn. now rewrite (left_id_L ∅ (∪)).
  - cbn [fold_left fst snd]. rewrite IH, reverse_cons, list_to_map_app.
    cbn [list_to_map foldr]. rewrite <- (assoc_L (∪)).
    f_equal. cbn. now rewrite insert_union_singleton_l, insert_empty.
Qed.

(** [CopyMap(m1, m2)]: in whatever order the loop visits [m1], [m2] ends
    as [m1] laid over the old [m2]: a key of [m1] has the value of [m1], any
    other key the value it had in [m2]. *)
Theorem CopyMap_overlay {V} (m1 m2 : gmap string V) (entries : list (string * V)) :
  entries ≡ₚ map_to_list m1 ->
  CopyMap entries m2 = m1 ∪ m2 /\
  forall k, CopyMap entries m2 !! k =
            match m1 !! k with Some v => Some v | None => m2 !! k end.
Proof.
  intros Hperm.
  assert (Heq : CopyMap entries m2 = m1 ∪ m2).
  { rewrite CopyMap_union. f_equal.
    rewrite <- (list_to_map_to_list m1).
    apply list_to_map_proper.
    - rewrite reverse_Permutation, Hperm.
      apply NoDup_fst_map_to_list.
    - now rewrite reverse_Permutation, Hperm. }
  split; [exact Heq|].
  intros k. rewrite Heq, lookup_union.
  destruct (m1 !! k), (m2 !! k); reflexivity.
Qed.

Lemma CopyMap_overlay_witness :
  CopyMap [("b", 2); ("a", 1)] {[ "a" := 0; "c" := 3 ]} =
  ({[ "a" := 1; "b" := 2 ]} : gmap string Z) ∪ {[ "a" := 0; "c" := 3 ]}.
Proof.
  apply (CopyMap_overlay {[ "a" := 1; "b" := 2 ]} {[ "a" := 0; "c" := 3 ]}
           [("b", 2); ("a", 1)]).
  vm_compute map_to_list. 
  apply Permutation_swap || reflexivity.
Defined.

End CutilEnvironment.

(* --------------------------------------------------------------------- *)
(** ** The microservice definitions of the CLI                             *)
(* --------------------------------------------------------------------- *)

Section MicroserviceFacts.
Import cutil cliexchange.

Lemma service_names_acc (dc : Services) (servs : string) :
  service_names dc servs = servs ++ service_names dc "".
Proof.
  revert servs. induction dc as [|[serviceName service] dc IH]; intros servs.
  - cbn. now rewrite string_app_nil_r.
  - cbn [service_names]. rewrite IH, (IH ("" ++ serviceName ++ ", ")).
    change ("" ++ serviceName ++ ", ") with (serviceName ++ ", ").
    now rewrite !string_app_assoc.
Qed.

Lemma service_names_concat (dc : Services) :
  dc <> [] ->
  service_names dc "" = String.concat ", " (map fst dc) ++ ", ".
Proof.
  induction dc as [|[serviceName service] dc IH]; [intros Hnil; now destruct Hnil|].
  intros _. cbn [service_names map fst]. rewrite service_names_acc.
  change ("" ++ serviceName ++ ", ") with (serviceName ++ ", ").
  destruct dc as [|entry dc].
  - cbn [service_names String.concat map]. now rewrite string_app_nil_r.
  - rewrite IH by discriminate. cbn [map].
    change (String.concat ", " (serviceName :: fst entry :: map fst dc))
      with (serviceName ++ ", " ++ String.concat ", " (fst entry :: map fst dc)).
    now rewrite !string_app_assoc.
Qed.

(** [CLIString] panics exactly for a deployment configuration without
    services, the one for which [HasAnyServices] is false (and which
    [CanStartStop] accepts); for any other it is [service(s)] and the names
    of the services in the order of the visit, with a comma and a blank
    between neighbours. *)
Theorem CLIString_services (dc : Services) :
  (CLIString dc = Panics <-> HasAnyServices dc = false) /\
  (HasAnyServices dc = false -> CanStartStop dc = Returns None) /\
  (dc <> [] ->
   CLIString dc = Returns ("service(s) " ++ String.concat ", " (map fst dc))).
Proof.
  assert (Hsome : dc <> [] ->
            CLIString dc =
            Returns ("service(s) " ++ String.concat ", " (map fst dc))).
  { intros Hne. unfold CLIString. rewrite service_names_concat by assumption.
    rewrite string_app_length. cbn [String.length].
    destruct (Nat.ltb_spec (String.length (String.concat ", " (map fst dc)) + 2) 2)
      as [Hlt|_]; [lia|].
    replace (String.length (String.concat ", " (map fst dc)) + 2 - 2)%nat
      with (String.length (String.concat ", " (map fst dc))) by lia.
    now rewrite substring_prefix_length. }
  split; [|split; [|exact Hsome]].
  - destruct dc as [|entry dc].
    + split; reflexivity.
    + rewrite Hsome by discriminate. split; discriminate.
  - destruct dc as [|entry dc]; [reflexivity | discriminate].
Qed.

Lemma CanStartStop_loop_nil_iff (dc : Services) :
  CanStartStop_loop dc = Returns None <-> Forall startable dc.
Proof.
  induction dc as [|[serviceName service] dc IH]; [easy|].
  rewrite Forall_cons. unfold startable at 1. cbn [fst snd CanStartStop_loop].
  destruct (Nat.eqb_spec (String.length serviceName) 0) as [Hname|Hname].
  { destruct serviceName; [|discriminate]. split; [discriminate|].
    intros [[Hne _] _]. now destruct Hne. }
  assert (Hn : serviceName <> "") by (intros ->; now apply Hname).
  destruct service as [service|].
  2:{ split; [discriminate|]. intros [[_ (svc & Hsvc & _)] _]. discriminate. }
  destruct (Nat.eqb_spec (String.length (Image service)) 0) as [Himg|Himg].
  { split; [discriminate|]. intros [[_ (svc & [= <-] & Hi)] _].
    destruct (Image service); [now destruct Hi | discriminate]. }
  rewrite IH. split.
  - intros Hrest. split; [|exact Hrest]. split; [exact Hn|].
    exists service. split; [reflexivity|]. intros Hi. rewrite Hi in Himg.
    now apply Himg.
  - now intros [_ Hrest].
Qed.

(** [CanStartStop] returns [nil] exactly when every service has a name,
    is not [nil] and has an image; so whether it returns [nil] does not
    depend on the order in which the map is visited (which error it returns
    otherwise, and whether it panics on a [nil] service, does). *)
Theorem CanStartStop_nil_iff (dc : Services) :
  (CanStartStop dc = Returns None <-> Forall startable dc) /\
  (forall dc', Permutation dc dc' ->
     (CanStartStop dc = Returns None <-> CanStartStop dc' = Returns None)).
Proof.
  assert (Hiff : forall d, CanStartStop d = Returns None <-> Forall startable d).
  { intros d. unfold CanStartStop. destruct d as [|entry d]; [easy|].
    cbn [length Nat.eqb]. apply CanStartStop_loop_nil_iff. }
  split; [apply Hiff|].
  intros dc' Hperm. rewrite !Hiff. now rewrite Hperm.
Qed.

(** [RequiredVariablesAreSet] returns [nil] exactly when every user input
    that has no default value and has a name is a key of the given map.
    Otherwise the error names the first such input that is not set.  An
    input without a name is never asked for. *)
Theorem RequiredVariablesAreSet_nil_iff {V} (UserInputs : list UserInput)
    (setVars : gmap string V) :
  (RequiredVariablesAreSet UserInputs setVars = None <->
   Forall (fun ui => required ui -> is_Some (setVars !! Name ui)) UserInputs) /\
  (forall e,
     RequiredVariablesAreSet UserInputs setVars = Some e ->
     exists before ui after,
       UserInputs = (before ++ ui :: after)%list /\
       e = NotSet (Name ui) /\ required ui /\ setVars !! Name ui = None /\
       Forall (fun ui => required ui -> is_Some (setVars !! Name ui)) before).
Proof.
  assert (Hreq : forall ui,
            String.eqb (DefaultValue ui) "" && negb (String.eqb (Name ui) "") = true
            <-> required ui).
  { intros ui. unfold required.
    destruct (String.eqb_spec (DefaultValue ui) ""),
             (String.eqb_spec (Name ui) ""); cbn; intuition congruence. }
  induction UserInputs as [|ui rest [IHnil IHerr]].
  - split; [easy|]. discriminate.
  - cbn [RequiredVariablesAreSet]. rewrite Forall_cons.
    destruct (String.eqb (DefaultValue ui) "" && negb (String.eqb (Name ui) ""))
      eqn:Hui.
    + apply Hreq in Hui.
      destruct (setVars !! Name ui) as [x|] eqn:Hset.
      * split.
        { rewrite IHnil. split; [intros Hrest; split; [eauto | exact Hrest]|].
          now intros [_ Hrest]. }
        intros e He. destruct (IHerr e He) as (before & ui' & after & -> & Hrest).
        exists (ui :: before), ui', after. split; [reflexivity|].
        destruct Hrest as (He' & Hr & Hn & Hbefore).
        split; [exact He'|]. split; [exact Hr|]. split; [exact Hn|].
        constructor; [rewrite Hset; eauto | exact Hbefore].
      * split.
        { split; [discriminate|]. intros [Hthis _].
          destruct (Hthis Hui) as [x Hx]. discriminate. }
        intros e [= <-]. exists [], ui, rest.
        split; [reflexivity|]. split; [reflexivity|]. split; [exact Hui|].
        split; [exact Hset | constructor].
    + assert (Hnot : ~ required ui).
      { intros Hr. apply Hreq in Hr. congruence. }
      split.
      { rewrite IHnil. split; [intros Hrest; split; [tauto | exact Hrest]|].
        now intros [_ Hrest]. }
      intros e He. destruct (IHerr e He) as (before & ui' & after & -> & Hrest).
      exists (ui :: before), ui', after. split; [reflexivity|].
      destruct Hrest as (He' & Hr & Hn & Hbefore).
      split; [exact He'|]. split; [exact Hr|]. split; [exact Hn|].
      constructor; [tauto | exact Hbefore].
Qed.

(** [DefinesVariable] gives the type of the first user input of that name
    that has a type; the empty string says that there is none. *)
Lemma DefinesVariable_first (UserInputs : list UserInput) (name : string) :
  (DefinesVariable UserInputs name = "" <->
   Forall (fun ui => Name ui = name -> InputType ui = "") UserInputs) /\
  (DefinesVariable UserInputs name <> "" ->
   exists ui, In ui UserInputs /\ Name ui = name /\
              InputType ui = DefinesVariable UserInputs name).
Proof.
  induction UserInputs as [|ui rest [IHnil IHsome]].
  - split; [easy|]. intros Hne. now destruct Hne.
  - cbn [DefinesVariable]. rewrite Forall_cons.
    destruct (String.eqb_spec (Name ui) name) as [Hname|Hname];
      destruct (String.eqb_spec (InputType ui) "") as [Hty|Hty]; cbn [andb negb].
    + split; [rewrite IHnil; tauto|].
      intros Hne. destruct (IHsome Hne) as (ui' & Hin & Hrest).
      exists ui'. split; [now right | exact Hrest].
    + split; [tauto|]. intros _. exists ui. split; [now left | auto].
    + split; [rewrite IHnil; tauto|].
      intros Hne. destruct (IHsome Hne) as (ui' & Hin & Hrest).
      exists ui'. split; [now right | exact Hrest].
    + split; [rewrite IHnil; tauto|].
      intros Hne. destruct (IHsome Hne) as (ui' & Hin & Hrest).
      exists ui'. split; [now right | exact Hrest].
Qed.

End MicroserviceFacts.

(* --------------------------------------------------------------------- *)
(** ** The ledger client registry under events                             *)
(* --------------------------------------------------------------------- *)

Section RegistryEvents.
Import cs.

Lemma getBCNameMap_entries (org typeName t n o : string) (c : CSProtocolHandler) :
  registry_entry t n o (getBCNameMap org typeName c).2 = registry_entry t n o c.
Proof.
  unfold getBCNameMap, registry_entry.
  destruct (bcState c !! org) as [orgMap|] eqn:Horg; cbn.
  - destruct (orgMap !! typeName) as [nameMap|] eqn:Hty; cbn; [reflexivity|].
    destruct (decide (o = org)) as [->|Ho].
    + rewrite lookup_insert_eq, Horg.
      destruct (decide (t = typeName)) as [->|Ht].
      * now rewrite lookup_insert_eq, Hty, lookup_empty.
      * now rewrite lookup_insert_ne by congruence.
    + now rewrite lookup_insert_ne by congruence.
  - rewrite lookup_empty. cbn.
    destruct (decide (o = org)) as [->|Ho].
    + rewrite insert_insert_eq, lookup_insert_eq, Horg.
      destruct (decide (t = typeName)) as [->|Ht].
      * now rewrite lookup_insert_eq, lookup_empty.
      * now rewrite lookup_insert_ne, lookup_empty by congruence.
    + now rewrite insert_insert_eq, lookup_insert_ne by congruence.
Qed.

Lemma getBCNameMap_levels (org typeName : string) (c : CSProtocolHandler) :
  exists orgMap,
    bcState (getBCNameMap org typeName c).2 !! org = Some orgMap /\
    orgMap !! typeName = Some (getBCNameMap org typeName c).1.
Proof.
  unfold getBCNameMap.
  destruct (bcState c !! org) as [orgMap|] eqn:Horg; cbn.
  - destruct (orgMap !! typeName) as [nameMap|] eqn:Hty; cbn.
    + now exists orgMap.
    + eexists. rewrite lookup_insert_eq. split; [reflexivity|].
      now rewrite lookup_insert_eq.
  - rewrite lookup_empty. cbn. eexists.
    rewrite insert_insert_eq, lookup_insert_eq. split; [reflexivity|].
    now rewrite lookup_insert_eq.
Qed.

Lemma registry_entry_set_nameMap (org typeName t n o : string)
    (nameMap : gmap string BlockchainState) (c : CSProtocolHandler) :
  registry_entry t n o (set_nameMap org typeName nameMap c) =
  if decide (t = typeName /\ o = org) then nameMap !! n
  else registry_entry t n o c.
Proof.
  unfold set_nameMap, registry_entry. cbn.
  destruct (decide (o = org)) as [->|Ho].
  - rewrite lookup_insert_eq.
    destruct (decide (t = typeName)) as [->|Ht].
    + rewrite lookup_insert_eq. now rewrite decide_True by auto.
    + rewrite lookup_insert_ne by congruence.
      rewrite decide_False by tauto.
      destruct (bcState c !! org); cbn; [reflexivity | now rewrite lookup_empty].
  - rewrite lookup_insert_ne by congruence. now rewrite decide_False by tauto.
Qed.

Lemma set_nameMap_fields (org typeName : string)
    (nameMap : gmap string BlockchainState) (c : CSProtocolHandler) :
  let c' := set_nameMap org typeName nameMap c in
  name c' = name c /\ agbotId c' = agbotId c /\ token c' = token c /\
  ExchangeURL c' = ExchangeURL c /\
  genericAgreementPH c' = genericAgreementPH c /\
  deferredCommands c' = deferredCommands c /\ messages c' = messages c.
Proof. cbn. tauto. Qed.

(** The queries hand back the handler that [getBCNameMap] leaves. *)
Lemma queries_handler (typeName bcName org : string) (c : CSProtocolHandler) :
  (IsBlockchainReady typeName bcName org c).2 = (getBCNameMap org typeName c).2 /\
  (IsBlockchainWritable typeName bcName org c).2 = (getBCNameMap org typeName c).2 /\
  (String.eqb typeName "" && String.eqb bcName "" && String.eqb org "" = false ->
   (AgreementProtocolHandler typeName bcName org c).2 =
   (getBCNameMap org typeName c).2).
Proof.
  unfold IsBlockchainReady, IsBlockchainWritable, AgreementProtocolHandler.
  destruct (getBCNameMap org typeName c) as [nameMap c']. cbn [snd].
  split; [|split].
  - destruct (nameMap !! bcName) as [bc|]; [destruct (ready bc)|]; reflexivity.
  - destruct (nameMap !! bcName) as [bc|];
      [destruct (ready bc && writable bc)|]; reflexivity.
  - intros ->.
    destruct (nameMap !! bcName) as [bc|]; [destruct (ready bc)|]; reflexivity.
Qed.

(** The registry queries never add, change or drop a client: after
    [IsBlockchainReady], [IsBlockchainWritable], [AgreementProtocolHandler],
    [CanCancelNow] or [getColonusDir] every triple has the entry it had,
    and the queue of deferred commands and the sent messages are as they
    were.  What a query does leave behind is the (possibly empty) name map
    of the org and type it asked for, also when no client of that org or
    type was ever registered. *)
Theorem queries_keep_registry (typeName bcName org : string)
    (ag : Agreement) (c : CSProtocolHandler) :
  (forall c',
     c' = (IsBlockchainReady typeName bcName org c).2 \/
     c' = (IsBlockchainWritable typeName bcName org c).2 \/
     c' = (AgreementProtocolHandler typeName bcName org c).2 \/
     c' = (CanCancelNow (Some ag) c).2 \/
     c' = (getColonusDir (Some ag) c).2 ->
     (forall t n o, registry_entry t n o c' = registry_entry t n o c) /\
     deferredCommands c' = deferredCommands c /\
     messages c' = messages c) /\
  (exists orgMap,
     bcState (IsBlockchainReady typeName bcName org c).2 !! org = Some orgMap /\
     is_Some (orgMap !! typeName)).
Proof.
  assert (Hget : forall o t,
            (forall t' n' o', registry_entry t' n' o' (getBCNameMap o t c).2 =
                              registry_entry t' n' o' c) /\
            deferredCommands (getBCNameMap o t c).2 = deferredCommands c /\
            messages (getBCNameMap o t c).2 = messages c).
  { intros o t. split; [intros; apply getBCNameMap_entries|].
    pose proof (getBCNameMap_fields o t c) as Hf. cbn zeta in Hf. tauto. }
  destruct (queries_handler typeName bcName org c) as (Hr & Hw & Hh).
  split.
  - intros c' [-> | [-> | [-> | [-> | ->]]]].
    + rewrite Hr. apply Hget.
    + rewrite Hw. apply Hget.
    + destruct (String.eqb typeName "" && String.eqb bcName "" && String.eqb org "")
        eqn:Hempty.
      * unfold AgreementProtocolHandler. rewrite Hempty. cbn. tauto.
      * rewrite (Hh eq_refl). apply Hget.
    + unfold CanCancelNow, GetKnownBlockchain.
      specialize (Hget (BlockchainOrg ag) (BlockchainType ag)).
      destruct (getBCNameMap (BlockchainOrg ag) (BlockchainType ag) c)
        as [nameMap c1]. cbn [snd] in Hget.
      destruct (nameMap !! BlockchainName ag) as [bc|];
        [destruct (ready bc)|]; exact Hget.
    + unfold getColonusDir, GetKnownBlockchain.
      specialize (Hget (BlockchainOrg ag) (BlockchainType ag)).
      destruct (getBCNameMap (BlockchainOrg ag) (BlockchainType ag) c)
        as [nameMap c1]. cbn [snd] in Hget.
      destruct (nameMap !! BlockchainName ag) as [bc|];
        [destruct (ready bc)|]; exact Hget.
  - rewrite Hr. destruct (getBCNameMap_levels org typeName c) as (orgMap & Ho & Ht).
    exists orgMap. split; [exact Ho | rewrite Ht; eauto].
Qed.

(** *** [updateProducers] and [SetBlockchainWritable] *)

Lemma defer_loop (agreements : list Agreement) (c : CSProtocolHandler) :
  let c' :=
    fold_left
      (fun c ag =>
         let c := DeferCommand
                    (AsyncUpdateAgreement ASYNC_UPDATE
                       (CurrentAgreementId ag) (name c)) c in
         DeferCommand
           (AsyncWriteAgreement ASYNC_WRITE (CurrentAgreementId ag) (name c)) c)
      agreements c in
  deferredCommands c' =
    (deferredCommands c ++ flat_map (deferred_for (name c)) agreements)%list /\
  bcState c' = bcState c /\ messages c' = messages c /\ name c' = name c /\
  agbotId c' = agbotId c /\ token c' = token c /\
  ExchangeURL c' = ExchangeURL c /\
  genericAgreementPH c' = genericAgreementPH c.
Proof.
  cbv zeta. revert c. induction agreements as [|ag agreements IH]; intros c.
  - cbn. rewrite app_nil_r. tauto.
  - cbn [fold_left flat_map].
    destruct (IH (DeferCommand
                    (AsyncWriteAgreement ASYNC_WRITE (CurrentAgreementId ag)
                       (name (DeferCommand
                                (AsyncUpdateAgreement ASYNC_UPDATE
                                   (CurrentAgreementId ag) (name c)) c)))
                    (DeferCommand
                       (AsyncUpdateAgreement ASYNC_UPDATE
                          (CurrentAgreementId ag) (name c)) c)))
      as (Hd & Hb & Hm & Hn & Ha & Ht & He & Hg).
    rewrite Hd, Hb, Hm, Hn, Ha, Ht, He, Hg. cbn.
    rewrite <- !app_assoc. cbn. tauto.
Qed.

Lemma registry_entry_bcState (t n o : string) (c c' : CSProtocolHandler) :
  bcState c' = bcState c -> registry_entry t n o c' = registry_entry t n o c.
Proof. unfold registry_entry. now intros ->. Qed.

Lemma updateProducers_run (found : result (list Agreement)) (c : CSProtocolHandler) :
  let c' := (updateProducers found c).1 in
  deferredCommands c' =
    (deferredCommands c ++
     match found with
     | Ok agreements => flat_map (deferred_for (name c)) agreements
     | Err _ => []
     end)%list /\
  bcState c' = bcState c /\ messages c' = messages c /\ name c' = name c.
Proof.
  cbv zeta. unfold updateProducers. destruct found as [agreements|err].
  - cbn [fst]. pose proof (defer_loop agreements c) as Hloop.
    cbv zeta in Hloop. tauto.
  - cbn. rewrite app_nil_r. tauto.
Qed.

Lemma SetBlockchainWritable_unfold (ev : AccountFundedMessage)
    (newPH : ProtocolHandlerRef) (initErr : option error)
    (found : result (list Agreement)) (c : CSProtocolHandler) :
  (SetBlockchainWritable ev newPH initErr found c).1 =
  (updateProducers found
     (set_nameMap (funded_org ev) (funded_type ev)
        (<[funded_instance ev := funded_entry ev newPH]>
           (getBCNameMap (funded_org ev) (funded_type ev) c).1)
        (getBCNameMap (funded_org ev) (funded_type ev) c).2)).1.
Proof.
  unfold SetBlockchainWritable, funded_entry.
  destruct (getBCNameMap (funded_org ev) (funded_type ev) c) as [nameMap c1].
  cbn [fst snd].
  destruct (nameMap !! funded_instance ev);
    destruct (updateProducers found _) as [c2 log2]; reflexivity.
Qed.

Lemma SetBlockchainWritable_entries (ev : AccountFundedMessage)
    (newPH : ProtocolHandlerRef) (initErr : option error)
    (found : result (list Agreement)) (c : CSProtocolHandler) (t n o : string) :
  registry_entry t n o (SetBlockchainWritable ev newPH initErr found c).1 =
  if decide (t = funded_type ev /\ n = funded_instance ev /\ o = funded_org ev)
  then Some (funded_entry ev newPH)
  else registry_entry t n o c.
Proof.
  rewrite SetBlockchainWritable_unfold.
  rewrite (registry_entry_bcState t n o _ _
             (proj1 (proj2 (updateProducers_run found _)))).
  rewrite registry_entry_set_nameMap.
  destruct (decide (t = funded_type ev /\ o = funded_org ev)) as [[-> ->]|Hne].
  - destruct (decide (n = funded_instance ev)) as [->|Hn].
    + rewrite lookup_insert_eq. now rewrite decide_True by auto.
    + rewrite lookup_insert_ne by congruence. rewrite decide_False by tauto.
      now rewrite getBCNameMap_lookup.
  - rewrite decide_False by tauto. apply getBCNameMap_entries.
Qed.

Lemma SetBlockchainWritable_fields (ev : AccountFundedMessage)
    (newPH : ProtocolHandlerRef) (initErr : option error)
    (found : result (list Agreement)) (c : CSProtocolHandler) :
  let c' := (SetBlockchainWritable ev newPH initErr found c).1 in
  name c' = name c /\ agbotId c' = agbotId c /\ token c' = token c /\
  ExchangeURL c' = ExchangeURL c /\ messages c' = messages c.
Proof.
  cbv zeta. rewrite SetBlockchainWritable_unfold.
  pose proof (getBCNameMap_fields (funded_org ev) (funded_type ev) c) as Hf.
  cbv zeta in Hf. destruct Hf as (Hn & Ha & Ht & He & _ & _ & Hm).
  unfold updateProducers. destruct found as [agreements|err]; cbn [fst].
  - pose proof (defer_loop agreements
                  (set_nameMap (funded_org ev) (funded_type ev)
                     (<[funded_instance ev := funded_entry ev newPH]>
                        (getBCNameMap (funded_org ev) (funded_type ev) c).1)
                     (getBCNameMap (funded_org ev) (funded_type ev) c).2))
      as Hloop.
    cbv zeta in Hloop.
    destruct Hloop as (_ & _ & Hm' & Hn' & Ha' & Ht' & He' & _).
    rewrite Hm', Hn', Ha', Ht', He'. cbn. tauto.
  - cbn. tauto.
Qed.

Lemma SetBlockchainClientNotAvailable_fields
    (ev : BlockchainClientStoppingMessage) (c : CSProtocolHandler) :
  let c' := SetBlockchainClientNotAvailable ev c in
  name c' = name c /\ agbotId c' = agbotId c /\ token c' = token c /\
  ExchangeURL c' = ExchangeURL c /\
  deferredCommands c' = deferredCommands c /\ messages c' = messages c.
Proof.
  cbv zeta. unfold SetBlockchainClientNotAvailable.
  pose proof (getBCNameMap_fields (stopping_org ev) (stopping_type ev) c) as Hf.
  cbv zeta in Hf.
  destruct (getBCNameMap (stopping_org ev) (stopping_type ev) c) as [nameMap c1].
  cbn in *. tauto.
Qed.

(** [SetBlockchainWritable] registers the client of the event as ready and
    writable, with the endpoint and directory of the event and a new
    protocol handler, whether or not the triple was registered before and
    whether or not [InitBlockchain] fails (the failure is only logged).
    From then on [IsBlockchainReady] and [IsBlockchainWritable] hold for the
    triple and [getColonusDir] of an agreement on it gives the directory of
    the event.  The client of every other triple is as it was, and no
    message is sent. *)
Theorem SetBlockchainWritable_registers (ev : AccountFundedMessage)
    (newPH : ProtocolHandlerRef) (initErr : option error)
    (found : result (list Agreement)) (c : CSProtocolHandler) :
  let c' := (SetBlockchainWritable ev newPH initErr found c).1 in
  registry_entry (funded_type ev) (funded_instance ev) (funded_org ev) c' =
    Some (funded_entry ev newPH) /\
  (IsBlockchainReady (funded_type ev) (funded_instance ev) (funded_org ev) c').1
    = true /\
  (IsBlockchainWritable (funded_type ev) (funded_instance ev) (funded_org ev) c').1
    = true /\
  (forall ag,
     GetKnownBlockchain ag =
       (funded_type ev, funded_instance ev, funded_org ev) ->
     (getColonusDir (Some ag) c').1 = ColonusDir ev /\
     (CanCancelNow (Some ag) c').1 = true) /\
  (forall t n o,
     (t, n, o) <> (funded_type ev, funded_instance ev, funded_org ev) ->
     registry_entry t n o c' = registry_entry t n o c) /\
  messages c' = messages c.
Proof.
  cbv zeta.
  assert (Hentry :
    registry_entry (funded_type ev) (funded_instance ev) (funded_org ev)
      (SetBlockchainWritable ev newPH initErr found c).1 =
    Some (funded_entry ev newPH)).
  { rewrite SetBlockchainWritable_entries. now rewrite decide_True by auto. }
  split; [exact Hentry|].
  split; [rewrite IsBlockchainReady_spec, Hentry; reflexivity|].
  split; [rewrite IsBlockchainWritable_spec, Hentry; reflexivity|].
  split.
  { intros ag Hag. unfold GetKnownBlockchain in Hag.
    injection Hag as Ht Hn Ho.
    rewrite getColonusDir_spec, CanCancelNow_spec, Ht, Hn, Ho, Hentry.
    split; reflexivity. }
  split.
  { intros t n o Hne. rewrite SetBlockchainWritable_entries.
    rewrite decide_False; [reflexivity|]. intros (-> & -> & ->). now apply Hne. }
  rewrite SetBlockchainWritable_unfold.
  rewrite (proj1 (proj2 (proj2 (updateProducers_run found _)))).
  cbn. pose proof (getBCNameMap_fields (funded_org ev) (funded_type ev) c) as Hf.
  cbv zeta in Hf. tauto.
Qed.

(** [SetBlockchainWritable] ends with [updateProducers]: for every
    agreement that [FindAgreements] returns, in that order, an
    [AsyncUpdateAgreement] and then an [AsyncWriteAgreement] with the id of
    the agreement and the name of the protocol are put at the end of the
    deferred queue, behind what was deferred before; when the database
    call fails, the queue is as it was and the failure is logged.  The log
    holds nothing but the failures of [InitBlockchain] and of
    [FindAgreements], in that order. *)
Theorem SetBlockchainWritable_defers (ev : AccountFundedMessage)
    (newPH : ProtocolHandlerRef) (initErr : option error)
    (found : result (list Agreement)) (c : CSProtocolHandler) :
  let '(c', log) := SetBlockchainWritable ev newPH initErr found c in
  deferredCommands c' =
    (deferredCommands c ++
     match found with
     | Ok agreements => flat_map (deferred_for (name c)) agreements
     | Err _ => []
     end)%list /\
  log =
    (match initErr with Some err => [InitBlockchainFailed err] | None => [] end ++
     match found with Err err => [FindAgreementsFailed err] | Ok _ => [] end)%list.
Proof.
  pose proof (SetBlockchainWritable_unfold ev newPH initErr found c) as Hun.
  pose proof (updateProducers_run found
                (set_nameMap (funded_org ev) (funded_type ev)
                   (<[funded_instance ev := funded_entry ev newPH]>
                      (getBCNameMap (funded_org ev) (funded_type ev) c).1)
                   (getBCNameMap (funded_org ev) (funded_type ev) c).2))
    as (Hd & _).
  rewrite <- Hun in Hd.
  pose proof (getBCNameMap_fields (funded_org ev) (funded_type ev) c) as Hf.
  cbv zeta in Hf. destruct Hf as (Hname & _ & _ & _ & _ & Hdef & _).
  cbn [set_nameMap with_bcState deferredCommands name] in Hd.
  rewrite Hname, Hdef in Hd.
  assert (Hlog : (SetBlockchainWritable ev newPH initErr found c).2 =
    (match initErr with Some err => [InitBlockchainFailed err] | None => [] end ++
     match found with Err err => [FindAgreementsFailed err] | Ok _ => [] end)%list).
  { unfold SetBlockchainWritable.
    destruct (getBCNameMap (funded_org ev) (funded_type ev) c) as [nameMap c1].
    destruct (nameMap !! funded_instance ev);
      unfold updateProducers; destruct found; reflexivity. }
  destruct (SetBlockchainWritable ev newPH initErr found c) as [c' log].
  cbn [fst snd] in *. split; assumption.
Qed.

(** *** [SetBlockchainClientNotAvailable] *)

Lemma SetBlockchainClientNotAvailable_entries
    (ev : BlockchainClientStoppingMessage) (c : CSProtocolHandler)
    (t n o : string) :
  registry_entry t n o (SetBlockchainClientNotAvailable ev c) =
  if decide (t = stopping_type ev /\ n = stopping_instance ev /\
             o = stopping_org ev)
  then None else registry_entry t n o c.
Proof.
  unfold SetBlockchainClientNotAvailable.
  pose proof (getBCNameMap_lookup (stopping_org ev) (stopping_type ev) n c) as Hl.
  pose proof (getBCNameMap_entries (stopping_org ev) (stopping_type ev) t n o c)
    as He.
  destruct (getBCNameMap (stopping_org ev) (stopping_type ev) c) as [nameMap c1].
  cbn [fst snd] in *.
  rewrite registry_entry_set_nameMap.
  destruct (decide (t = stopping_type ev /\ o = stopping_org ev)) as [[-> ->]|Hne].
  - destruct (decide (n = stopping_instance ev)) as [->|Hn].
    + rewrite lookup_delete_eq. now rewrite decide_True by auto.
    + rewrite lookup_delete_ne by congruence. rewrite decide_False by tauto.
      exact Hl.
  - rewrite decide_False by tauto. exact He.
Qed.

(** [SetBlockchainClientNotAvailable] takes the client of the event out of
    the registry: afterwards the triple has no entry, so it is neither
    ready nor writable, has no protocol handler (unless it is the empty
    triple, which always gets the generic one) and no directory.  Every
    other client stays, nothing is deferred and no message is sent; for a
    triple that was not registered nothing changes for any triple. *)
Theorem SetBlockchainClientNotAvailable_removes
    (ev : BlockchainClientStoppingMessage) (c : CSProtocolHandler) :
  let c' := SetBlockchainClientNotAvailable ev c in
  registry_entry (stopping_type ev) (stopping_instance ev) (stopping_org ev) c'
    = None /\
  (IsBlockchainReady (stopping_type ev) (stopping_instance ev)
     (stopping_org ev) c').1 = false /\
  (IsBlockchainWritable (stopping_type ev) (stopping_instance ev)
     (stopping_org ev) c').1 = false /\
  (forall t n o,
     (t, n, o) <> (stopping_type ev, stopping_instance ev, stopping_org ev) ->
     registry_entry t n o c' = registry_entry t n o c) /\
  (registry_entry (stopping_type ev) (stopping_instance ev) (stopping_org ev) c
     = None ->
   forall t n o, registry_entry t n o c' = registry_entry t n o c) /\
  deferredCommands c' = deferredCommands c /\ messages c' = messages c.
Proof.
  cbv zeta.
  assert (Hentry :
    registry_entry (stopping_type ev) (stopping_instance ev) (stopping_org ev)
      (SetBlockchainClientNotAvailable ev c) = None).
  { rewrite SetBlockchainClientNotAvailable_entries. now rewrite decide_True by auto. }
  split; [exact Hentry|].
  split; [rewrite IsBlockchainReady_spec, Hentry; reflexivity|].
  split; [rewrite IsBlockchainWritable_spec, Hentry; reflexivity|].
  split.
  { intros t n o Hne. rewrite SetBlockchainClientNotAvailable_entries.
    rewrite decide_False; [reflexivity|]. intros (-> & -> & ->). now apply Hne. }
  split.
  { intros Hnone t n o. rewrite SetBlockchainClientNotAvailable_entries.
    destruct (decide _) as [(-> & -> & ->)|]; [now rewrite Hnone | reflexivity]. }
  unfold SetBlockchainClientNotAvailable.
  pose proof (getBCNameMap_fields (stopping_org ev) (stopping_type ev) c) as Hf.
  cbv zeta in Hf.
  destruct (getBCNameMap (stopping_org ev) (stopping_type ev) c) as [nameMap c1].
  cbn in *. tauto.
Qed.

(** *** Ready and writable go together *)

(** [SetBlockchainWritable] is the only function that puts a client into
    the registry, and it marks the client ready and writable at once.  So
    "every registered client is ready and writable" holds for a new
    handler and is kept by [SetBlockchainWritable],
    [SetBlockchainClientNotAvailable] and the queries; and where it holds,
    [IsBlockchainReady] and [IsBlockchainWritable] give the same answer for
    every triple: no client is ever ready without being writable. *)
Theorem ready_clients_are_writable (c : CSProtocolHandler) :
  all_writable c ->
  (forall ev newPH initErr found,
     all_writable (SetBlockchainWritable ev newPH initErr found c).1) /\
  (forall ev, all_writable (SetBlockchainClientNotAvailable ev c)) /\
  (forall org typeName, all_writable (getBCNameMap org typeName c).2) /\
  (forall t n o,
     (IsBlockchainReady t n o c).1 = (IsBlockchainWritable t n o c).1).
Proof.
  intros Hinv. split; [|split; [|split]].
  - intros ev newPH initErr found t n o bc.
    rewrite SetBlockchainWritable_entries.
    destruct (decide _) as [_|_]; [|apply Hinv].
    intros [= <-]. split; reflexivity.
  - intros ev t n o bc. rewrite SetBlockchainClientNotAvailable_entries.
    destruct (decide _) as [_|_]; [discriminate | apply Hinv].
  - intros org typeName t n o bc. rewrite getBCNameMap_entries. apply Hinv.
  - intros t n o. rewrite IsBlockchainReady_spec, IsBlockchainWritable_spec.
    destruct (registry_entry t n o c) as [bc|] eqn:Hbc; [|reflexivity].
    destruct (Hinv t n o bc Hbc) as [-> ->]. reflexivity.
Qed.

(** *** [NewCSProtocolHandler] and [AcceptCommand] *)

(** [NewCSProtocolHandler] makes a handler only for the name of the
    protocol.  The new handler knows no client: no triple is ready or
    writable, nothing is deferred and nothing has been sent. *)
Theorem NewCSProtocolHandler_empty (PROTOCOL_NAME name exchangeId exchangeToken
    exchangeURL : string) (generic : ProtocolHandlerRef) :
  (name <> PROTOCOL_NAME ->
   NewCSProtocolHandler PROTOCOL_NAME name exchangeId exchangeToken exchangeURL
     generic = None) /\
  (name = PROTOCOL_NAME ->
   exists c,
     NewCSProtocolHandler PROTOCOL_NAME name exchangeId exchangeToken
       exchangeURL generic = Some c /\
     cs.name c = PROTOCOL_NAME /\
     all_writable c /\
     deferredCommands c = [] /\ messages c = [] /\
     forall t n o,
       registry_entry t n o c = None /\
       (IsBlockchainReady t n o c).1 = false /\
       (IsBlockchainWritable t n o c).1 = false).
Proof.
  unfold NewCSProtocolHandler. split.
  - intros Hne. now destruct (String.eqb_spec name PROTOCOL_NAME).
  - intros ->. rewrite String.eqb_refl. eexists. split; [reflexivity|].
    assert (Hnone : forall t n o,
              registry_entry t n o
                {| cs.name := PROTOCOL_NAME; agbotId := exchangeId;
                   token := exchangeToken; ExchangeURL := exchangeURL;
                   genericAgreementPH := generic; bcState := ∅;
                   deferredCommands := []; messages := [] |} = None).
    { intros t n o. unfold registry_entry. cbn. now rewrite lookup_empty. }
    split; [reflexivity|]. split.
    { intros t n o bc. now rewrite Hnone. }
    split; [reflexivity|]. split; [reflexivity|].
    intros t n o.
    rewrite IsBlockchainReady_spec, IsBlockchainWritable_spec, Hnone. auto.
Qed.

(** [AcceptCommand] takes a blockchain event command exactly when the
    Ethereum client with the name and org of the event is registered and
    ready; so it takes the events of a client from [SetBlockchainWritable]
    on and refuses them again after [SetBlockchainClientNotAvailable].  The
    six other kinds of command it knows are always taken, any other command
    never. *)
Theorem AcceptCommand_blockchain_events (Ethereum_bc msgName msgOrg : string)
    (c : CSProtocolHandler) :
  ((AcceptCommand Ethereum_bc (BlockchainEventCommand msgName msgOrg) c).1 = true
   <-> exists namedBC,
         registry_entry Ethereum_bc msgName msgOrg c = Some namedBC /\
         ready namedBC = true) /\
  (forall ev newPH initErr found,
     (funded_type ev, funded_instance ev, funded_org ev) =
       (Ethereum_bc, msgName, msgOrg) ->
     (AcceptCommand Ethereum_bc (BlockchainEventCommand msgName msgOrg)
        (SetBlockchainWritable ev newPH initErr found c).1).1 = true) /\
  (forall ev,
     (stopping_type ev, stopping_instance ev, stopping_org ev) =
       (Ethereum_bc, msgName, msgOrg) ->
     (AcceptCommand Ethereum_bc (BlockchainEventCommand msgName msgOrg)
        (SetBlockchainClientNotAvailable ev c)).1 = false) /\
  (forall cmd,
     (AcceptCommand Ethereum_bc cmd c).1 =
     match cmd with
     | BlockchainEventCommand n o => (IsBlockchainReady Ethereum_bc n o c).1
     | OtherCommand => false
     | _ => true
     end).
Proof.
  assert (Hacc : forall c0 n o,
            (AcceptCommand Ethereum_bc (BlockchainEventCommand n o) c0).1 =
            (IsBlockchainReady Ethereum_bc n o c0).1).
  { intros c0 n o. unfold AcceptCommand.
    destruct (IsBlockchainReady Ethereum_bc n o c0) as [[|] c1]; reflexivity. }
  split; [|split; [|split]].
  - rewrite Hacc, IsBlockchainReady_spec.
    destruct (registry_entry Ethereum_bc msgName msgOrg c) as [bc|].
    + split; [intros Hr; now exists bc | now intros (bc' & [= <-] & Hr)].
    + split; [discriminate | now intros (bc' & Hbc & _)].
  - intros ev newPH initErr found [= <- <- <-].
    rewrite Hacc, IsBlockchainReady_spec, SetBlockchainWritable_entries.
    now rewrite decide_True by auto.
  - intros ev [= <- <- <-].
    rewrite Hacc, IsBlockchainReady_spec, SetBlockchainClientNotAvailable_entries.
    now rewrite decide_True by auto.
  - intros [] ; try reflexivity. apply Hacc.
Qed.

End RegistryEvents.

Section PostReplyAfterEvents.
Import cs.
Context `{Collaborators}.

(** A reply to a version 2 agreement whose ledger client has been made
    writable by [SetBlockchainWritable] is deferred: [PostReply] puts the
    two commands for the agreement at the end of the deferred queue, sends
    no [NEW_BC_CLIENT] message and returns [nil].  After
    [SetBlockchainClientNotAvailable] for that client the same reply
    defers nothing and asks for a new client with one message. *)
Theorem PostReply_after_events (agreementId : string) (proposal : Proposal)
    (reply : ProposalReply) (consumerPolicy : ConsumerPolicy)
    (org workerId : string) (agreement : Agreement)
    (c : CSProtocolHandler) :
  FindSingleAgreementByAgreementId agreementId (name c) = Ok (Some agreement) ->
  AgreementProtocolVersion agreement = 2 ->
  (forall ev newPH initErr found,
     GetKnownBlockchain agreement =
       (funded_type ev, funded_instance ev, funded_org ev) ->
     let c1 := (SetBlockchainWritable ev newPH initErr found c).1 in
     let '(err, c2, effects) :=
       PostReply agreementId proposal reply consumerPolicy org workerId c1 in
     err = None /\ effects = [] /\
     deferredCommands c2 =
       (deferredCommands c1 ++ deferred_for (name c) agreement)%list /\
     messages c2 = messages c) /\
  (forall ev,
     GetKnownBlockchain agreement =
       (stopping_type ev, stopping_instance ev, stopping_org ev) ->
     let c1 := SetBlockchainClientNotAvailable ev c in
     let '(err, c2, effects) :=
       PostReply agreementId proposal reply consumerPolicy org workerId c1 in
     err = None /\ effects = [] /\
     deferredCommands c2 = deferredCommands c /\
     messages c2 =
       (messages c ++
        [NewNewBCContainerMessage NEW_BC_CLIENT (BlockchainType agreement)
           (BlockchainName agreement) (BlockchainOrg agreement)
           (ExchangeURL c) (agbotId c) (token c)])%list).
Proof.
  intros Hfind Hv2.
  assert (Hpost : forall c1, name c1 = name c ->
    PostReply agreementId proposal reply consumerPolicy org workerId c1 =
    let '(w, c') :=
      IsBlockchainWritable (BlockchainType agreement) (BlockchainName agreement)
        (BlockchainOrg agreement) c1 in
    if w then
      (None,
       DeferCommand
         (AsyncWriteAgreement ASYNC_WRITE (CurrentAgreementId agreement)
            (name (DeferCommand
                     (AsyncUpdateAgreement ASYNC_UPDATE
                        (CurrentAgreementId agreement) (name c')) c')))
         (DeferCommand
            (AsyncUpdateAgreement ASYNC_UPDATE
               (CurrentAgreementId agreement) (name c')) c'),
       [])
    else
      (None,
       send_message
         (NewNewBCContainerMessage NEW_BC_CLIENT (BlockchainType agreement)
            (BlockchainName agreement) (BlockchainOrg agreement)
            (ExchangeURL c') (agbotId c') (token c')) c',
       [])).
  { intros c1 Hname. unfold PostReply. rewrite Hname, Hfind, Hv2. cbn [Z.ltb Z.eqb Z.compare Pos.compare Pos.compare_cont].
    destruct (IsBlockchainWritable _ _ _ c1) as [[|] c']; reflexivity. }
  split.
  - intros ev newPH initErr found Hbc. cbv zeta.
    rewrite Hpost
      by apply (SetBlockchainWritable_fields ev newPH initErr found c).
    unfold GetKnownBlockchain in Hbc. injection Hbc as Ht Hn Ho.
    pose proof (IsBlockchainWritable_spec (BlockchainType agreement)
                  (BlockchainName agreement) (BlockchainOrg agreement)
                  (SetBlockchainWritable ev newPH initErr found c).1) as Hw.
    rewrite SetBlockchainWritable_entries in Hw.
    rewrite decide_True in Hw by auto. cbn in Hw.
    pose proof (SetBlockchainWritable_fields ev newPH initErr found c) as Hc1.
    cbv zeta in Hc1. destruct Hc1 as (Hname1 & _ & _ & _ & Hmsg1).
    pose proof (IsBlockchainWritable_fields (BlockchainType agreement)
                  (BlockchainName agreement) (BlockchainOrg agreement)
                  (SetBlockchainWritable ev newPH initErr found c).1) as Hf.
    cbv zeta in Hf.
    destruct (IsBlockchainWritable (BlockchainType agreement)
                (BlockchainName agreement) (BlockchainOrg agreement)
                (SetBlockchainWritable ev newPH initErr found c).1) as [w c'].
    cbn [fst snd] in *. subst w.
    destruct Hf as (Hname & _ & _ & _ & Hdef & Hmsg').
    split; [reflexivity|]. split; [reflexivity|]. cbn.
    rewrite Hdef, Hmsg', Hmsg1, Hname, Hname1. rewrite <- app_assoc.
    split; reflexivity.
  - intros ev Hbc. cbv zeta.
    rewrite Hpost by apply (SetBlockchainClientNotAvailable_fields ev c).
    unfold GetKnownBlockchain in Hbc. injection Hbc as Ht Hn Ho.
    pose proof (IsBlockchainWritable_spec (BlockchainType agreement)
                  (BlockchainName agreement) (BlockchainOrg agreement)
                  (SetBlockchainClientNotAvailable ev c)) as Hw.
    rewrite SetBlockchainClientNotAvailable_entries in Hw.
    rewrite decide_True in Hw by auto.
    pose proof (SetBlockchainClientNotAvailable_fields ev c) as Hc1.
    cbv zeta in Hc1. destruct Hc1 as (_ & Hag1 & Htok1 & Hurl1 & Hdef1 & Hmsg1).
    pose proof (IsBlockchainWritable_fields (BlockchainType agreement)
                  (BlockchainName agreement) (BlockchainOrg agreement)
                  (SetBlockchainClientNotAvailable ev c)) as Hf.
    cbv zeta in Hf.
    destruct (IsBlockchainWritable (BlockchainType agreement)
                (BlockchainName agreement) (BlockchainOrg agreement)
                (SetBlockchainClientNotAvailable ev c)) as [w c'].
    cbn [fst snd] in *. subst w.
    destruct Hf as (_ & Hag & Htok & Hurl & Hdef' & Hmsg').
    split; [reflexivity|]. split; [reflexivity|]. cbn.
    rewrite Hdef', Hmsg', Hdef1, Hmsg1, Hag, Htok, Hurl, Hag1, Htok1, Hurl1.
    split; reflexivity.
Qed.

End PostReplyAfterEvents.

Lemma ready_clients_are_writable_witness :
  cs.all_writable
    (cs.SetBlockchainWritable examples.funded_bc1 1%nat None (Ok [])
       examples.fresh_handler).1 /\
  (cs.IsBlockchainReady "eth" "bc1" "acme" examples.fresh_handler).1 =
  (cs.IsBlockchainWritable "eth" "bc1" "acme" examples.fresh_handler).1.
Proof.
  assert (Hfresh : cs.all_writable examples.fresh_handler).
  { intros t n o bc Hbc. unfold cs.registry_entry in Hbc. cbn in Hbc.
    rewrite lookup_empty in Hbc. discriminate. }
  destruct (ready_clients_are_writable examples.fresh_handler Hfresh)
    as (Hw & _ & _ & Heq).
  split; [apply Hw | apply Heq].
Defined.

Lemma PostReply_after_events_witness :
  let c1 := (cs.SetBlockchainWritable examples.funded_bc1 1%nat None (Ok [])
               examples.fresh_handler).1 in
  let '(err, c2, effects) :=
    cs.PostReply (H := examples.db_with_A 2) "A" tt tt tt "acme" "w1" c1 in
  err = None /\ effects = [] /\
  cs.deferredCommands c2 =
    (cs.deferredCommands c1 ++
     cs.deferred_for (cs.name examples.fresh_handler) (examples.agreement_A 2))%list /\
  cs.messages c2 = cs.messages examples.fresh_handler.
Proof.
  exact (proj1 (PostReply_after_events (H := examples.db_with_A 2) "A" tt tt tt
                  "acme" "w1" (examples.agreement_A 2) examples.fresh_handler
                  eq_refl eq_refl)
           examples.funded_bc1 1%nat None (Ok []) eq_refl).
Defined.

(* --------------------------------------------------------------------- *)
(** ** The pattern manager: the served set                                 *)
(* --------------------------------------------------------------------- *)

Section ServedSet.
Import pm.
Context `{PolicyEnv}.

Lemma entry_at_missing (s : State) (org pattern : string) :
  (if hasPattern s org pattern then entry_at (OrgPatterns s) org pattern else None)
  = entry_at (OrgPatterns s) org pattern.
Proof.
  rewrite hasPattern_has_key. unfold has_key, entry_at.
  destruct (OrgPatterns s !! org) as [orgMap|]; [|reflexivity].
  destruct (orgMap !! pattern); reflexivity.
Qed.

Lemma serve_set_slot (s : State) m (served : exchange.ServedPattern) :
  serve s m served =
  match m !! exchange.Org served with
  | Some orgMap =>
      <[exchange.Org served :=
          <[exchange.Pattern served :=
              entry_at (OrgPatterns s) (exchange.Org served)
                (exchange.Pattern served)]> orgMap]> m
  | None =>
      <[exchange.Org served :=
          {[ exchange.Pattern served :=
               entry_at (OrgPatterns s) (exchange.Org served)
                 (exchange.Pattern served) ]}]> m
  end.
Proof.
  unfold serve. rewrite entry_at_missing.
  destruct (m !! exchange.Org served) as [orgMap|] eqn:Horg.
  - now rewrite Horg.
  - rewrite lookup_insert_eq, insert_insert_eq. now rewrite insert_empty.
Qed.

Lemma serve_has_key (s : State) m (served : exchange.ServedPattern) o p :
  has_key (serve s m served) o p = true <->
  has_key m o p = true \/ (exchange.Org served = o /\ exchange.Pattern served = p).
Proof.
  rewrite serve_set_slot. unfold has_key.
  destruct (decide (exchange.Org served = o)) as [<-|Ho].
  - destruct (m !! exchange.Org served) as [orgMap|] eqn:Horg;
      rewrite lookup_insert_eq.
    + destruct (decide (exchange.Pattern served = p)) as [<-|Hp].
      * rewrite lookup_insert_eq. tauto.
      * rewrite lookup_insert_ne by assumption.
        destruct (orgMap !! p); intuition congruence.
    + destruct (decide (exchange.Pattern served = p)) as [<-|Hp].
      * rewrite lookup_singleton_eq. tauto.
      * rewrite lookup_singleton_ne by assumption. intuition congruence.
  - destruct (m !! exchange.Org served) as [orgMap|] eqn:Horg;
      rewrite lookup_insert_ne by assumption;
      destruct (m !! o) as [om|]; [destruct (om !! p)| |destruct (om !! p)|];
      intuition congruence.
Qed.

Lemma serve_entry_at (s : State) m (served : exchange.ServedPattern) o p :
  entry_at (serve s m served) o p =
  if decide (exchange.Org served = o /\ exchange.Pattern served = p)
  then entry_at (OrgPatterns s) o p else entry_at m o p.
Proof.
  rewrite serve_set_slot. unfold entry_at at 1.
  destruct (decide (exchange.Org served = o)) as [<-|Ho].
  - destruct (m !! exchange.Org served) as [orgMap|] eqn:Horg;
      rewrite lookup_insert_eq.
    + destruct (decide (exchange.Pattern served = p)) as [<-|Hp].
      * rewrite lookup_insert_eq. now rewrite decide_True by auto.
      * rewrite lookup_insert_ne by assumption. rewrite decide_False by tauto.
        unfold entry_at. now rewrite Horg.
    + destruct (decide (exchange.Pattern served = p)) as [<-|Hp].
      * rewrite lookup_singleton_eq. now rewrite decide_True by auto.
      * rewrite lookup_singleton_ne by assumption. rewrite decide_False by tauto.
        unfold entry_at. now rewrite Horg.
  - rewrite decide_False by tauto. unfold entry_at.
    destruct (m !! exchange.Org served) as [orgMap|] eqn:Horg;
      now rewrite lookup_insert_ne by assumption.
Qed.

Lemma serve_org_iff (s : State) m (served : exchange.ServedPattern) o :
  is_Some (serve s m served !! o) <-> is_Some (m !! o) \/ exchange.Org served = o.
Proof.
  split.
  - intros Hsome. destruct (decide (exchange.Org served = o)) as [|Ho]; [now right|].
    left. rewrite serve_set_slot in Hsome.
    destruct (m !! exchange.Org served);
      now rewrite lookup_insert_ne in Hsome by assumption.
  - intros [Hsome|<-]; [now apply serve_keeps_org | apply serve_org].
Qed.

Lemma is_served_cons kv rest o p :
  is_served (kv :: rest) o p <->
  (exchange.Org kv.2 = o /\ exchange.Pattern kv.2 = p) \/ is_served rest o p.
Proof.
  unfold is_served. split.
  - intros (key & served & [->|Hin] & Ho & Hp); [now left|].
    right. now exists key, served.
  - intros [[Ho Hp]|(key & served & Hin & Ho & Hp)].
    + exists kv.1, kv.2. split; [left; now destruct kv | tauto].
    + exists key, served. split; [now right | tauto].
Qed.

Lemma is_served_nil o p : ~ is_served [] o p.
Proof. intros (key & served & [] & _). Qed.

Lemma served_has_key (s : State) servedPatterns m o p :
  has_key (fold_left (fun m kv => serve s m kv.2) servedPatterns m) o p = true <->
  has_key m o p = true \/ is_served servedPatterns o p.
Proof.
  revert m. induction servedPatterns as [|kv rest IH]; intros m; cbn [fold_left].
  - pose proof (is_served_nil o p). tauto.
  - rewrite IH, serve_has_key, is_served_cons. tauto.
Qed.

Lemma served_entry_at (s : State) servedPatterns m o p :
  (is_served servedPatterns o p ->
   entry_at (fold_left (fun m kv => serve s m kv.2) servedPatterns m) o p =
   entry_at (OrgPatterns s) o p) /\
  (~ is_served servedPatterns o p ->
   entry_at (fold_left (fun m kv => serve s m kv.2) servedPatterns m) o p =
   entry_at m o p).
Proof.
  revert m. induction servedPatterns as [|kv rest IH]; intros m; cbn [fold_left].
  - split; [intros Hs; now apply is_served_nil in Hs | reflexivity].
  - destruct (IH (serve s m kv.2)) as [IHs IHn]. rewrite is_served_cons.
    assert (Hdec : is_served rest o p \/ ~ is_served rest o p).
    { clear. induction rest as [|kv' rest IH].
      - right. apply is_served_nil.
      - rewrite is_served_cons.
        destruct (decide (exchange.Org kv'.2 = o /\ exchange.Pattern kv'.2 = p));
          tauto. }
    split.
    + intros Hs. destruct Hdec as [Hrest|Hrest]; [now apply IHs|].
      rewrite (IHn Hrest), serve_entry_at.
      destruct Hs as [Hkv|Hs]; [|contradiction].
      now rewrite decide_True by assumption.
    + intros Hn. rewrite IHn by tauto. rewrite serve_entry_at.
      now rewrite decide_False by tauto.
Qed.

Lemma served_org_iff (s : State) servedPatterns m o :
  is_Some (fold_left (fun m kv => serve s m kv.2) servedPatterns m !! o) <->
  is_Some (m !! o) \/ exists p, is_served servedPatterns o p.
Proof.
  revert m. induction servedPatterns as [|kv rest IH]; intros m; cbn [fold_left].
  - split; [now left|]. intros [Hs|(p & Hp)]; [exact Hs|].
    now apply is_served_nil in Hp.
  - rewrite IH, serve_org_iff. split.
    + intros [[Hs|Ho]|(p & Hp)].
      * now left.
      * right. exists (exchange.Pattern kv.2). apply is_served_cons. now left.
      * right. exists p. apply is_served_cons. now right.
    + intros [Hs|(p & Hp)]; [tauto|].
      apply is_served_cons in Hp as [[Ho _]|Hp]; [tauto|].
      right. now exists p.
Qed.

(** The map that [SetCurrentPatterns] leaves. *)
Lemma SetCurrentPatterns_map servedPatterns policyPath visit_orgs visit_patterns
    (s : State) :
  OrgPatterns (SetCurrentPatterns servedPatterns policyPath visit_orgs
                 visit_patterns s).2 =
  fold_left (fun m kv => serve s m kv.2) servedPatterns ∅.
Proof.
  destruct servedPatterns as [|kv rest].
  2:{ now apply SetCurrentPatterns_OrgPatterns. }
  pose proof (SetCurrentPatterns_never_fails [] policyPath visit_orgs
                visit_patterns s) as Hok.
  unfold SetCurrentPatterns in *. rewrite bind_get in *.
  cbn [length Nat.eqb fold_left] in *. rewrite andb_true_r in *.
  destruct (Nat.eqb_spec (size (OrgPatterns s)) 0) as [Hsize|Hsize].
  - cbn. now apply map_size_empty_iff in Hsize.
  - unfold bind in *.
    match goal with |- context [range_keys ?v ?p ?b s] =>
      destruct (range_keys v p b s) as [[[]|e] s1] end;
      cbn [fst snd] in *; [reflexivity | discriminate].
Qed.

Lemma hasOrg_is_Some (s : State) o : hasOrg s o = true <-> is_Some (OrgPatterns s !! o).
Proof.
  unfold hasOrg. destruct (OrgPatterns s !! o); split; eauto; try discriminate.
  intros [x Hx]. discriminate.
Qed.

Lemma has_key_empty o p : has_key ∅ o p = false.
Proof. unfold has_key. now rewrite lookup_empty. Qed.

Lemma SetCurrentPatterns_heap servedPatterns policyPath visit_orgs visit_patterns
    (s : State) :
  heap (SetCurrentPatterns servedPatterns policyPath visit_orgs
          visit_patterns s).2 = heap s.
Proof.
  enough (Hp : preserves (fun s' => heap s' = heap s)
                 (SetCurrentPatterns servedPatterns policyPath visit_orgs
                    visit_patterns))
    by exact (Hp s eq_refl).
  assert (Hdo : forall path o, preserves (fun s' => heap s' = heap s) (deleteOrg path o)).
  { intros path o s' Hs'. now rewrite deleteOrg_run. }
  assert (Hdp : forall path o p,
            preserves (fun s' => heap s' = heap s) (deletePattern path o p)).
  { intros path o p s' Hs'. now rewrite deletePattern_run. }
  unfold SetCurrentPatterns.
  apply preserves_bind; [apply preserves_get|]. intros s0.
  destruct (_ && _); [apply preserves_ret|].
  apply preserves_bind.
  - apply preserves_range_keys. intros org.
    destruct (_ !! org) as [newOrgMap|]; [|apply Hdo].
    apply preserves_range_keys. intros pattern.
    destruct (newOrgMap !! pattern); [apply preserves_ret | apply Hdp].
  - intros _ s' Hs'. exact Hs'.
Qed.

(** After [SetCurrentPatterns] the pattern manager holds exactly the served
    patterns, under exactly the orgs that serve one: a pattern that was
    held before keeps the entry it had (with its hash and file names), a
    pattern that is new has the [nil] entry, and what is not served is
    gone.  The call returns [nil], and the patterns that entries point to
    are not touched. *)
Theorem SetCurrentPatterns_serves
    (servedPatterns : list (string * exchange.ServedPattern))
    (policyPath : string) (visit_orgs : list string)
    (visit_patterns : string -> list string) (s : State) :
  let out := SetCurrentPatterns servedPatterns policyPath visit_orgs
               visit_patterns s in
  out.1 = Ok tt /\
  heap out.2 = heap s /\
  (forall org pattern,
     hasPattern out.2 org pattern = true <-> is_served servedPatterns org pattern) /\
  (forall org,
     hasOrg out.2 org = true <-> exists pattern, is_served servedPatterns org pattern) /\
  (forall org pattern,
     is_served servedPatterns org pattern ->
     entry_at (OrgPatterns out.2) org pattern = entry_at (OrgPatterns s) org pattern) /\
  (forall org pattern,
     ~ is_served servedPatterns org pattern ->
     entry_at (OrgPatterns out.2) org pattern = None).
Proof.
  cbv zeta.
  split; [apply SetCurrentPatterns_never_fails|].
  split; [apply SetCurrentPatterns_heap|].
  split; [|split; [|split]].
  - intros org pattern.
    rewrite hasPattern_has_key, SetCurrentPatterns_map, served_has_key.
    rewrite has_key_empty. intuition congruence.
  - intros org. rewrite hasOrg_is_Some, SetCurrentPatterns_map, served_org_iff.
    rewrite lookup_empty. split; [intros [[x Hx]|Hs]; [discriminate | exact Hs] | tauto].
  - intros org pattern Hs. rewrite SetCurrentPatterns_map.
    now apply served_entry_at.
  - intros org pattern Hn. rewrite SetCurrentPatterns_map.
    rewrite (proj2 (served_entry_at s servedPatterns ∅ org pattern) Hn).
    unfold entry_at. now rewrite lookup_empty.
Qed.

(** [SetCurrentPatterns] creates no policy file and deletes no single
    policy file.  What it adds to the events are wholesale deletions, each
    for an org none of whose patterns is served or for a pattern that is
    not served, and the errors of these deletions, which it logs: the files
    of a served pattern are never asked to be deleted. *)
Theorem SetCurrentPatterns_deletes_unserved
    (servedPatterns : list (string * exchange.ServedPattern))
    (policyPath : string) (visit_orgs : list string)
    (visit_patterns : string -> list string) (s : State) :
  exists events,
    trace (SetCurrentPatterns servedPatterns policyPath visit_orgs
             visit_patterns s).2 = (trace s ++ events)%list /\
    Forall (unserved_deletion servedPatterns policyPath) events.
Proof.
  set (P := fun s' : State =>
              exists events,
                trace s' = (trace s ++ events)%list /\
                Forall (unserved_deletion servedPatterns policyPath) events).
  enough (Hp : preserves P (SetCurrentPatterns servedPatterns policyPath
                              visit_orgs visit_patterns)).
  { apply (Hp s). exists []. now rewrite app_nil_r. }
  assert (Hlog : forall text err,
            Forall (unserved_deletion servedPatterns policyPath)
              (logged text err)).
  { intros text [e|]; cbn; [|constructor]. constructor; [exact I | constructor]. }
  unfold SetCurrentPatterns.
  apply preserves_bind; [apply preserves_get|]. intros s0.
  destruct (_ && _); [apply preserves_ret|].
  apply preserves_bind.
  2:{ intros _ s' Hs'. exact Hs'. }
  apply preserves_range_keys. intros org.
  destruct (_ !! org) as [newOrgMap|] eqn:Horg.
  - apply preserves_range_keys. intros pattern.
    destruct (newOrgMap !! pattern) eqn:Hpat; [apply preserves_ret|].
    intros s' (events & Htr & Hall). rewrite deletePattern_run. cbn [snd trace].
    eexists. rewrite Htr, <- !app_assoc. split; [reflexivity|].
    apply Forall_app. split; [exact Hall|].
    apply Forall_app. split; [|apply Hlog].
    constructor; [|constructor]. split; [reflexivity|].
    intros Hserved.
    assert (Hkey : has_key (fold_left (fun m kv => serve s0 m kv.2)
                              servedPatterns ∅) org pattern = true)
      by (apply served_has_key; now right).
    unfold has_key in Hkey. rewrite Horg, Hpat in Hkey. discriminate.
  - intros s' (events & Htr & Hall). rewrite deleteOrg_run. cbn [snd trace].
    eexists. rewrite Htr, <- !app_assoc. split; [reflexivity|].
    apply Forall_app. split; [exact Hall|].
    apply Forall_app. split; [|apply Hlog].
    constructor; [|constructor]. split; [reflexivity|]. split; [reflexivity|].
    intros pattern Hserved.
    assert (Hsome : is_Some (fold_left (fun m kv => serve s0 m kv.2)
                               servedPatterns ∅ !! org))
      by (apply served_org_iff; right; now exists pattern).
    rewrite Horg in Hsome. now destruct Hsome.
Qed.

End ServedSet.

(* --------------------------------------------------------------------- *)
(** ** The pattern manager: what a pass of [UpdatePatternPolicies] leaves  *)
(* --------------------------------------------------------------------- *)

Section PassFacts.
Import pm.
Context `{PolicyEnv}.

Lemma update_pattern_map org policyPath l patternId v (s : State) :
  (l <= length (heap s))%nat ->
  OrgPatterns (update_pattern org policyPath l (patternId, v) s).2 = OrgPatterns s \/
  (hasPattern s org (exchange_GetId patternId) = true /\
   exists e,
     OrgPatterns (update_pattern org policyPath l (patternId, v) s).2 =
     set_slot (OrgPatterns s) org (exchange_GetId patternId) (Some e) /\
     hash_of v = Ok (Hash e)).
Proof.
  intros Hl.
  pose proof (update_pattern_outcome org policyPath patternId l v s Hl) as Hout.
  cbv zeta in Hout. destruct Hout as [_ Hcases].
  destruct Hcases as [(_ & Hop & _)|[(_ & Hop & _)|(Hs & e & Hop & _ & Hh & _)]].
  - now left.
  - now left.
  - right. split; [exact Hs|]. now exists e.
Qed.

(** A property of the map that deleting a pattern of [org] and assigning
    to a slot of [org] keep is kept by a pass for [org] with defined
    patterns. *)
Lemma UpdatePatternPolicies_keeps
    (Q : gmap string (gmap string (option PatternEntry)) -> Prop)
    org definedPatterns policyPath visit (s : State) :
  (forall m p, Q m -> Q (without_pattern m org p)) ->
  (forall m p pe, Q m -> Q (set_slot m org p pe)) ->
  definedPatterns <> [] ->
  Q (OrgPatterns s) ->
  Q (OrgPatterns (UpdatePatternPolicies org definedPatterns policyPath visit s).2).
Proof.
  intros Hdel Hset Hdef HQ.
  destruct (hasOrg s org) eqn:Horg.
  2:{ unfold UpdatePatternPolicies. now rewrite bind_get, Horg. }
  rewrite UpdatePatternPolicies_run by assumption.
  assert (Hfirst : Q (OrgPatterns
                        (delete_undefined org definedPatterns policyPath visit s).2)).
  { enough (Hp : preserves (fun s' => Q (OrgPatterns s'))
                   (delete_undefined org definedPatterns policyPath visit))
      by exact (Hp s HQ).
    unfold delete_undefined. apply preserves_range_keys. intros pattern.
    destruct (negb _); [|apply preserves_ret].
    intros s' Hs'. rewrite deletePattern_run. cbn [snd OrgPatterns]. now apply Hdel. }
  pose proof (proj1 (delete_undefined_keys org definedPatterns policyPath visit s))
    as Hheap.
  revert Hfirst.
  generalize (delete_undefined org definedPatterns policyPath visit s).2 as s1.
  intros s1.
  assert (Hl : (length (heap s1) <= length (heap s1))%nat) by lia.
  revert Hl. generalize (length (heap s1)) at 1 3 as l. intros l.
  clear Hdef Hheap. revert s1.
  induction definedPatterns as [|[patternId v] rest IH]; intros s1 Hl HQ1;
    [exact HQ1|].
  cbn [for_each]. unfold bind.
  pose proof (update_pattern_map org policyPath l patternId v s1 Hl) as Hmap.
  pose proof (update_pattern_keys org policyPath l (patternId, v) s1 Hl) as [Hl2 _].
  assert (HQ2 : Q (OrgPatterns (update_pattern org policyPath l (patternId, v) s1).2)).
  { destruct Hmap as [->|(_ & e & -> & _)]; [exact HQ1 | now apply Hset]. }
  destruct (update_pattern org policyPath l (patternId, v) s1) as [[[]|e] s2];
    cbn [fst snd] in *; [now apply IH | exact HQ2].
Qed.

Lemma update_loop_below org policyPath l definedPatterns (s : State) (i : nat) :
  (l <= length (heap s))%nat -> (i < l)%nat ->
  heap (for_each definedPatterns (update_pattern org policyPath l) s).2 !! i =
  heap s !! i.
Proof.
  intros Hl Hi. revert s Hl.
  induction definedPatterns as [|[patternId v] rest IH]; intros s Hl; [reflexivity|].
  cbn [for_each]. unfold bind.
  pose proof (update_pattern_outcome org policyPath patternId l v s Hl) as Hout.
  cbv zeta in Hout. destruct Hout as [Hheap _].
  pose proof (update_pattern_keys org policyPath l (patternId, v) s Hl) as [Hl2 _].
  destruct (update_pattern org policyPath l (patternId, v) s) as [[[]|e] s2];
    cbn [fst snd] in *.
  - rewrite IH by assumption. rewrite Hheap. now apply store_var_below.
  - rewrite Hheap. now apply store_var_below.
Qed.

(** A pass of [UpdatePatternPolicies] for [org] stays within [org]: the
    patterns and entries of every other org are as they were, whatever the
    pass returns.  Within [org] it adds no pattern (a defined pattern that
    is not served gets no entry), and with defined patterns it keeps the
    org; without defined patterns it removes a known org from the map.  The
    patterns that entries pointed to before the pass are not overwritten. *)
Theorem UpdatePatternPolicies_frame (org : string)
    (definedPatterns : list (string * ExPattern)) (policyPath : string)
    (visit : list string) (s : State) :
  let out := UpdatePatternPolicies org definedPatterns policyPath visit s in
  (forall o, o <> org -> OrgPatterns out.2 !! o = OrgPatterns s !! o) /\
  (forall pattern,
     hasPattern out.2 org pattern = true -> hasPattern s org pattern = true) /\
  (definedPatterns <> [] -> hasOrg out.2 org = hasOrg s org) /\
  (definedPatterns = [] -> hasOrg s org = true ->
   OrgPatterns out.2 = delete org (OrgPatterns s)) /\
  (forall i, (i < length (heap s))%nat -> heap out.2 !! i = heap s !! i).
Proof.
  cbv zeta.
  destruct (hasOrg s org) eqn:Horg.
  2:{ assert (Hrun : UpdatePatternPolicies org definedPatterns policyPath visit s =
                     (Err (ErrOrgNotFound org), s)).
      { unfold UpdatePatternPolicies. now rewrite bind_get, Horg. }
      rewrite Hrun. cbn [snd]. rewrite Horg. repeat split; auto; discriminate. }
  destruct definedPatterns as [|kv rest].
  { assert (Hrun : UpdatePatternPolicies org [] policyPath visit s =
                   deleteOrg policyPath org s).
    { unfold UpdatePatternPolicies. now rewrite bind_get, Horg. }
    rewrite Hrun, deleteOrg_run. cbn [snd OrgPatterns heap].
    split; [intros o Ho; now rewrite lookup_delete_ne by congruence|].
    split.
    { intros pattern. rewrite !hasPattern_has_key. cbn [OrgPatterns].
      unfold has_key. now rewrite lookup_delete_eq. }
    split; [congruence|]. split; [reflexivity|]. reflexivity. }
  assert (Hdef : kv :: rest <> []) by discriminate.
  split.
  { intros o Ho.
    apply (UpdatePatternPolicies_keeps
             (fun m => m !! o = OrgPatterns s !! o)); auto.
    - intros m p Hm. unfold without_pattern.
      destruct (m !! org); [now rewrite lookup_insert_ne by congruence | exact Hm].
    - intros m p pe Hm. unfold set_slot.
      destruct (m !! org); [now rewrite lookup_insert_ne by congruence | exact Hm]. }
  split.
  { intros pattern. rewrite UpdatePatternPolicies_run by assumption.
    rewrite update_loop_keys by lia.
    intros Hp. now apply (delete_undefined_keys org (kv :: rest) policyPath visit s). }
  split.
  { intros _.
    assert (Hsome : is_Some (OrgPatterns
                     (UpdatePatternPolicies org (kv :: rest) policyPath visit s).2
                     !! org)).
    { apply (UpdatePatternPolicies_keeps (fun m => is_Some (m !! org))); auto.
      - intros m p [om Hm]. unfold without_pattern. rewrite Hm.
        rewrite lookup_insert_eq. eauto.
      - intros m p pe [om Hm]. unfold set_slot. rewrite Hm.
        rewrite lookup_insert_eq. eauto.
      - unfold hasOrg in Horg. destruct (OrgPatterns s !! org); [eauto | discriminate]. }
    unfold hasOrg at 1. destruct Hsome as [om ->]. reflexivity. }
  split; [discriminate|].
  intros i Hi. rewrite UpdatePatternPolicies_run by assumption.
  destruct (delete_undefined_keys org (kv :: rest) policyPath visit s) as [Hheap _].
  rewrite update_loop_below by (rewrite ?Hheap; lia). now rewrite Hheap.
Qed.

Lemma update_loop_success org policyPath l definedPatterns (s s' : State) :
  (l <= length (heap s))%nat ->
  distinct_names definedPatterns ->
  for_each definedPatterns (update_pattern org policyPath l) s = (Ok tt, s') ->
  (forall patternId v,
     In (patternId, v) definedPatterns ->
     hasPattern s' org (exchange_GetId patternId) = true ->
     exists e,
       entry_at (OrgPatterns s') org (exchange_GetId patternId) = Some e /\
       hash_of v = Ok (Hash e)) /\
  (forall p,
     ~ In p (map (fun kv => exchange_GetId kv.1) definedPatterns) ->
     entry_at (OrgPatterns s') org p = entry_at (OrgPatterns s) org p).
Proof.
  revert s. induction definedPatterns as [|[patternId v] rest IH];
    intros s Hl Hnd Hrun.
  - cbn in Hrun. injection Hrun as <-. split; [intros ? ? []| reflexivity].
  - cbn [for_each] in Hrun. unfold bind in Hrun.
    pose proof (update_pattern_outcome org policyPath patternId l v s Hl) as Hout.
    cbv zeta in Hout. destruct Hout as [_ Hcases].
    pose proof (update_pattern_keys org policyPath l (patternId, v) s Hl)
      as [Hl1 Hkeys].
    destruct (update_pattern org policyPath l (patternId, v) s) as [[[]|e] s1];
      cbn [fst snd] in *; [|discriminate].
    unfold distinct_names in Hnd. cbn [map fst] in Hnd.
    apply NoDup_cons in Hnd as [Hnotin Hnd]. rewrite list_elem_of_In in Hnotin.
    destruct (IH s1 Hl1 Hnd Hrun) as [IHcur IHframe].
    assert (Hlast : forall o k, hasPattern s' o k = hasPattern s1 o k).
    { intros o k.
      pose proof (update_loop_keys org policyPath l rest s1 Hl1 o k) as Hk.
      now rewrite Hrun in Hk. }
    assert (Hhead : hasPattern s org (exchange_GetId patternId) = true ->
              exists e, entry_at (OrgPatterns s1) org (exchange_GetId patternId)
                        = Some e /\ hash_of v = Ok (Hash e)).
    { destruct Hcases as [(_ & Hop & _ & _ & Hthis)|[(_ & _ & Herr)|
                          (Hserved & e & Hop & _ & Hh & _ & _)]].
      - intros Hs. rewrite Hop. now apply Hthis.
      - exfalso.
        destruct Herr as [(_ & c & Hc)|[(e0 & c & _ & _ & Hc)|
                          (e0 & hash & c & _ & _ & _ & Hc)]]; discriminate.
      - intros _. exists e. rewrite Hop. split; [|exact Hh].
        apply entry_at_set_slot. now rewrite <- hasPattern_has_key. }
    assert (Hother : forall p, p <> exchange_GetId patternId ->
              entry_at (OrgPatterns s1) org p = entry_at (OrgPatterns s) org p).
    { intros p Hp.
      destruct Hcases as [(_ & Hop & _)|[(_ & Hop & _)|(_ & e & Hop & _)]];
        rewrite Hop; try reflexivity.
      apply entry_at_set_slot_ne. congruence. }
    split.
    + intros pid pv [Heq|Hin] Hs'.
      * injection Heq as <- <-. rewrite IHframe by exact Hnotin.
        apply Hhead. now rewrite <- Hkeys, <- Hlast.
      * now apply IHcur.
    + intros p Hp. cbn [map fst In] in Hp. rewrite IHframe by tauto.
      apply Hother. intros ->. apply Hp. now left.
Qed.

(** When a pass of [UpdatePatternPolicies] returns [nil] and no two ids of
    the defined patterns give the same pattern name, then for every defined
    pattern that the org serves the entry is there and its hash is the hash
    of the defined pattern.  So a further pass with the same defined
    patterns (in whatever order the maps are visited) finds nothing to do:
    it adds no event, and the map and the policy directory are as the first
    pass left them.  It returns [nil] when there are defined patterns;
    without defined patterns the first pass has taken the org out of the
    map, and the further pass returns "org not found". *)
Theorem UpdatePatternPolicies_success (org : string)
    (definedPatterns : list (string * ExPattern)) (policyPath : string)
    (visit : list string) (s s' : State) :
  distinct_names definedPatterns ->
  (forall pattern, hasPattern s org pattern = true -> In pattern visit) ->
  UpdatePatternPolicies org definedPatterns policyPath visit s = (Ok tt, s') ->
  hashes_current org definedPatterns s' /\
  all_found org definedPatterns s' /\
  forall definedPatterns' visit',
    Permutation definedPatterns definedPatterns' ->
    exists h,
      UpdatePatternPolicies org definedPatterns' policyPath visit' s' =
      (match definedPatterns with
       | [] => Err (ErrOrgNotFound org)
       | _ :: _ => Ok tt
       end,
       {| OrgPatterns := OrgPatterns s'; heap := h; world := world s';
          trace := trace s' |}).
Proof.
  intros Hnd Hvisit Hrun.
  assert (Horg : hasOrg s org = true).
  { destruct (hasOrg s org) eqn:Horg; [reflexivity|].
    unfold UpdatePatternPolicies in Hrun. rewrite bind_get, Horg in Hrun.
    discriminate. }
  destruct (UpdatePatternPolicies_all_found org definedPatterns policyPath visit
              s Hvisit) as [Hall Hgone].
  rewrite Hrun in Hall, Hgone. cbn [snd] in Hall, Hgone.
  assert (Hempty : definedPatterns = [] \/ definedPatterns <> [])
    by (destruct definedPatterns; [now left | now right]).
  destruct Hempty as [->|Hdef].
  { split; [intros patternId v []|]. split; [exact Hall|].
    intros definedPatterns' visit' Hperm.
    apply Permutation_nil in Hperm. subst definedPatterns'.
    exists (heap s'). unfold UpdatePatternPolicies.
    rewrite bind_get, (Hgone eq_refl). cbn [negb]. unfold fail.
    now rewrite state_eta. }
  clear Hgone.
  assert (Hcur : hashes_current org definedPatterns s').
  { rewrite UpdatePatternPolicies_run in Hrun by assumption.
    intros patternId v Hin Hs'.
    eapply (update_loop_success org policyPath _ definedPatterns _ s');
      [| exact Hnd | exact Hrun | exact Hin | exact Hs']. lia. }
  split; [exact Hcur|]. split; [exact Hall|].
  intros definedPatterns' visit' Hperm.
  assert (Horg' : hasOrg s' org = true).
  { pose proof (UpdatePatternPolicies_keeps (fun m => is_Some (m !! org))
                  org definedPatterns policyPath visit s) as Hk.
    rewrite Hrun in Hk. cbn [snd] in Hk.
    destruct Hk as [om Hom]; auto.
    - intros m p [om Hm]. unfold without_pattern. rewrite Hm.
      rewrite lookup_insert_eq. eauto.
    - intros m p pe [om Hm]. unfold set_slot. rewrite Hm.
      rewrite lookup_insert_eq. eauto.
    - unfold hasOrg in Horg. destruct (OrgPatterns s !! org); [eauto | discriminate].
    - unfold hasOrg. now rewrite Hom. }
  assert (Hdef' : definedPatterns' <> []).
  { intros ->. apply Permutation_sym, Permutation_nil in Hperm. contradiction. }
  rewrite UpdatePatternPolicies_run by assumption.
  rewrite delete_undefined_noop.
  2:{ intros pattern Hp. rewrite <- (found_Permutation _ _ _ Hperm). now apply Hall. }
  cbn [snd].
  destruct (update_loop_noop org policyPath (length (heap s')) definedPatterns' s')
    as (h & Hnoop & _); [lia| |].
  { intros pid p Hin. apply Hcur.
    apply (Permutation_in _ (Permutation_sym Hperm) Hin). }
  exists h. rewrite Hnoop. destruct definedPatterns; [now destruct Hdef | reflexivity].
Qed.

(** *** The files of an entry *)

(** [DeleteAllPolicyFiles] asks for the deletion of the files of the entry
    one by one, in the order of [PolicyFileNames], and stops at the first
    deletion that fails, returning the error of that deletion.  When every
    deletion succeeds, it returns [nil] after a deletion event for each
    file; when the files [done] are deleted and the deletion of the next
    file fails with [err], it returns [err] after the deletion events for
    [done] and for that file, and the files behind it are not touched.  One
    of the two is always the case.  The world is as the last deletion left
    it.  The map is not touched: also after a failure the entry lists all
    its files, the deleted ones included, with the old hash. *)
Theorem DeleteAllPolicyFiles_stops_at_failure
    (org pattern policyPath porg : string) (e : PatternEntry) (s : State) :
  entry_at (OrgPatterns s) org pattern = Some e ->
  (forall w',
     all_deleted (world s) (PolicyFileNames e) w' ->
     DeleteAllPolicyFiles (org, pattern) policyPath porg s =
     (Ok tt,
      {| OrgPatterns := OrgPatterns s; heap := heap s; world := w';
         trace := (trace s ++ map DeletePolicyFile (PolicyFileNames e))%list |})) /\
  (forall done fileName err w',
     deletion_fails (world s) (PolicyFileNames e) done fileName err w' ->
     DeleteAllPolicyFiles (org, pattern) policyPath porg s =
     (Err err,
      {| OrgPatterns := OrgPatterns s; heap := heap s; world := w';
         trace := (trace s ++ map DeletePolicyFile (done ++ [fileName]))%list |})) /\
  ((exists w', all_deleted (world s) (PolicyFileNames e) w') \/
   (exists done fileName err w',
      deletion_fails (world s) (PolicyFileNames e) done fileName err w')).
Proof.
  intros He. split; [|split].
  - intros w' Hall. now apply (DeleteAllPolicyFiles_all _ _ _ _ e).
  - intros done fileName err w' Hfail. now apply (DeleteAllPolicyFiles_fails _ _ _ _ e).
  - apply deletion_outcomes.
Qed.

(** [createPolicyFiles] keeps the file names of the entry in step with the
    files it creates.  When the pattern converts to policies and the file
    of every policy is created, it returns [nil], the names that
    [CreatePolicyFile] returned are appended to [PolicyFileNames] in the
    order of the policies, and there is a creation event for each policy.
    When the creation fails (the pattern does not convert, or the file of a
    policy cannot be created), it returns the error of the conversion or of
    that creation, the entry has got the names of the files created before,
    and the policies behind the failing one are not tried.  One of the two
    is always the case. *)
Theorem createPolicyFiles_records (org pattern patternId policyPath porg : string)
    (l : loc) (v : ExPattern) (e : PatternEntry) (s : State) :
  entry_at (OrgPatterns s) org pattern = Some e ->
  heap s !! l = Some v ->
  (forall policies names w',
     exchange_ConvertToPolicies patternId v = Ok policies ->
     all_created policyPath porg (world s) policies names w' ->
     createPolicyFiles (org, pattern) patternId l policyPath porg s =
     (Ok tt,
      {| OrgPatterns :=
           set_slot (OrgPatterns s) org pattern
             (Some (with_files e (PolicyFileNames e ++ names)%list));
         heap := heap s; world := w';
         trace := (trace s ++ creations policyPath porg policies)%list |})) /\
  (forall tried names err w',
     creation_fails policyPath porg patternId v (world s) tried names err w' ->
     createPolicyFiles (org, pattern) patternId l policyPath porg s =
     (Err err,
      {| OrgPatterns :=
           set_slot (OrgPatterns s) org pattern
             (Some (with_files e (PolicyFileNames e ++ names)%list));
         heap := heap s; world := w';
         trace := (trace s ++ creations policyPath porg tried)%list |})) /\
  ((exists policies names w',
      exchange_ConvertToPolicies patternId v = Ok policies /\
      all_created policyPath porg (world s) policies names w') \/
   (exists tried names err w',
      creation_fails policyPath porg patternId v (world s) tried names err w')) /\
  (forall names,
     entry_at
       (set_slot (OrgPatterns s) org pattern
          (Some (with_files e (PolicyFileNames e ++ names)%list))) org pattern =
     Some (with_files e (PolicyFileNames e ++ names)%list)).
Proof.
  intros He Hv. split; [|split; [|split]].
  - intros policies names w' Hconv Hall.
    now apply (createPolicyFiles_all _ _ _ _ _ _ v policies).
  - intros tried names err w' Hfail.
    now apply (createPolicyFiles_fails _ _ _ _ _ _ v).
  - apply creation_outcomes.
  - intros names. apply entry_at_set_slot. now apply entry_at_has_key in He.
Qed.

End PassFacts.

Section PassExamples.
Import pm.

Lemma UpdatePatternPolicies_success_witness :
  let env := examples.string_env false false in
  let s := examples.serving (H := env) 0%nat ["a"] in
  let s' := (UpdatePatternPolicies (H := env) "o" [("o/a", "PA")] "/policy/" ["a"]
               s).2 in
  hashes_current (H := env) "o" [("o/a", "PA")] s' /\
  exists h,
    UpdatePatternPolicies (H := env) "o" [("o/a", "PA")] "/policy/" ["a"] s' =
    (Ok tt, @Build_State env (OrgPatterns s') h (world s') (trace s')).
Proof.
  intros env s s'.
  destruct (UpdatePatternPolicies_success (H := env) "o" [("o/a", "PA")]
              "/policy/" ["a"] s s') as (Hcur & _ & Hnext).
  - apply NoDup_singleton.
  - apply serving_keys.
  - vm_compute. reflexivity.
  - split; [exact Hcur|].
    apply (Hnext [("o/a", "PA")] ["a"]). apply Permutation_refl.
Defined.

Lemma DeleteAllPolicyFiles_stops_at_failure_witness :
  let env := examples.string_env false true in
  let s := examples.serving_old false true in
  DeleteAllPolicyFiles (H := env) ("o", "a") "/policy/" "o" s =
  (Err (ExternalError "permission denied"),
   @Build_State env (OrgPatterns s) (heap s) 8%nat
     (trace s ++ map (DeletePolicyFile (H := env)) ([] ++ ["/policy/o_OLD"]))%list).
Proof.
  intros env s.
  apply (proj1 (proj2 (DeleteAllPolicyFiles_stops_at_failure (H := env) "o" "a"
                         "/policy/" "o" examples.old_entry s eq_refl))
           [] "/policy/o_OLD" (ExternalError "permission denied") 8%nat).
  exists [], 8%nat. split; [reflexivity|]. split; [constructor | reflexivity].
Defined.

Lemma createPolicyFiles_records_witness :
  let env := examples.string_env false false in
  let s := examples.serving_old false false in
  createPolicyFiles (H := env) ("o", "a") "o/a" 0%nat "/policy/" "o" s =
  (Ok tt,
   @Build_State env
     (set_slot (OrgPatterns s) "o" "a"
        (Some (with_files examples.old_entry
                 (PolicyFileNames examples.old_entry ++ ["/policy/o_OLD"])%list)))
     (heap s) 8%nat
     (trace s ++ creations (H := env) "/policy/" "o" ["OLD"])%list).
Proof.
  intros env s.
  apply (proj1 (createPolicyFiles_records (H := env) "o" "a" "o/a" "/policy/" "o"
                  0%nat "OLD" examples.old_entry s eq_refl eq_refl)
           ["OLD"] ["/policy/o_OLD"] 8%nat).
  - reflexivity.
  - apply (all_created_cons (H := env) "/policy/" "o" 8%nat "OLD" "/policy/o_OLD"
             8%nat [] [] 8%nat); [reflexivity | constructor].
Defined.

End PassExamples.
